(** * ngx-signalr-hubservice: the HubService connection manager

    A shallow embedding of [HubService] (ngx-signalr-hubservice.ts): the
    connection life cycle ([connect], [tryReconnect] and the transport
    callbacks), the invocation path ([invoke]) and the listener registry
    ([register], [unregister], [hubMessageReceived]).

    The class is stateful and driven by callbacks, so the embedding is a
    state-and-exception monad over one record that holds the fields of the
    class together with the part of the JavaScript run time the class talks
    to: the promises handed out by the transport, the RxJS subscriptions,
    the pending [delay] timers and one trace of everything observable
    (transport calls, emitter notifications, values delivered to
    subscribers, listener calls, console output). *)

From Stdlib Require Import ZArith.
From stdpp Require Import base option list gmap strings.

Set Warnings "-register-all".
Open Scope string_scope.
Open Scope list_scope.

(** ** JavaScript values passed as hub arguments and results *)

Inductive jsval : Type :=
| JUndefined
| JBool (b : bool)
| JNum (z : Z)
| JStr (s : string)
| JSymbol (description : string)
| JArr (l : list jsval).

Fixpoint jsval_eq_dec (x y : jsval) {struct x} : {x = y} + {x <> y}.
Proof.
  decide equality.
  - apply bool_eq_dec.
  - apply Z.eq_dec.
  - apply String.eq_dec.
  - apply String.eq_dec.
  - revert l0. induction l as [|a l IH]; intros [|b l'].
    + left; reflexivity.
    + right; discriminate.
    + right; discriminate.
    + destruct (jsval_eq_dec a b) as [->|Hab].
      * destruct (IH l') as [->|Hl]; [left; reflexivity|right; congruence].
      * right; congruence.
Defined.

#[global] Instance jsval_eq : EqDecision jsval := jsval_eq_dec.

(** Size of a value, counting constructors; used to tell a list of values
    from the one-element list that wraps it in an array. *)
Fixpoint jsval_size (v : jsval) : nat :=
  match v with
  | JArr l => S (list_sum (map jsval_size l))
  | _ => 1
  end.

Definition args_size (args : list jsval) : nat := list_sum (map jsval_size args).

(** Whether a value converts to a string, as a template literal asks of
    it: a Symbol refuses ([TypeError]), and so does an array that holds
    one, since [Array.prototype.toString] converts each element. *)
Fixpoint stringable (v : jsval) : bool :=
  match v with
  | JSymbol _ => false
  | JArr l => forallb stringable l
  | _ => true
  end.

(** ** Static declarations (decorators [Hub] and [HubSubscription]) *)

(** Objects are told apart by identity: a subscriber instance and a function
    object are each a number. *)
Definition inst : Type := nat.
Definition callback : Type := nat.

(** [hubGroups?: string | string[]]; [GNull] is the absent property. *)
Inductive groups : Type :=
| GNull
| GOne (g : string)
| GMany (gs : list string).

Record subscription : Type := {
  eventName : string;
  functionName : string
}.

Record HubProperties : Type := {
  hubName : string;
  hubGroups : groups;
  subscriptions : list subscription
}.

(** [HubServiceOptions]: every property is optional. *)
Module HubServiceOptions.
Record t : Type := {
  url : option string;
  attemptReconnects : option bool;
  qs : option string;
  hubGroups : groups
}.
Definition empty : t :=
  {| url := None; attemptReconnects := None; qs := None; hubGroups := GNull |}.
End HubServiceOptions.

(** ** Run-time data *)

(** [eventType = { thisObj, callback }], one listener. *)
Record eventType : Type := {
  thisObj : inst;
  callback_of : callback
}.

(** [hubProxyWrapper]: the transport's proxy (named by its hub) and the
    listeners per event name. *)
Record hubProxyWrapper : Type := {
  hubProxy : string;
  events : gmap string (list eventType)
}.

(** [HubWrapper] as returned by [register]: [invoke] and [unregister] are
    closures over the hub name and the instance, [hub] is the proxy. *)
Record HubWrapper : Type := {
  wrapper_hubName : string;
  wrapper_instance : inst;
  hub : option string
}.

Module connectionState.
(** [$.signalR.connectionState] *)
Inductive t : Type := connecting | connected | reconnecting | disconnected.
End connectionState.

(** The jQuery connection object as far as the service reads or writes it. *)
Record Connection : Type := {
  conn_url : option string;
  conn_qs : option string;
  conn_state : connectionState.t
}.

(** A promise handed out by the transport settles once. *)
Inductive outcome : Type :=
| Resolved (v : jsval)
| Rejected (e : jsval).

Inductive pstate : Type :=
| Pending
| Settled (o : outcome).

(** What an RxJS observer can receive. *)
Inductive obs_event : Type :=
| Next (v : jsval)
| Error (e : jsval)
| Complete.

(** The observables the service builds.  A gate is a [Subject<boolean>]
    (named by a number), the others wrap a promise of the transport.
    - [OGate g]: [reconnectingObservable.asObservable()];
    - [OStart p]: [from(start()).pipe(map, tap(connectedCallback),
      catchError(connectionErrorCallback))];
    - [OStop p]: [from(stop()).pipe(map)];
    - [OGatedCall g h m args]: the gate piped through [flatMap] that issues
      [hubProxy.invoke(m, ...args)] on proxy [h];
    - [OGatedNoProxy g]: the same pipe built by [invoke] around a
      [hubContainer] that is not null but has no [hubProxy];
    - [ODirectCall p hn m args]: [from(p)] piped through the [catchError]
      that may call [invoke(hn, m, args)] again. *)
Inductive Observable : Type :=
| OGate (g : nat)
| OStart (p : nat)
| OStop (p : nat)
| OGatedCall (g : nat) (h : string) (method : string) (args : list jsval)
| OGatedNoProxy (g : nat)
| ODirectCall (p : nat) (hn : string) (method : string) (args : list jsval).

(** Who subscribes: code outside the service (numbered), or the [async]
    callback that [tryReconnect] passes to [subscribe]. *)
Inductive observer : Type :=
| Caller (c : nat)
| Reconnector.

(** A live subscription.  [SubInner p outer k] is the inner
    [from(hubProxy.invoke(..))] that [flatMap] subscribed on behalf of the
    subscription of [k] to [outer]. *)
Inductive rx_subscription : Type :=
| Sub (o : Observable) (k : observer)
| SubInner (p : nat) (outer : Observable) (k : observer).

#[global] Instance groups_eq : EqDecision groups.
Proof. solve_decision. Defined.
#[global] Instance Observable_eq : EqDecision Observable.
Proof. solve_decision. Defined.
#[global] Instance observer_eq : EqDecision observer.
Proof. solve_decision. Defined.
#[global] Instance rx_subscription_eq : EqDecision rx_subscription.
Proof. solve_decision. Defined.
#[global] Instance outcome_eq : EqDecision outcome.
Proof. solve_decision. Defined.
#[global] Instance obs_event_eq : EqDecision obs_event.
Proof. solve_decision. Defined.

(** ** The trace of observable effects *)

Inductive wire_call : Type :=
| WCreateHubProxy (h : string)
| WOn (h : string) (event : string)
| WStart (p : nat)
| WStop (p : nat)
| WInvoke (p : nat) (h : string) (method : string) (args : list jsval).

Inductive notification : Type :=
| NConnected (b : bool)
| NDisconnected (b : bool)
| NReconnecting
| NReconnected (b : bool).

Inductive console_msg : Type :=
| CWarnNoMethod (i : inst) (s : subscription)
| CErrorCallback (h : string) (event : string) (err : jsval).

Inductive effect : Type :=
| Wire (w : wire_call)
| Emit (n : notification)
| Deliver (k : nat) (ev : obs_event)
| Called (i : inst) (cb : callback) (args : list jsval)
| Console (m : console_msg).

#[global] Instance wire_call_eq : EqDecision wire_call.
Proof. solve_decision. Defined.
#[global] Instance notification_eq : EqDecision notification.
Proof. solve_decision. Defined.
#[global] Instance subscription_eq : EqDecision subscription.
Proof. solve_decision. Defined.
#[global] Instance console_msg_eq : EqDecision console_msg.
Proof. solve_decision. Defined.
#[global] Instance effect_eq : EqDecision effect.
Proof. solve_decision. Defined.

(** ** The service *)

(** The fields of the class, then the run time around it. *)
Record HubService : Type := mkHubService {
  _connection : option Connection;
  _errorConnecting : bool;
  tryingReconnect : bool;
  reconnectingObservable : option nat;
  deferredRegistrations : list inst;
  options : option HubServiceOptions.t;
  hubProxies : option (gmap string hubProxyWrapper);
  (* run time *)
  hooked : bool;                      (* life-cycle callbacks wired to the transport *)
  promises : gmap nat pstate;         (* promises handed out by the transport *)
  fresh : nat;                        (* next unused promise / subject name *)
  subscribers : list rx_subscription; (* live RxJS subscriptions, oldest first *)
  timers : nat;                       (* pending [delay(1000)] continuations *)
  trace : list effect                 (* everything observable, oldest first *)
}.

(** [new HubService()] *)
Definition initial : HubService :=
  {| _connection := None; _errorConnecting := false; tryingReconnect := false;
     reconnectingObservable := None; deferredRegistrations := [];
     options := None; hubProxies := None;
     hooked := false; promises := ∅; fresh := 0; subscribers := [];
     timers := 0; trace := [] |}.

Definition set_connection (x : option Connection) (s : HubService) : HubService :=
  mkHubService x (_errorConnecting s) (tryingReconnect s) (reconnectingObservable s)
    (deferredRegistrations s) (options s) (hubProxies s) (hooked s) (promises s)
    (fresh s) (subscribers s) (timers s) (trace s).
Definition set_errorConnecting (x : bool) (s : HubService) : HubService :=
  mkHubService (_connection s) x (tryingReconnect s) (reconnectingObservable s)
    (deferredRegistrations s) (options s) (hubProxies s) (hooked s) (promises s)
    (fresh s) (subscribers s) (timers s) (trace s).
Definition set_tryingReconnect (x : bool) (s : HubService) : HubService :=
  mkHubService (_connection s) (_errorConnecting s) x (reconnectingObservable s)
    (deferredRegistrations s) (options s) (hubProxies s) (hooked s) (promises s)
    (fresh s) (subscribers s) (timers s) (trace s).
Definition set_reconnectingObservable (x : option nat) (s : HubService) : HubService :=
  mkHubService (_connection s) (_errorConnecting s) (tryingReconnect s) x
    (deferredRegistrations s) (options s) (hubProxies s) (hooked s) (promises s)
    (fresh s) (subscribers s) (timers s) (trace s).
Definition set_deferredRegistrations (x : list inst) (s : HubService) : HubService :=
  mkHubService (_connection s) (_errorConnecting s) (tryingReconnect s)
    (reconnectingObservable s) x (options s) (hubProxies s) (hooked s) (promises s)
    (fresh s) (subscribers s) (timers s) (trace s).
Definition set_options (x : option HubServiceOptions.t) (s : HubService) : HubService :=
  mkHubService (_connection s) (_errorConnecting s) (tryingReconnect s)
    (reconnectingObservable s) (deferredRegistrations s) x (hubProxies s) (hooked s)
    (promises s) (fresh s) (subscribers s) (timers s) (trace s).
Definition set_hubProxies (x : option (gmap string hubProxyWrapper)) (s : HubService)
  : HubService :=
  mkHubService (_connection s) (_errorConnecting s) (tryingReconnect s)
    (reconnectingObservable s) (deferredRegistrations s) (options s) x (hooked s)
    (promises s) (fresh s) (subscribers s) (timers s) (trace s).
Definition set_hooked (x : bool) (s : HubService) : HubService :=
  mkHubService (_connection s) (_errorConnecting s) (tryingReconnect s)
    (reconnectingObservable s) (deferredRegistrations s) (options s) (hubProxies s) x
    (promises s) (fresh s) (subscribers s) (timers s) (trace s).
Definition set_promises (x : gmap nat pstate) (s : HubService) : HubService :=
  mkHubService (_connection s) (_errorConnecting s) (tryingReconnect s)
    (reconnectingObservable s) (deferredRegistrations s) (options s) (hubProxies s)
    (hooked s) x (fresh s) (subscribers s) (timers s) (trace s).
Definition set_fresh (x : nat) (s : HubService) : HubService :=
  mkHubService (_connection s) (_errorConnecting s) (tryingReconnect s)
    (reconnectingObservable s) (deferredRegistrations s) (options s) (hubProxies s)
    (hooked s) (promises s) x (subscribers s) (timers s) (trace s).
Definition set_subscribers (x : list rx_subscription) (s : HubService) : HubService :=
  mkHubService (_connection s) (_errorConnecting s) (tryingReconnect s)
    (reconnectingObservable s) (deferredRegistrations s) (options s) (hubProxies s)
    (hooked s) (promises s) (fresh s) x (timers s) (trace s).
Definition set_timers (x : nat) (s : HubService) : HubService :=
  mkHubService (_connection s) (_errorConnecting s) (tryingReconnect s)
    (reconnectingObservable s) (deferredRegistrations s) (options s) (hubProxies s)
    (hooked s) (promises s) (fresh s) (subscribers s) x (trace s).
Definition set_trace (x : list effect) (s : HubService) : HubService :=
  mkHubService (_connection s) (_errorConnecting s) (tryingReconnect s)
    (reconnectingObservable s) (deferredRegistrations s) (options s) (hubProxies s)
    (hooked s) (promises s) (fresh s) (subscribers s) (timers s) x.

(** ** State and exceptions *)

(** A thrown JavaScript value: an error object made by the run time or by
    the service (the messages of a [TypeError] are those of V8), or the
    value [v] that a listener throws.  The state reached when the exception
    is thrown is kept: assignments made before a [throw] are not undone.
    [Hang] is no JavaScript value: it ends a loop that the embedding has
    followed for as many rounds as it is told to and that the code would
    still be running. *)
Inductive exn : Type :=
| TypeError (msg : string)
| JsError (msg : string)
| RangeError
| Thrown (v : jsval)
| Hang.

(** [Cannot read properties of undefined (reading 'key')] *)
Definition cannot_read (key : string) : exn :=
  TypeError ("Cannot read properties of undefined (reading '" ++ key ++ "')").

Definition M (A : Type) : Type := HubService -> (exn + A) * HubService.

Definition ret {A} (a : A) : M A := fun s => (inr a, s).
Definition throw {A} (e : exn) : M A := fun s => (inl e, s).
Definition bind {A B} (m : M A) (k : A -> M B) : M B :=
  fun s => match m s with
           | (inl e, s') => (inl e, s')
           | (inr a, s') => k a s'
           end.
Definition gets {A} (f : HubService -> A) : M A := fun s => (inr (f s), s).
Definition modify (f : HubService -> HubService) : M unit := fun s => (inr tt, f s).

(** [try { m } catch (e) { h e }] *)
Definition try_catch {A} (m : M A) (h : exn -> M A) : M A :=
  fun s => match m s with
           | (inl e, s') => h e s'
           | (inr a, s') => (inr a, s')
           end.

(** A callback run by the JavaScript job queue or by an RxJS safe
    subscriber, and the body of an [async] function: whatever it throws does
    not reach the code that triggered it. *)
Definition isolated (m : M unit) : M unit := try_catch m (fun _ => ret tt).

Declare Scope hub_scope.
Delimit Scope hub_scope with hub.
Notation "x <- m ;; k" := (bind m (fun x => k))
  (at level 20, m at level 99, k at level 200, only parsing) : hub_scope.
Notation "m ;; k" := (bind m (fun _ => k))
  (at level 100, k at level 200, right associativity, only parsing) : hub_scope.
Open Scope hub_scope.

Fixpoint for_each {A} (f : A -> M unit) (l : list A) : M unit :=
  match l with
  | [] => ret tt
  | a :: l' => f a ;; for_each f l'
  end.

Fixpoint foldlM {A B} (f : B -> A -> M B) (b : B) (l : list A) : M B :=
  match l with
  | [] => ret b
  | a :: l' => b' <- f b a ;; foldlM f b' l'
  end.

Definition exec {A} (m : M A) (s : HubService) : HubService := snd (m s).
Definition result {A} (m : M A) (s : HubService) : exn + A := fst (m s).

(** The value a [catch] clause or an error notification sees. *)
Definition exn_value (e : exn) : jsval :=
  match e with
  | TypeError m => JStr ("TypeError: " ++ m)
  | JsError m => JStr ("Error: " ++ m)
  | RangeError => JStr "RangeError: Maximum call stack size exceeded"
  | Thrown v => v
  | Hang => JUndefined
  end.

(** JavaScript truthiness, for [!connected]. *)
Definition truthy (v : jsval) : bool :=
  match v with
  | JUndefined => false
  | JBool b => b
  | JNum z => negb (z =? 0)%Z
  | JStr s => negb (String.eqb s "")
  | JSymbol _ => true
  | JArr _ => true
  end.

Definition log (e : effect) : M unit := modify (fun s => set_trace (trace s ++ [e]) s).
Definition emit (n : notification) : M unit := log (Emit n).

(** A call on the transport that returns a promise: the promise gets the
    next unused name and is pending, the call is on the wire. *)
Definition issue (call : nat -> wire_call) (s : HubService) : HubService :=
  set_trace (trace s ++ [Wire (call (fresh s))])
    (set_promises (<[fresh s := Pending]> (promises s))
      (set_fresh (S (fresh s)) s)).

Definition transport_promise (call : nat -> wire_call) : M nat :=
  p <- gets fresh ;;
  modify (issue call) ;;
  ret p.

(** [this.reconnectingObservable = new Subject<boolean>()] *)
Definition open_gate (s : HubService) : HubService :=
  set_reconnectingObservable (Some (fresh s)) (set_fresh (S (fresh s)) s).

Definition new_gate : M unit := modify open_gate.

Definition add_subscription (x : rx_subscription) : M unit :=
  modify (fun s => set_subscribers (subscribers s ++ [x]) s).
Definition remove_subscription (x : rx_subscription) : M unit :=
  modify (fun s => set_subscribers (filter (fun y => y <> x) (subscribers s)) s).

(** ** Plain objects used as maps

    [hubProxies] and the [events] of a wrapper are plain objects ([{}]):
    what a lookup or the [in] operator finds under a name is the property
    that the service has stored there or, failing that, the member of
    [Object.prototype] of that name. *)

(** The members of [Object.prototype], each with the [length] of the
    function it holds; [__proto__] is an accessor and yields the prototype,
    an object without a [length]. *)
Definition Object_prototype : list (string * option nat) :=
  [ ("constructor", Some 1); ("__defineGetter__", Some 2); ("__defineSetter__", Some 2);
    ("hasOwnProperty", Some 1); ("__lookupGetter__", Some 1); ("__lookupSetter__", Some 1);
    ("isPrototypeOf", Some 1); ("propertyIsEnumerable", Some 1); ("toString", Some 0);
    ("valueOf", Some 0); ("__proto__", None); ("toLocaleString", Some 0) ].

(** What a plain object answers for a name it has no own property for:
    [None] is [undefined]; [Some len] is a member of [Object.prototype],
    which is not null, is no array, cannot be iterated, and has no
    [hubProxy], [events] or [push] of its own. *)
Definition inherited (name : string) : option (option nat) :=
  snd <$> find (fun member => String.eqb (fst member) name) Object_prototype.

(** Whether [this.hubProxies[name]] is something although the service holds
    no wrapper under [name].  The assignment [this.hubProxies["__proto__"] =
    wrapper] of a hub of that name does not make a property: it makes the
    wrapper the prototype of [hubProxies].  The table keeps such a wrapper
    under its name, which is what [this.hubProxies["__proto__"]] then
    yields, and the two properties of the wrapper, [hubProxy] and [events],
    show through as names of [hubProxies]: objects that have no [hubProxy]
    and no [events] themselves (as long as that hub has no event of either
    name). *)
Definition foreign_hub (proxies : gmap string hubProxyWrapper) (name : string) : bool :=
  match inherited name with
  | Some _ => true
  | None =>
      match proxies !! "__proto__" with
      | Some _ => bool_decide (name = "hubProxy") || bool_decide (name = "events")
      | None => false
      end
  end.

(** [this.hubProxies[hub'].events[event]] where the service holds such a
    list: the listeners bound to event [event] of hub [hub'], in call
    order. *)
Definition listeners (s : HubService) (hub' event : string) : list eventType :=
  match hubProxies s with
  | Some proxies =>
      match proxies !! hub' with
      | Some w => default [] (events w !! event)
      | None => []
      end
  | None => []
  end.

(** ** The application and the transport *)

(** What the application asks of the service; an observable returned by
    the service is subscribed to at once by observer [k], as in
    [hubService.connect().toPromise()]. *)
Inductive request : Type :=
| CallConnect (o : HubServiceOptions.t) (k : nat)
| CallDisconnect (k : nat)
| CallInvoke (hn method : string) (args : list jsval) (k : nat)
| CallRegister (i : inst)
| CallUnregister (i : inst).

(** The function of a listener is code of the application.  As far as the
    service is concerned it makes requests, one after the other, each bare
    or inside a [try { } catch { }] of its own, and then returns or throws:
    an exception out of a bare request ends it there. *)
Inductive statement : Type :=
| Bare (r : request)
| Guarded (r : request).

Record behaviour : Type := {
  statements : list statement;
  thrown : option jsval
}.

(** What the transport and the timer queue do to the service. *)
Inductive event : Type :=
| StateChanged (st : connectionState.t)   (* the transport updates [connection.state] *)
| Settle (p : nat) (out : outcome)        (* a promise of the transport settles *)
| Disconnected                            (* the life-cycle callbacks *)
| Reconnecting
| Reconnected
| DelayElapsed                            (* a pending [delay(1000)] resolves *)
| Message (hub' : string) (s : subscription) (args : list jsval).

(** One step of a script: a request of the application, made outside any
    listener, or an event. *)
Inductive command : Type :=
| Do (r : request)
| Env (e : event).

Abbreviation DoConnect o k := (Do (CallConnect o k)).
Abbreviation DoDisconnect k := (Do (CallDisconnect k)).
Abbreviation DoInvoke hn method args k := (Do (CallInvoke hn method args k)).
Abbreviation DoRegister i := (Do (CallRegister i)).
Abbreviation DoUnregister i := (Do (CallUnregister i)).

(** ** The operations of [HubService] *)

Section HubService.

(** What the program around the service fixes before any connection is
    made: the global table filled by the [Hub] decorators, the metadata
    [Reflect.getMetadata("Hub", instance)] of each instance, the function
    stored under a property name of an instance, the string that an
    instance converts to, and what calling a function on an instance with
    some arguments does.  [stack_limit] is how many nested re-entrant calls
    the JavaScript engine allows before it throws a [RangeError];
    [loop_limit] is how many listeners one inbound event is followed
    through. *)
Variable allHubProperties : list HubProperties.
Variable getMetadata : inst -> option HubProperties.
Variable method_of : inst -> string -> option callback.
Variable instance_string : inst -> string.
Variable apply_callback : callback -> inst -> list jsval -> behaviour.
Variable stack_limit : nat.
Variable loop_limit : nat.

(** [get connected()] *)
Definition connected (s : HubService) : bool :=
  match _connection s with
  | None => false
  | Some c =>
      match conn_state c with
      | connectionState.connected => true
      | _ => false
      end
  end.

(** [this.options], of which property [key] is about to be read. *)
Definition the_options (key : string) : M HubServiceOptions.t :=
  o <- gets options ;;
  match o with
  | Some o => ret o
  | None => throw (cannot_read key)
  end.

(** [this.hubProxies], likewise. *)
Definition the_hubProxies (key : string) : M (gmap string hubProxyWrapper) :=
  o <- gets hubProxies ;;
  match o with
  | Some m => ret m
  | None => throw (cannot_read key)
  end.

(** *** Groups *)

Definition is_null (g : groups) : bool :=
  match g with GNull => true | _ => false end.

(** [Array.isArray(x) ? x : [x]] *)
Definition force_array (g : groups) : list string :=
  match g with
  | GNull => []
  | GOne x => [x]
  | GMany xs => xs
  end.

Definition matchesGroup (hubGroups : groups) : M bool :=
  o <- the_options "hubGroups" ;;
  let ours := HubServiceOptions.hubGroups o in
  if is_null ours && negb (is_null hubGroups) then ret false
  else if is_null hubGroups && negb (is_null ours) then ret false
  else if is_null hubGroups && is_null ours then ret true
  else
    let hubGroups := force_array hubGroups in
    let ourGroups := force_array ours in
    (* this.options.hubGroups = [ this.options.hubGroups ] *)
    modify (set_options (Some
      {| HubServiceOptions.url := HubServiceOptions.url o;
         HubServiceOptions.attemptReconnects := HubServiceOptions.attemptReconnects o;
         HubServiceOptions.qs := HubServiceOptions.qs o;
         HubServiceOptions.hubGroups := GMany ourGroups |})) ;;
    ret (existsb (fun group =>
           existsb (fun ourGroup => String.eqb group ourGroup) ourGroups) hubGroups).

(** *** Proxies and listeners *)

Definition createHubProxy (properties : HubProperties) : M hubProxyWrapper :=
  log (Wire (WCreateHubProxy (hubName properties))) ;;
  evs <- foldlM (fun (evs : gmap string (list eventType)) subscription =>
           (* if (subscription.eventName in events) continue; *)
           match evs !! eventName subscription, inherited (eventName subscription) with
           | None, None =>
               log (Wire (WOn (hubName properties) (eventName subscription))) ;;
               ret (<[eventName subscription := []]> evs)
           | _, _ => ret evs              (* don't resubscribe to events *)
           end) ∅ (subscriptions properties) ;;
  ret {| hubProxy := hubName properties; events := evs |}.

(** [hubProxy.events[eventName].push(l)] on the wrapper stored under
    [hn].  Without a list under that name, what [events] answers is
    [undefined] or a member of [Object.prototype], which has no [push]. *)
Definition push_listener (hn event : string) (l : eventType) : M unit :=
  proxies <- the_hubProxies hn ;;
  match proxies !! hn with
  | None => throw (cannot_read "events")
  | Some w =>
      match events w !! event with
      | None =>
          match inherited event with
          | Some _ =>
              throw (TypeError
                "hubProxy.events[subscription.eventName].push is not a function")
          | None => throw (cannot_read "push")
          end
      | Some ls =>
          modify (set_hubProxies (Some (<[hn :=
            {| hubProxy := hubProxy w; events := <[event := (ls ++ [l])%list]> (events w) |}]>
            proxies)))
      end
  end.

Definition register (instance : inst) : M (option HubWrapper) :=
  match getMetadata instance with
  | None => throw (JsError
      ("You must call register with an instance of a class with the @Hub decorator on it. Instance: "
       ++ instance_string instance))
  | Some hubProperties =>
      let hubWrapper := {| wrapper_hubName := hubName hubProperties;
                           wrapper_instance := instance; hub := None |} in
      if (length (subscriptions hubProperties) =? 0)%nat then
        throw (JsError ("Hub " ++ hubName hubProperties ++
                        " must have at least one event subscription."))
      else
        proxies <- gets hubProxies ;;
        match proxies with
        | None =>
            (* allows the caller to register to hubs before actually connecting *)
            modify (fun s =>
              set_deferredRegistrations (deferredRegistrations s ++ [instance]) s) ;;
            ret (Some hubWrapper)
        | Some proxies =>
            match proxies !! hubName hubProperties with
            | None =>
                if foreign_hub proxies (hubName hubProperties) then
                  (* [hubProxy] is not null; its [hubProxy] and its [events]
                     are undefined *)
                  for_each (fun subscription =>
                    match method_of instance (functionName subscription) with
                    | None => log (Console (CWarnNoMethod instance subscription))
                    | Some _ => throw (cannot_read (eventName subscription))
                    end) (subscriptions hubProperties) ;;
                  ret (Some hubWrapper)
                else
                  (* only throw the invalid hub error if it matches this
                     connections group *)
                  ok <- matchesGroup (hubGroups hubProperties) ;;
                  if negb ok then ret None
                  else throw (JsError ("Invalid hub name " ++ hubName hubProperties))
            | Some hubProxy' =>
                let hubWrapper := {| wrapper_hubName := hubName hubProperties;
                                     wrapper_instance := instance;
                                     hub := Some (hubProxy hubProxy') |} in
                for_each (fun subscription =>
                  match method_of instance (functionName subscription) with
                  | None => log (Console (CWarnNoMethod instance subscription))
                  | Some f =>
                      push_listener (hubName hubProperties) (eventName subscription)
                        {| thisObj := instance; callback_of := f |}
                  end) (subscriptions hubProperties) ;;
                ret (Some hubWrapper)
            end
        end
  end.

(** The loop [for (i = events.length - 1; i >= 0; i--)] of [unregister],
    started with [n = events.length]: position [n - 1] is looked at, and
    spliced out when its listener belongs to [instance]. *)
Fixpoint splice_owned (instance : inst) (n : nat) (evs : list eventType)
  : list eventType :=
  match n with
  | O => evs
  | S i =>
      match evs !! i with
      | Some event =>
          if decide (thisObj event = instance)
          then splice_owned instance i (delete i evs)
          else splice_owned instance i evs
      | None => splice_owned instance i evs
      end
  end.

(** The body of the loop over the declared subscriptions: the listeners of
    one event lose those of [instance].  Where [events] answers with a
    function of [Object.prototype], the loop starts at the [length] of that
    function and reads [thisObj] of an element that is not there. *)
Definition unregister_round (instance : inst) (hn : string) (subscription : subscription)
  : M unit :=
  proxies <- the_hubProxies hn ;;
  match proxies !! hn with
  | None =>
      if foreign_hub proxies hn then throw (cannot_read (eventName subscription))
      else throw (cannot_read "events")
  | Some proxy =>
      match events proxy !! eventName subscription with
      | None =>
          match inherited (eventName subscription) with
          | Some (Some (S _)) => throw (cannot_read "thisObj")
          | _ => ret tt
          end
      | Some evs =>
          modify (set_hubProxies (Some (<[hn :=
            {| hubProxy := hubProxy proxy;
               events := <[eventName subscription :=
                            splice_owned instance (length evs) evs]> (events proxy) |}]>
            proxies)))
      end
  end.

Definition unregister (instance : inst) : M unit :=
  match getMetadata instance with
  | None => throw (JsError
      ("You must call unregister with an instance of a class with the @Hub decorator on it. Instance: "
       ++ instance_string instance))
  | Some hubProperties =>
      _ <- the_hubProxies (hubName hubProperties) ;;
      for_each (unregister_round instance (hubName hubProperties))
        (subscriptions hubProperties)
  end.

(** *** Connecting *)

(** [{ url: "/signalr", attemptReconnects: false, ...options }] *)
Definition merge_options (o : HubServiceOptions.t) : HubServiceOptions.t :=
  {| HubServiceOptions.url := Some (default "/signalr" (HubServiceOptions.url o));
     HubServiceOptions.attemptReconnects :=
       Some (default false (HubServiceOptions.attemptReconnects o));
     HubServiceOptions.qs := HubServiceOptions.qs o;
     HubServiceOptions.hubGroups := HubServiceOptions.hubGroups o |}.

Definition initConnection : M unit :=
  modify (set_hubProxies (Some ∅)) ;;
  o <- the_options "url" ;;
  modify (set_connection (Some
    {| conn_url := HubServiceOptions.url o; conn_qs := HubServiceOptions.qs o;
       conn_state := connectionState.disconnected |})) ;;
  for_each (fun properties =>
    ok <- matchesGroup (hubGroups properties) ;;
    if negb ok then ret tt
    else
      w <- createHubProxy properties ;;
      proxies <- the_hubProxies (hubName properties) ;;
      modify (set_hubProxies (Some (<[hubName properties := w]> proxies))))
    allHubProperties ;;
  deferred <- gets deferredRegistrations ;;
  for_each (fun deferredRegistration => _ <- register deferredRegistration ;; ret tt)
    deferred ;;
  (* disconnected / reconnected / reconnecting / stateChanged are wired last *)
  modify (set_hooked true).

Definition _connect (ignoreReconnecting : bool) : M Observable :=
  gate <- gets reconnectingObservable ;;
  match ignoreReconnecting, gate with
  | false, Some g =>
      (* if user calls connect while we're trying to reconnect,
         just give them that observable *)
      ret (OGate g)
  | _, _ =>
      c <- gets _connection ;;
      match c with None => initConnection | Some _ => ret tt end ;;
      p <- transport_promise WStart ;;
      ret (OStart p)
  end.

Definition connect (o : HubServiceOptions.t) : M Observable :=
  modify (set_options (Some (merge_options o))) ;;
  _connect false.

Definition disconnect : M Observable :=
  c <- gets _connection ;;
  match c with
  | None => throw (TypeError "Cannot read properties of null (reading 'stop')")
  | Some _ => p <- transport_promise WStop ;; ret (OStop p)
  end.

Definition connectedCallback : M unit :=
  c <- gets connected ;;
  modify (set_errorConnecting (negb c)) ;;
  c <- gets connected ;;
  emit (NConnected c).

(** The value returned is the one of [of(false)]. *)
Definition connectionErrorCallback : M bool :=
  modify (set_errorConnecting true) ;;
  c <- gets connected ;;
  emit (NDisconnected c) ;;
  ret false.

Definition recconectingCallback : M unit :=
  emit NReconnecting ;;
  new_gate.

(** *** Calling a hub method *)

Definition invoke (hubName' method : string) (args : list jsval) : M Observable :=
  proxies <- the_hubProxies hubName' ;;
  match proxies !! hubName' with
  | None =>
      if foreign_hub proxies hubName' then
        (* [hubContainer] is not null, and [hubContainer.hubProxy] is
           undefined *)
        gate <- gets reconnectingObservable ;;
        match gate with
        | Some g => ret (OGatedNoProxy g)
        | None => throw (cannot_read "invoke")
        end
      else throw (JsError ("Invalid hub name " ++ hubName'))
  | Some hubContainer =>
      gate <- gets reconnectingObservable ;;
      match gate with
      | Some g =>
          (* we're reconnecting, so wait on that, then invoke our method *)
          ret (OGatedCall g (hubProxy hubContainer) method args)
      | None =>
          (* we're not reconnecting, so try to invoke our method *)
          p <- transport_promise (fun p => WInvoke p (hubProxy hubContainer) method args) ;;
          ret (ODirectCall p hubName' method args)
      end
  end.

(** *** Delivery to subscribers *)

Section Reentrant.

(** [this.reconnectedCallback()] as called from inside the subscriber of
    [tryReconnect]; the knot is tied by [reentrant] below. *)
Variable reenter : M unit.

(** An observer receives an event.  The subscriber of [tryReconnect] is
    [async (connected) => { if (!connected) { await delay(1000);
    this.tryReconnect(); } else { this.reconnectedCallback();
    this.tryingReconnect = false; } }] and has no error handler. *)
Definition observe (k : observer) (ev : obs_event) : M unit :=
  match k with
  | Caller c => log (Deliver c ev)
  | Reconnector =>
      match ev with
      | Next connected' =>
          isolated (
            if negb (truthy connected')
            then modify (fun s => set_timers (S (timers s)) s)
            else reenter ;; modify (set_tryingReconnect false))
      | _ => ret tt
      end
  end.

(** [Observable.throw("SignalR disconnected")] inside the [flatMap] of
    [invoke].  [Observable] comes from ["rxjs"], which has the creation
    function [throwError] (used by the other branch of [invoke]) and
    declares a static [throw] without ever defining it: the call is a call
    of [undefined].  [flatMap] passes what its function throws on to the
    subscriber as an error. *)
Definition Observable_throw : exn := TypeError "Observable.throw is not a function".

(** One observer of the gate receives [connected']: a plain subscriber
    of the gate sees the value; the [flatMap] of [invoke] turns it into
    an error or into the call on the transport. *)
Definition deliver_gate (connected' : bool) (x : rx_subscription) : M unit :=
  match x with
  | Sub (OGate _) k => observe k (Next (JBool connected'))
  | Sub (OGatedCall g h method args) k =>
      if negb connected' then
        remove_subscription x ;;
        observe k (Error (exn_value Observable_throw))
      else
        p <- transport_promise (fun p => WInvoke p h method args) ;;
        add_subscription (SubInner p (OGatedCall g h method args) k)
  | Sub (OGatedNoProxy g) k =>
      remove_subscription x ;;
      observe k (Error (exn_value
        (if negb connected' then Observable_throw else cannot_read "invoke")))
  | _ => ret tt
  end.

Definition on_gate (g : nat) (x : rx_subscription) : bool :=
  match x with
  | Sub (OGate g') _ => bool_decide (g' = g)
  | Sub (OGatedCall g' _ _ _) _ => bool_decide (g' = g)
  | Sub (OGatedNoProxy g') _ => bool_decide (g' = g)
  | _ => false
  end.

(** [subject.next(connected')]: the observers present when the call
    starts are served in subscription order. *)
Definition subject_next (g : nat) (connected' : bool) : M unit :=
  observers <- gets (fun s => filter (fun x => on_gate g x = true) (subscribers s)) ;;
  for_each (fun x => isolated (deliver_gate connected' x)) observers.

Definition reconnectedCallback_body : M unit :=
  c <- gets connected ;;
  emit (NReconnected c) ;;
  c <- gets connected ;;
  emit (NConnected c) ;;
  gate <- gets reconnectingObservable ;;
  match gate with
  | None => throw (TypeError "Cannot read properties of null (reading 'next')")
  | Some g =>
      c <- gets connected ;;
      subject_next g c ;;
      modify (set_reconnectingObservable None)
  end.

End Reentrant.

Fixpoint reentrant (depth : nat) : M unit :=
  match depth with
  | O => throw RangeError
  | S d => reconnectedCallback_body (reentrant d)
  end.

Definition reconnectedCallback : M unit :=
  reconnectedCallback_body (reentrant stack_limit).

Definition notify : observer -> obs_event -> M unit := observe reconnectedCallback.

(** The promise under subscription [x] settles with [out]: the pipeline
    built by [_connect], [disconnect] or [invoke] runs for that subscriber. *)
Definition settle_subscription (out : outcome) (x : rx_subscription) : M unit :=
  match x with
  | Sub (OStart _) k =>
      match out with
      | Resolved _ =>
          c <- gets connected ;;                 (* map(value => this.connected) *)
          connectedCallback ;;                   (* tap(this.connectedCallback) *)
          notify k (Next (JBool c)) ;;
          notify k Complete
      | Rejected _ =>
          b <- connectionErrorCallback ;;        (* catchError(..) *)
          notify k (Next (JBool b)) ;;
          notify k Complete
      end
  | Sub (OStop _) k =>
      match out with
      | Resolved _ =>
          c <- gets connected ;;
          notify k (Next (JBool c)) ;;
          notify k Complete
      | Rejected e => notify k (Error e)
      end
  | Sub (ODirectCall _ hn method args) k =>
      match out with
      | Resolved v => notify k (Next v) ;; notify k Complete
      | Rejected err =>
          gate <- gets reconnectingObservable ;;
          match gate with
          | Some _ =>
              (* return this.invoke<T>(hubName, method, args): the rest
                 parameter of the new call is the one-element list [args] *)
              try_catch
                (o <- invoke hn method [JArr args] ;; add_subscription (Sub o k))
                (fun e => notify k (Error (exn_value e)))
          | None => notify k (Error err)
          end
      end
  | SubInner _ outer k =>
      match out with
      | Resolved v => notify k (Next v)
      | Rejected e => remove_subscription (Sub outer k) ;; notify k (Error e)
      end
  | Sub (OGate _) _ => ret tt
  | Sub (OGatedCall _ _ _ _) _ => ret tt
  | Sub (OGatedNoProxy _) _ => ret tt
  end.

Definition on_promise (p : nat) (x : rx_subscription) : bool :=
  match x with
  | Sub (OStart q) _ => bool_decide (q = p)
  | Sub (OStop q) _ => bool_decide (q = p)
  | Sub (ODirectCall q _ _ _) _ => bool_decide (q = p)
  | SubInner q _ _ => bool_decide (q = p)
  | _ => false
  end.

(** The transport settles promise [p]; a promise settles once. *)
Definition settle (p : nat) (out : outcome) : M unit :=
  st <- gets (fun s => promises s !! p) ;;
  match st with
  | Some Pending =>
      modify (fun s => set_promises (<[p := Settled out]> (promises s)) s) ;;
      reactions <- gets (fun s => filter (fun x => on_promise p x = true) (subscribers s)) ;;
      modify (fun s =>
        set_subscribers (filter (fun x => on_promise p x = false) (subscribers s)) s) ;;
      for_each (fun x => isolated (settle_subscription out x)) reactions
  | _ => ret tt
  end.

Definition promise_of (o : Observable) : option nat :=
  match o with
  | OStart p => Some p
  | OStop p => Some p
  | ODirectCall p _ _ _ => Some p
  | _ => None
  end.

(** [o.subscribe(k)].  On a promise that has settled already the pipeline
    runs for the new subscriber (the model does so at once). *)
Definition subscribe (o : Observable) (k : observer) : M unit :=
  st <- gets (fun s => match promise_of o with
                       | Some p => promises s !! p
                       | None => None
                       end) ;;
  match st with
  | Some (Settled out) => isolated (settle_subscription out (Sub o k))
  | _ => add_subscription (Sub o k)
  end.

(** *** Reconnecting *)

Definition tryReconnect : M unit :=
  modify (set_tryingReconnect true) ;;
  new_gate ;;
  o <- the_options "attemptReconnects" ;;
  obs <- _connect (default false (HubServiceOptions.attemptReconnects o)) ;;
  subscribe obs Reconnector.

Definition disconnectedCallback : M unit :=
  t <- gets tryingReconnect ;;
  if t then ret tt
  else
    c <- gets connected ;;
    emit (NDisconnected c) ;;
    o <- the_options "attemptReconnects" ;;
    if default false (HubServiceOptions.attemptReconnects o)
    then tryReconnect
    else ret tt.

(** ** Inbound events *)

(** A request of the application, in a listener or outside. *)
Definition serve (r : request) : M unit :=
  match r with
  | CallConnect o k => obs <- connect o ;; subscribe obs (Caller k)
  | CallDisconnect k => obs <- disconnect ;; subscribe obs (Caller k)
  | CallInvoke hn method args k => obs <- invoke hn method args ;; subscribe obs (Caller k)
  | CallRegister i => _ <- register i ;; ret tt
  | CallUnregister i => unregister i
  end.

Definition run_statement (st : statement) : M unit :=
  match st with
  | Bare r => serve r
  | Guarded r => isolated (serve r)
  end.

(** [func.callback.apply(func.thisObj, args)] *)
Definition call_listener (func : eventType) (args : list jsval) : M unit :=
  log (Called (thisObj func) (callback_of func) args) ;;
  let b := apply_callback (callback_of func) (thisObj func) args in
  for_each run_statement (statements b) ;;
  match thrown b with
  | Some v => throw (Thrown v)
  | None => ret tt
  end.

(** [console.error(`Hub callback error on hub ${hub} subscription
    ${subscription.eventName}. Error: ${err}`)]: the template converts
    [err] to a string. *)
Definition report (hub' event : string) (err : jsval) : M unit :=
  if stringable err then log (Console (CErrorCallback hub' event err))
  else throw (TypeError "Cannot convert a Symbol value to a string").

(** [for (let func of events) { try { .. } catch (err) { .. } }] from
    position [i] on.  The iterator of an array looks at the array as it is
    when the next element is asked for, and the listeners called meanwhile
    may have changed it through [register] and [unregister]; the array is
    found again under its hub and event, where it stays from
    [initConnection] on. *)
Fixpoint dispatch (fuel : nat) (hub' : string) (subscription : subscription)
    (args : list jsval) (i : nat) {struct fuel} : M unit :=
  evs <- gets (fun s => listeners s hub' (eventName subscription)) ;;
  match evs !! i with
  | None => ret tt
  | Some func =>
      match fuel with
      | O => throw Hang
      | S fuel' =>
          try_catch (call_listener func args)
            (fun err => report hub' (eventName subscription) (exn_value err)) ;;
          dispatch fuel' hub' subscription args (S i)
      end
  end.

(** Called by the transport for an inbound event of hub [hub']. *)
Definition hubMessageReceived (hub' : string) (subscription : subscription)
    (args : list jsval) : M unit :=
  proxies <- gets hubProxies ;;
  match proxies with
  | None =>
      throw (TypeError ("Cannot use 'in' operator to search for '" ++ hub' ++
                        "' in undefined"))
  | Some proxies =>
      match proxies !! hub' with
      | None =>
          if foreign_hub proxies hub' then throw (cannot_read (eventName subscription))
          else ret tt
      | Some w =>
          match events w !! eventName subscription with
          | None => throw (TypeError "events is not iterable")
          | Some _ => dispatch loop_limit hub' subscription args 0
          end
      end
  end.

(** ** The environment *)

(** The life-cycle callbacks exist once [initConnection] has wired them. *)
Definition hook (m : M unit) : M unit :=
  h <- gets hooked ;; if h then m else ret tt.

Definition fire (e : event) : M unit :=
  match e with
  | StateChanged st =>
      modify (fun s =>
        set_connection
          (match _connection s with
           | Some c => Some {| conn_url := conn_url c; conn_qs := conn_qs c;
                               conn_state := st |}
           | None => None
           end) s)
  | Settle p out => settle p out
  | Disconnected => hook disconnectedCallback
  | Reconnecting => hook recconectingCallback
  | Reconnected => hook reconnectedCallback
  | DelayElapsed =>
      t <- gets timers ;;
      match t with
      | O => ret tt
      | S n => modify (set_timers n) ;; isolated tryReconnect
      end
  | Message hub' s args => hubMessageReceived hub' s args
  end.

Definition perform (c : command) : M unit :=
  match c with
  | Do r => serve r
  | Env e => fire e
  end.

(** A script is run step by step; an exception ends the step that threw
    it, not the script. *)
Definition run (cs : list command) (s : HubService) : HubService :=
  fold_left (fun s c => exec (perform c) s) cs s.

(** Projections of the trace. *)
Definition wire (s : HubService) : list wire_call :=
  omap (fun e => match e with Wire w => Some w | _ => None end) (trace s).
Definition emitted (s : HubService) : list notification :=
  omap (fun e => match e with Emit n => Some n | _ => None end) (trace s).
Definition delivered (k : nat) (s : HubService) : list obs_event :=
  omap (fun e => match e with
                 | Deliver k' ev => if decide (k' = k) then Some ev else None
                 | _ => None
                 end) (trace s).
Definition called (s : HubService) : list (inst * callback * list jsval) :=
  omap (fun e => match e with Called i f args => Some (i, f, args) | _ => None end)
    (trace s).

End HubService.

(** ** Reasoning about operations *)

(** [m] keeps [P], whether it returns or throws. *)
Definition preserves {A} (P : HubService -> Prop) (m : M A) : Prop :=
  forall s, P s -> P (snd (m s)).

(** [m] returns; it does not throw. *)
Definition returns {A} (m : M A) : Prop :=
  forall s, exists a, fst (m s) = inr a.

(** The part of the trace written between [s] and [s']. *)
Definition since (s s' : HubService) : list effect :=
  drop (length (trace s)) (trace s').

(** Emitter notifications, told apart by the emitter that sent them. *)
Definition is_connected_note (e : effect) : bool :=
  match e with Emit (NConnected _) => true | _ => false end.
Definition is_reconnected_note (e : effect) : bool :=
  match e with Emit (NReconnected _) => true | _ => false end.

(** How many [onConnected] and [onReconnected] notifications a piece of
    trace holds. *)
Definition count_connected (l : list effect) : nat :=
  length (filter (fun e => is_connected_note e = true) l).
Definition count_reconnected (l : list effect) : nat :=
  length (filter (fun e => is_reconnected_note e = true) l).

(** Every listener sits under an event of the hub that the metadata of its
    instance declares: the state [register] leaves behind. *)
Definition owned (getMetadata : inst -> option HubProperties) (s : HubService) : Prop :=
  forall hub' event l, l ∈ listeners s hub' event ->
    exists props, getMetadata (thisObj l) = Some props /\ hubName props = hub' /\
                  event ∈ map eventName (subscriptions props).

(** A listener whose function asks nothing of the service and throws, if
    it throws, a value that converts to a string. *)
Definition quiet (b : behaviour) : Prop :=
  statements b = [] /\ forall err, thrown b = Some err -> stringable err = true.

(** What one inbound event writes to the trace when its listeners are
    quiet: each listener is called, and a listener that throws is reported
    on the console. *)
Definition dispatch_trace (apply_callback : callback -> inst -> list jsval -> behaviour)
    (hub' event : string) (args : list jsval) (evs : list eventType) : list effect :=
  flat_map (fun func =>
    Called (thisObj func) (callback_of func) args ::
    match thrown (apply_callback (callback_of func) (thisObj func) args) with
    | None => []
    | Some err => [Console (CErrorCallback hub' event err)]
    end) evs.

(** The observers that a request, a statement, a listener subscribe. *)
Definition request_observer (r : request) : option nat :=
  match r with
  | CallConnect _ k => Some k
  | CallDisconnect k => Some k
  | CallInvoke _ _ _ k => Some k
  | _ => None
  end.

Definition statement_request (st : statement) : request :=
  match st with
  | Bare r => r
  | Guarded r => r
  end.

(** No listener subscribes observer [c] to anything. *)
Definition unused_by_listeners
    (apply_callback : callback -> inst -> list jsval -> behaviour) (c : nat) : Prop :=
  forall f i args st,
    st ∈ statements (apply_callback f i args) ->
    request_observer (statement_request st) <> Some c.

(** The trace of [s] continues the trace of [s0]. *)
Definition extends (s0 s : HubService) : Prop :=
  exists l, trace s = trace s0 ++ l.

(** Effect [e] was written after [s0]. *)
Definition recorded (s0 : HubService) (e : effect) (s : HubService) : Prop :=
  exists l, trace s = trace s0 ++ l /\ e ∈ l.

(** [P] looks at the trace only, and more trace does not break it. *)
Definition trace_monotone (P : HubService -> Prop) : Prop :=
  forall s s', P s -> (exists l, trace s' = trace s ++ l) -> P s'.

(** The two notifications [reconnectedCallback] starts with. *)
Definition announce (s : HubService) : HubService :=
  set_trace (trace s ++ [Emit (NReconnected (connected s)); Emit (NConnected (connected s))]) s.

(** After [s0] call [w] went on the wire under promise [p]; the promise is
    pending and subscription [x] waits for it. *)
Definition in_flight (s0 : HubService) (p : nat) (w : wire_call) (x : rx_subscription)
    (s : HubService) : Prop :=
  recorded s0 (Wire w) s /\ promises s !! p = Some Pending /\ x ∈ subscribers s /\
  p < fresh s.

(** What the subscriber of a call sees when the promise of the transport
    settles. *)
Definition outcome_event (out : outcome) : obs_event :=
  match out with
  | Resolved v => Next v
  | Rejected e => Error e
  end.



(** The observable [m] returns, if it wraps a promise, wraps one that the
    transport has handed out and that is pending when [m] returns. *)
Definition fresh_observable (m : M Observable) : Prop :=
  forall s obs s1, m s = (inr obs, s1) ->
    match promise_of obs with
    | Some p => promises s1 !! p = Some Pending /\ p < fresh s1
    | None => True
    end.

(** At least [n] [onReconnected] notifications were sent, and either a gate
    is open or more than [n] were sent. *)
Definition gate_open_or_reconnected (n : nat) (s : HubService) : Prop :=
  n <= count_reconnected (trace s) /\
  (reconnectingObservable s <> None \/ n < count_reconnected (trace s)).

(** The observer of a subscription. *)
Definition observer_of (x : rx_subscription) : observer :=
  match x with
  | Sub _ k => k
  | SubInner _ _ k => k
  end.

(** The observer that a command of the application subscribes, if any. *)
Definition command_observer (cmd : command) : option nat :=
  match cmd with
  | Do r => request_observer r
  | Env _ => None
  end.

(** Subscription [x] of observer [c] waits on gate [g], which was handed
    out earlier and is not the gate the service holds; [c] has no other
    subscription and has received [d] so far. *)
Definition orphaned (g : nat) (x : rx_subscription) (c : nat)
    (d : list obs_event) (s : HubService) : Prop :=
  x ∈ subscribers s /\
  g < fresh s /\
  reconnectingObservable s <> Some g /\
  (forall y, y ∈ subscribers s -> observer_of y = Caller c -> y = x) /\
  delivered c s = d.


(** [unregister] gets past each event of [subs] for which wrapper [w] has
    no list: what [events] answers there is [undefined], or a member of
    [Object.prototype] whose [length] is 0 or missing. *)
Definition passable (w : hubProxyWrapper) (subs : list subscription) : Prop :=
  forall sub n, sub ∈ subs -> events w !! eventName sub = None ->
    inherited (eventName sub) <> Some (Some (S n)).

(** ** Further notions used to state what the operations do *)

(** [this.options] once [matchesGroup] has forced its [hubGroups] into an
    array. *)
Definition with_group_array (o : HubServiceOptions.t) : HubServiceOptions.t :=
  {| HubServiceOptions.url := HubServiceOptions.url o;
     HubServiceOptions.attemptReconnects := HubServiceOptions.attemptReconnects o;
     HubServiceOptions.qs := HubServiceOptions.qs o;
     HubServiceOptions.hubGroups := GMany (force_array (HubServiceOptions.hubGroups o)) |}.

(** Listener [l] sits under event [event] of hub [hub'] as its instance
    declared it: the metadata of the instance names that hub and holds a
    subscription to that event, and the listener calls the method that the
    subscription names. *)
Definition declared_listener (getMetadata : inst -> option HubProperties)
    (method_of : inst -> string -> option callback) (hub' event : string)
    (l : eventType) : Prop :=
  exists props sub,
    getMetadata (thisObj l) = Some props /\ hubName props = hub' /\
    sub ∈ subscriptions props /\ eventName sub = event /\
    method_of (thisObj l) (functionName sub) = Some (callback_of l).

Definition bound_as_declared (getMetadata : inst -> option HubProperties)
    (method_of : inst -> string -> option callback) (s : HubService) : Prop :=
  forall hub' event l, l ∈ listeners s hub' event ->
    declared_listener getMetadata method_of hub' event l.

(** The listeners that [register] makes for event [event] of an instance:
    one for each declared subscription to that event whose method exists,
    in the order of the declarations. *)
Definition new_listeners (method_of : inst -> string -> option callback)
    (instance : inst) (subs : list subscription) (event : string) : list eventType :=
  omap (fun sub =>
    if decide (eventName sub = event) then
      match method_of instance (functionName sub) with
      | Some f => Some {| thisObj := instance; callback_of := f |}
      | None => None
      end
    else None) subs.

(** What [register] throws at a subscription whose event has no list of
    listeners in the proxy: [hubProxy.events[subscription.eventName]] is the
    member of [Object.prototype] of that name, which has no [push], or is
    undefined. *)
Definition no_list_error (event : string) : exn :=
  match inherited event with
  | Some _ => TypeError "hubProxy.events[subscription.eventName].push is not a function"
  | None => cannot_read "push"
  end.

(** The warnings of [register]: one for each declared subscription whose
    method the instance lacks. *)
Definition missing_methods (method_of : inst -> string -> option callback)
    (instance : inst) (subs : list subscription) : list effect :=
  omap (fun sub =>
    match method_of instance (functionName sub) with
    | Some _ => None
    | None => Some (Console (CWarnNoMethod instance sub))
    end) subs.

(** The calls that set a connection up: [createHubProxy] and [on]. *)
Definition is_setup (e : effect) : bool :=
  match e with
  | Wire (WCreateHubProxy _) => true
  | Wire (WOn _ _) => true
  | _ => false
  end.

(** The connection of [s] is the one of [s0] but for its state, and the
    trace of [s] continues the one of [s0] without a call that sets a
    connection up. *)
Definition same_connection (s0 s : HubService) : Prop :=
  (exists c0 c, _connection s0 = Some c0 /\ _connection s = Some c /\
                conn_url c = conn_url c0 /\ conn_qs c = conn_qs c0)
  /\ exists l, trace s = trace s0 ++ l /\ Forall (fun e => is_setup e = false) l.

(** Two tables of proxies hold the same hubs under the same names, each
    with lists of listeners for the same events. *)
Definition same_hubs (a b : gmap string hubProxyWrapper) : Prop :=
  forall hn,
    match a !! hn, b !! hn with
    | Some w, Some w' =>
        hubProxy w = hubProxy w' /\
        forall e, is_Some (events w !! e) <-> is_Some (events w' !! e)
    | None, None => True
    | _, _ => False
    end.

(** [s] has a connection, and its proxies are those of [proxies] but for
    the listeners. *)
Definition hubs_fixed (proxies : gmap string hubProxyWrapper) (s : HubService) : Prop :=
  _connection s <> None /\
  exists proxies', hubProxies s = Some proxies' /\ same_hubs proxies proxies'.

(** ** The decorators *)

(** [Hub] and [HubSubscription] run when the classes are defined.  They
    work on [HubProperties] objects that are shared: the object stored as
    the metadata of a class may also sit in the global table
    [allHubProperties], so objects live in a heap and are named by
    reference. *)
Module Decorators.

(** A target is a prototype, told apart by identity. *)
Definition target : Type := nat.
Definition ref : Type := nat.

(** A [HubProperties] object while the decorators run: [hubName] is a
    string or null, [subscriptions] may be missing. *)
Record object : Type := {
  o_hubName : option string;
  o_hubGroups : groups;
  o_subscriptions : option (list subscription)
}.

Record world : Type := {
  heap : gmap ref object;
  next : ref;                    (* the next unused reference *)
  metadata : gmap target ref;    (* the own ["Hub"] metadata of each target *)
  table : list ref               (* [allHubProperties] *)
}.

(** Before any class is defined. *)
Definition unloaded : world := {| heap := ∅; next := 0; metadata := ∅; table := [] |}.

Definition blank : object :=
  {| o_hubName := None; o_hubGroups := GNull; o_subscriptions := None |}.

Definition obj (w : world) (r : ref) : object := default blank (heap w !! r).

Definition update (r : ref) (f : object -> object) (w : world) : world :=
  {| heap := <[r := f (obj w r)]> (heap w); next := next w;
     metadata := metadata w; table := table w |}.

(** An object literal is evaluated. *)
Definition alloc (o : object) (w : world) : ref * world :=
  (next w, {| heap := <[next w := o]> (heap w); next := S (next w);
              metadata := metadata w; table := table w |}).

Definition defineMetadata (t : target) (r : ref) (w : world) : world :=
  {| heap := heap w; next := next w; metadata := <[t := r]> (metadata w);
     table := table w |}.

Definition set_hubName (x : option string) (o : object) : object :=
  {| o_hubName := x; o_hubGroups := o_hubGroups o;
     o_subscriptions := o_subscriptions o |}.
Definition set_hubGroups (x : groups) (o : object) : object :=
  {| o_hubName := o_hubName o; o_hubGroups := x;
     o_subscriptions := o_subscriptions o |}.
Definition set_subscriptions (x : list subscription) (o : object) : object :=
  {| o_hubName := o_hubName o; o_hubGroups := o_hubGroups o;
     o_subscriptions := Some x |}.

(** [!x] for a string or null, and for [string | string[] | undefined]. *)
Definition falsy_string (x : option string) : bool :=
  match x with
  | None => true
  | Some s => String.eqb s ""
  end.
Definition falsy_groups (g : groups) : bool :=
  match g with
  | GNull => true
  | GOne s => String.eqb s ""
  | GMany _ => false
  end.

Section Prototypes.

(** The prototype chain above each target, nearest first:
    [Reflect.getMetadata] looks a key up on the target and then along that
    chain. *)
Variable ancestors : target -> list target.

Definition getMetadata (w : world) (t : target) : option ref :=
  head (omap (fun t' => metadata w !! t') (t :: ancestors t)).

Definition getOrCreateHubProperties (t : target) (hubProperties : ref) (w : world)
  : ref * world :=
  let '(properties, w) :=
    match getMetadata w t with
    | Some r => (r, w)
    | None => (hubProperties, defineMetadata t hubProperties w)
    end in
  let w :=
    match o_subscriptions (obj w properties) with
    | None => update properties (set_subscriptions []) w
    | Some _ => w
    end in
  let w :=
    if falsy_string (o_hubName (obj w properties))
    then update properties (set_hubName (o_hubName (obj w hubProperties))) w
    else w in
  let w :=
    if falsy_groups (o_hubGroups (obj w properties))
    then update properties (set_hubGroups (o_hubGroups (obj w hubProperties))) w
    else w in
  (properties, w).

(** The second half of the body of the [Hub] decorator: the properties go
    into the table, or their subscriptions go to the object of the table
    that has their name. *)
Definition push_or_merge (hubProperties : ref) (w : world) : exn + world :=
  match find (fun props =>
                bool_decide (o_hubName (obj w props) = o_hubName (obj w hubProperties)))
             (table w) with
  | Some existing =>
      match o_subscriptions (obj w existing), o_subscriptions (obj w hubProperties) with
      | Some theirs, Some ours =>
          inr (update existing (set_subscriptions (theirs ++ ours)) w)
      | None, _ => inl (TypeError "Cannot read properties of undefined (reading 'push')")
      | _, None => inl (TypeError "hubProperties.subscriptions is not iterable")
      end
  | None =>
      inr {| heap := heap w; next := next w; metadata := metadata w;
             table := table w ++ [hubProperties] |}
  end.

(** [Hub(hubProperties)(target)], where [t] is [target.prototype]. *)
Definition Hub (hubProperties : object) (t : target) (w : world) : exn + world :=
  let '(arg, w) := alloc hubProperties w in
  let '(hubProperties, w) := getOrCreateHubProperties t arg w in
  push_or_merge hubProperties w.

(** [HubSubscription(eventName)(target, propertyKey, descriptor)] *)
Definition HubSubscription (eventName : option string) (t : target) (propertyKey : string)
    (w : world) : exn + world :=
  let eventName :=
    if falsy_string eventName then propertyKey else default propertyKey eventName in
  let '(arg, w) := alloc blank w in
  let '(hubProperties, w) := getOrCreateHubProperties t arg w in
  match o_subscriptions (obj w hubProperties) with
  | Some subs =>
      inr (update hubProperties
             (set_subscriptions
                (subs ++ [{| eventName := eventName; functionName := propertyKey |}])) w)
  | None => inl (TypeError "Cannot read properties of undefined (reading 'push')")
  end.

(** The decorators of a program, in the order in which they run. *)
Inductive decoration : Type :=
| DHub (hubProperties : object) (t : target)
| DHubSubscription (eventName : option string) (t : target) (propertyKey : string).

Definition decorate (d : decoration) (w : world) : exn + world :=
  match d with
  | DHub p t => Hub p t w
  | DHubSubscription e t key => HubSubscription e t key w
  end.

(** An exception ends the loading of the program. *)
Fixpoint decorate_all (ds : list decoration) (w : world) : exn + world :=
  match ds with
  | [] => inr w
  | d :: ds' =>
      match decorate d w with
      | inl e => inl e
      | inr w' => decorate_all ds' w'
      end
  end.

End Prototypes.

(** What [HubService] reads of an object of the table. *)
Definition properties_of (w : world) (r : ref) : HubProperties :=
  {| hubName := default "" (o_hubName (obj w r));
     hubGroups := o_hubGroups (obj w r);
     subscriptions := default [] (o_subscriptions (obj w r)) |}.

Definition allHubProperties (w : world) : list HubProperties :=
  map (properties_of w) (table w).

(** Every object that is the metadata of a target was allocated and has its
    array of subscriptions; every object of the table is such an object and
    has a name; no two objects of the table have the same name. *)
Definition well_formed (w : world) : Prop :=
  (forall t r, metadata w !! t = Some r ->
     r < next w /\ is_Some (o_subscriptions (obj w r)))
  /\ (forall r, r ∈ table w ->
        (exists t, metadata w !! t = Some r) /\ falsy_string (o_hubName (obj w r)) = false)
  /\ NoDup (map (fun r => o_hubName (obj w r)) (table w)).

(** The [Hub] decorators of a script are given a name. *)
Definition named (d : decoration) : Prop :=
  match d with
  | DHub p _ => falsy_string (o_hubName p) = false
  | DHubSubscription _ _ _ => True
  end.

(** The subscription that [HubSubscription(eventName)] makes for a method. *)
Definition subscription_for (eventName : option string) (propertyKey : string)
  : subscription :=
  {| eventName := if falsy_string eventName then propertyKey
                  else default propertyKey eventName;
     functionName := propertyKey |}.

End Decorators.

(** ** Inbound events and the lists of listeners *)

(** No connection was built and no event was subscribed to. *)
Definition no_event_subscribed (s : HubService) : Prop :=
  _connection s = None /\ forall h e, Wire (WOn h e) ∉ trace s.

(** The service has its connection, and for each event it subscribed to on
    the transport the proxy of that hub has a list of listeners. *)
Definition subscribed_events_listed (s : HubService) : Prop :=
  _connection s <> None /\
  exists proxies, hubProxies s = Some proxies /\
    forall h e, Wire (WOn h e) ∈ trace s ->
      exists w ls, proxies !! h = Some w /\ events w !! e = Some ls.

Definition dispatch_ready (s : HubService) : Prop :=
  no_event_subscribed s \/ subscribed_events_listed s.

(** ** A sample program: the chat application of the README *)

Definition messageReceived : subscription :=
  {| eventName := "messageReceived"; functionName := "messageReceived" |}.

Definition chatHub : HubProperties :=
  {| hubName := "chatHub"; hubGroups := GNull; subscriptions := [messageReceived] |}.

(** Instances 1 and 2 are services decorated with [Hub({ hubName: "chatHub" })];
    the handler of instance 1 throws. *)
Definition chat_metadata (i : inst) : option HubProperties :=
  if decide (i = 1 \/ i = 2) then Some chatHub else None.

Definition chat_method_of (i : inst) (name : string) : option callback :=
  if decide (name = "messageReceived") then Some (10 + i) else None.

Definition chat_apply (f : callback) (i : inst) (args : list jsval) : behaviour :=
  {| statements := []; thrown := if decide (i = 1) then Some (JStr "boom") else None |}.

(** The services have no [toString] of their own. *)
Definition chat_string (i : inst) : string := "[object Object]".

Definition chat_stack : nat := 8.
Definition chat_loop : nat := 16.

Definition chat_perform : command -> M unit :=
  perform [chatHub] chat_metadata chat_method_of chat_string chat_apply chat_stack chat_loop.

Definition chat_run : list command -> HubService -> HubService :=
  run [chatHub] chat_metadata chat_method_of chat_string chat_apply chat_stack chat_loop.

Definition with_reconnects : HubServiceOptions.t :=
  {| HubServiceOptions.url := None; HubServiceOptions.attemptReconnects := Some true;
     HubServiceOptions.qs := None; HubServiceOptions.hubGroups := GNull |}.

(** Both services register, [connect()] is called by observer 0 and the
    transport reports the session established (promise 0). *)
Definition session (o : HubServiceOptions.t) : list command :=
  [ DoRegister 1; DoRegister 2; DoConnect o 0;
    Env (StateChanged connectionState.connected);
    Env (Settle 0 (Resolved JUndefined)) ].

(** The transport then reports an unexpected disconnect. *)
Definition connection_lost : list command :=
  [ Env (StateChanged connectionState.disconnected); Env Disconnected ].

(** A reconnect attempt fails: its [start()] promise rejects and the delay
    elapses. *)
Definition attempt_fails (p : nat) : list command :=
  [ Env (Settle p (Rejected (JStr "Error during negotiation request."))); Env DelayElapsed ].

(** A reconnect attempt succeeds. *)
Definition attempt_succeeds (p : nat) : list command :=
  [ Env (StateChanged connectionState.connected); Env (Settle p (Resolved JUndefined)) ].

(** A connected session without and with [attemptReconnects]. *)
Definition connected_plain : HubService := chat_run (session HubServiceOptions.empty) initial.
Definition connected_retrying : HubService := chat_run (session with_reconnects) initial.

(** The connection is lost with [attemptReconnects] set: the first
    reconnect attempt is under way (gate 1, [start()] promise 2). *)
Definition reconnecting_1 : HubService := chat_run connection_lost connected_retrying.

(** Observer 7 calls [sendMessage("a", "b")] during the first attempt. *)
Definition call_during_attempt_1 : HubService :=
  chat_run [DoInvoke "chatHub" "sendMessage" [JStr "a"; JStr "b"] 7] reconnecting_1.

(** Attempts 1 to 3 fail; attempt 4 is under way (gate 7, promise 8). *)
Definition reconnecting_4 : HubService :=
  chat_run (attempt_fails 2 ++ attempt_fails 4 ++ attempt_fails 6) call_during_attempt_1.

(** The transport reports the session of attempt 4 established. *)
Definition attempt_4_connected : HubService :=
  chat_run [Env (StateChanged connectionState.connected)] reconnecting_4.

(** The [start()] promise of attempt 4 resolves: the reconnect succeeds. *)
Definition reconnected : HubService :=
  chat_run [Env (Settle 8 (Resolved JUndefined))] attempt_4_connected.

(** The connection is lost without [attemptReconnects] (the default). *)
Definition lost_plain : HubService := chat_run connection_lost connected_plain.

(** Observer 7 calls [sendMessage("a", "b")] on the connected session; the
    call is on the wire under promise 1. *)
Definition call_in_flight : HubService :=
  chat_run [DoInvoke "chatHub" "sendMessage" [JStr "a"; JStr "b"] 7] connected_retrying.

(** The connection is lost while the call is in flight (gate 2, [start()]
    promise 3). *)
Definition lost_in_flight : HubService := chat_run connection_lost call_in_flight.

Definition disconnected_error : jsval :=
  JStr "Connection was disconnected before invocation result was received.".

(** The transport then rejects the call. *)
Definition call_rejected : HubService :=
  chat_run [Env (Settle 1 (Rejected disconnected_error))] lost_in_flight.

(** The first reconnect attempt succeeds. *)
Definition call_retried : HubService := chat_run (attempt_succeeds 3) call_rejected.

(** ** More of the sample program *)

(** A service told to connect to the hubs of group ["eu"]. *)
Definition grouped : HubService :=
  set_options (Some {| HubServiceOptions.url := None;
                       HubServiceOptions.attemptReconnects := None;
                       HubServiceOptions.qs := None;
                       HubServiceOptions.hubGroups := GOne "eu" |}) initial.

(** Instance 2 registers, then [connect()] is called: the connection and
    the proxies exist, [start()] is pending. *)
Definition connecting : HubService :=
  chat_run [DoRegister 2; DoConnect HubServiceOptions.empty 0] initial.

(** The proxies of the connected session. *)
Definition chat_proxies : gmap string hubProxyWrapper :=
  default ∅ (hubProxies connected_plain).

(** Options that name another server. *)
Definition elsewhere : HubServiceOptions.t :=
  {| HubServiceOptions.url := Some "https://example.org/signalr";
     HubServiceOptions.attemptReconnects := None;
     HubServiceOptions.qs := Some "token=1"; HubServiceOptions.hubGroups := GNull |}.

(** The decorators of the sample: [ChatService] (prototype 0) has
    [@HubSubscription()] on [messageReceived] and [@Hub({ hubName: "chatHub" })];
    a second class (prototype 1) on the same hub subscribes its method
    [onTyping] to the event [typing]. *)
Definition no_ancestors : Decorators.target -> list Decorators.target := fun _ => [].

Definition chat_decorations : list Decorators.decoration :=
  [ Decorators.DHubSubscription None 0 "messageReceived";
    Decorators.DHub {| Decorators.o_hubName := Some "chatHub";
                       Decorators.o_hubGroups := GNull;
                       Decorators.o_subscriptions := None |} 0 ].

Definition chat_world : Decorators.world :=
  match Decorators.decorate_all no_ancestors chat_decorations Decorators.unloaded with
  | inr w => w
  | inl _ => Decorators.unloaded
  end.

Definition typing_methods : list (option string * string) := [(Some "typing", "onTyping")].

Definition typing_hub : Decorators.object :=
  {| Decorators.o_hubName := Some "chatHub"; Decorators.o_hubGroups := GNull;
     Decorators.o_subscriptions := Some [messageReceived] |}.

(** A class decorated for a hub the server does not have: instance 7 is
    one of its objects. *)
Definition newsHub : HubProperties :=
  {| hubName := "newsHub"; hubGroups := GNull;
     subscriptions := [{| eventName := "headline"; functionName := "onHeadline" |}] |}.

Definition news_metadata : inst -> option HubProperties :=
  fun i => if decide (i = 7) then Some newsHub else chat_metadata i.

(** Instance 1 registers before [connect()] is called. *)
Definition registered_early : HubService := chat_run [DoRegister 1] initial.

(** The README's [hubWrapper.unregister()], called from a listener: the
    listener of instance 1 unregisters its instance and then throws;
    instance 2 has an ordinary listener. *)
Definition leaving_apply (f : callback) (i : inst) (args : list jsval) : behaviour :=
  if decide (i = 1) then
    {| statements := [Bare (CallUnregister 1)]; thrown := Some (JStr "boom") |}
  else {| statements := []; thrown := None |}.

Definition leaving_run : list command -> HubService -> HubService :=
  run [chatHub] chat_metadata chat_method_of chat_string leaving_apply chat_stack chat_loop.

(** The listener of instance 1 throws a value that has no string form. *)
Definition symbol_apply (f : callback) (i : inst) (args : list jsval) : behaviour :=
  {| statements := [];
     thrown := if decide (i = 1) then Some (JSymbol "boom") else None |}.

Definition symbol_perform : command -> M unit :=
  perform [chatHub] chat_metadata chat_method_of chat_string symbol_apply chat_stack
    chat_loop.

(** An inbound [messageReceived("alice", "hi")] on the chat hub. *)
Definition message_in : command :=
  Env (Message "chatHub" messageReceived [JStr "alice"; JStr "hi"]).

(** A class decorated for a hub named like a member of [Object.prototype]:
    instance 8 is one of its objects. *)
Definition toStringHub : HubProperties :=
  {| hubName := "toString"; hubGroups := GNull;
     subscriptions := [{| eventName := "headline"; functionName := "onHeadline" |}] |}.

(** * Properties *)

Section Properties.

Variable allHubProperties : list HubProperties.
Variable getMetadata : inst -> option HubProperties.
Variable method_of : inst -> string -> option callback.
Variable instance_string : inst -> string.
Variable apply_callback : callback -> inst -> list jsval -> behaviour.
Variable stack_limit : nat.
Variable loop_limit : nat.

Local Abbreviation register := (register getMetadata method_of instance_string).
Local Abbreviation unregister := (unregister getMetadata instance_string).
Local Abbreviation initConnection :=
  (initConnection allHubProperties getMetadata method_of instance_string).
Local Abbreviation _connect :=
  (_connect allHubProperties getMetadata method_of instance_string).
Local Abbreviation connect :=
  (connect allHubProperties getMetadata method_of instance_string).
Local Abbreviation reconnectedCallback := (reconnectedCallback stack_limit).
Local Abbreviation notify := (notify stack_limit).
Local Abbreviation settle_subscription := (settle_subscription stack_limit).
Local Abbreviation settle := (settle stack_limit).
Local Abbreviation subscribe := (subscribe stack_limit).
Local Abbreviation tryReconnect :=
  (tryReconnect allHubProperties getMetadata method_of instance_string stack_limit).
Local Abbreviation disconnectedCallback :=
  (disconnectedCallback allHubProperties getMetadata method_of instance_string stack_limit).
Local Abbreviation serve :=
  (serve allHubProperties getMetadata method_of instance_string stack_limit).
Local Abbreviation run_statement :=
  (run_statement allHubProperties getMetadata method_of instance_string stack_limit).
Local Abbreviation call_listener :=
  (call_listener allHubProperties getMetadata method_of instance_string apply_callback
     stack_limit).
Local Abbreviation dispatch :=
  (dispatch allHubProperties getMetadata method_of instance_string apply_callback
     stack_limit).
Local Abbreviation hubMessageReceived :=
  (hubMessageReceived allHubProperties getMetadata method_of instance_string
     apply_callback stack_limit loop_limit).
Local Abbreviation fire :=
  (fire allHubProperties getMetadata method_of instance_string apply_callback stack_limit
     loop_limit).
Local Abbreviation perform :=
  (perform allHubProperties getMetadata method_of instance_string apply_callback
     stack_limit loop_limit).
Local Abbreviation run :=
  (run allHubProperties getMetadata method_of instance_string apply_callback stack_limit
     loop_limit).

(** ** The monad *)

Lemma preserves_ret {A} P (a : A) : preserves P (ret a).
Proof. intros s Hs. exact Hs. Qed.

Lemma preserves_throw {A} P e : preserves P (@throw A e).
Proof. intros s Hs. exact Hs. Qed.

Lemma preserves_gets {A} P (f : HubService -> A) : preserves P (gets f).
Proof. intros s Hs. exact Hs. Qed.

Lemma preserves_modify P f :
  (forall s, P s -> P (f s)) -> preserves P (modify f).
Proof. intros Hf s Hs. apply Hf, Hs. Qed.

Lemma preserves_bind {A B} P (m : M A) (k : A -> M B) :
  preserves P m -> (forall a, preserves P (k a)) -> preserves P (bind m k).
Proof.
  intros Hm Hk s Hs. unfold bind. specialize (Hm s Hs).
  destruct (m s) as [[e|a] s']; simpl in *; [exact Hm|]. apply Hk, Hm.
Qed.

Lemma preserves_try_catch {A} P (m : M A) h :
  preserves P m -> (forall e, preserves P (h e)) -> preserves P (try_catch m h).
Proof.
  intros Hm Hh s Hs. unfold try_catch. specialize (Hm s Hs).
  destruct (m s) as [[e|a] s']; simpl in *; [|exact Hm]. apply Hh, Hm.
Qed.

Lemma preserves_isolated P m : preserves P m -> preserves P (isolated m).
Proof. intros Hm. apply preserves_try_catch; [exact Hm|]. intros e. apply preserves_ret. Qed.

Lemma preserves_for_each {A} P (f : A -> M unit) l :
  (forall a, preserves P (f a)) -> preserves P (for_each f l).
Proof.
  intros Hf. induction l as [|a l IH]; simpl.
  - apply preserves_ret.
  - apply preserves_bind; [apply Hf|]. intros _. exact IH.
Qed.

Lemma preserves_for_each_in {A} P (f : A -> M unit) l :
  (forall a, a ∈ l -> preserves P (f a)) -> preserves P (for_each f l).
Proof.
  induction l as [|a l IH]; intros Hf; simpl.
  - apply preserves_ret.
  - apply preserves_bind; [apply Hf; left|]. intros _. apply IH.
    intros b Hb. apply Hf. by right.
Qed.

Lemma preserves_foldlM {A B} P (f : B -> A -> M B) l :
  (forall b a, preserves P (f b a)) -> forall b, preserves P (foldlM f b l).
Proof.
  intros Hf. induction l as [|a l IH]; intros b; simpl.
  - apply preserves_ret.
  - apply preserves_bind; [apply Hf|]. intros b'. apply IH.
Qed.

Lemma bind_inr {A B} (m : M A) (k : A -> M B) s a s' :
  m s = (inr a, s') -> bind m k s = k a s'.
Proof. intros H. unfold bind. by rewrite H. Qed.

Lemma bind_inl {A B} (m : M A) (k : A -> M B) s e s' :
  m s = (inl e, s') -> bind m k s = (inl e, s').
Proof. intros H. unfold bind. by rewrite H. Qed.

Lemma bind_gets {A B} (f : HubService -> A) (k : A -> M B) s :
  bind (gets f) k s = k (f s) s.
Proof. reflexivity. Qed.

Lemma bind_modify {B} f (k : unit -> M B) s : bind (modify f) k s = k tt (f s).
Proof. reflexivity. Qed.

Lemma bind_ret {A B} (a : A) (k : A -> M B) s : bind (ret a) k s = k a s.
Proof. reflexivity. Qed.

Lemma bind_throw {A B} e (k : A -> M B) s : bind (throw e) k s = (inl e, s).
Proof. reflexivity. Qed.

Lemma bind_assoc {A B C} (m : M A) (k : A -> M B) (k' : B -> M C) s :
  bind (bind m k) k' s = bind m (fun a => bind (k a) k') s.
Proof. unfold bind. destruct (m s) as [[e|a] s']; reflexivity. Qed.

Lemma bind_transport_promise {B} call (k : nat -> M B) s :
  bind (transport_promise call) k s = k (fresh s) (issue call s).
Proof. unfold transport_promise. by rewrite bind_assoc, bind_gets, bind_assoc, bind_modify. Qed.

Lemma the_hubProxies_run key s proxies :
  hubProxies s = Some proxies -> the_hubProxies key s = (inr proxies, s).
Proof. intros H. unfold the_hubProxies. rewrite bind_gets, H. reflexivity. Qed.

Lemma the_options_run key s o :
  options s = Some o -> the_options key s = (inr o, s).
Proof. intros H. unfold the_options. rewrite bind_gets, H. reflexivity. Qed.

Lemma isolated_returns m s : fst (isolated m s) = inr tt.
Proof.
  unfold isolated, try_catch. destruct (m s) as [[e|[]] s']; reflexivity.
Qed.

(** A loop whose body is isolated runs to its end. *)
Lemma for_each_isolated_returns {A} (f : A -> M unit) l s :
  fst (for_each (fun a => isolated (f a)) l s) = inr tt.
Proof.
  revert s. induction l as [|a l IH]; intros s; simpl; [reflexivity|].
  unfold bind. pose proof (isolated_returns (f a) s) as H.
  destruct (isolated (f a) s) as [[e|[]] s']; simpl in H; [discriminate|]. apply IH.
Qed.

Lemma for_each_app {A} (f : A -> M unit) l1 l2 s :
  fst (for_each f l1 s) = inr tt ->
  for_each f (l1 ++ l2) s = for_each f l2 (snd (for_each f l1 s)).
Proof.
  revert s. induction l1 as [|a l1 IH]; intros s; simpl; [reflexivity|].
  unfold bind. destruct (f a s) as [[e|[]] s']; simpl; [discriminate|]. apply IH.
Qed.

(** Breaks a goal [preserves P m] down along the structure of [m]. *)
Ltac pres_step :=
  lazymatch goal with
  | |- preserves _ (ret _) => apply preserves_ret
  | |- preserves _ (throw _) => apply preserves_throw
  | |- preserves _ (gets _) => apply preserves_gets
  | |- preserves _ (modify _) => apply preserves_modify; intros ? ?
  | |- preserves _ (bind _ _) => apply preserves_bind; [|intros ?]
  | |- preserves _ (try_catch _ _) => apply preserves_try_catch; [|intros ?]
  | |- preserves _ (isolated _) => apply preserves_isolated
  | |- preserves _ (for_each _ _) => apply preserves_for_each; intros ?
  | |- preserves _ (foldlM _ _ _) => apply preserves_foldlM; intros ? ?
  | |- preserves _ (match ?x with _ => _ end) => destruct x
  | |- preserves _ (if ?x then _ else _) => destruct x
  | |- preserves _ (let _ := _ in _) => cbv zeta
  end.
Ltac pres := repeat pres_step.

(** Unfolds the operation at the head of a term, or of the goal. *)
Ltac head_of t := lazymatch t with ?f _ => head_of f | _ => t end.
Tactic Notation "unfold_head" constr(t) := let h := head_of t in unfold h.
Ltac unfold_op :=
  lazymatch goal with
  | |- preserves _ ?m => let h := head_of m in unfold h
  end.
(** A request made at the top of a script. *)
Tactic Notation "unfold_request" constr(r) :=
  let h := head_of (perform (Do r)) in unfold h;
  let h' := head_of (serve r) in unfold h'.

(** ** Invariants kept by every operation *)

(** [P] is kept by the registry operations as soon as the assignments they
    make keep it. *)
Section StableRegistry.

Variable P : HubService -> Prop.

Hypothesis P_wire : forall s w, P s -> P (set_trace (trace s ++ [Wire w]) s).
Hypothesis P_console : forall s m, P s -> P (set_trace (trace s ++ [Console m]) s).
Hypothesis P_options : forall s o, P s -> P (set_options o s).
Hypothesis P_hubProxies : forall s m, P s -> P (set_hubProxies m s).
Hypothesis P_deferred : forall s l, P s -> P (set_deferredRegistrations l s).
Hypothesis P_connection : forall s c, P s -> P (set_connection c s).
Hypothesis P_hooked : forall s b, P s -> P (set_hooked b s).

Ltac stable := pres; eauto.

Lemma registry_the_options key : preserves P (the_options key).
Proof. unfold the_options. stable. Qed.

Lemma registry_the_hubProxies key : preserves P (the_hubProxies key).
Proof. unfold the_hubProxies. stable. Qed.

Hint Resolve registry_the_options registry_the_hubProxies : core.

Lemma registry_matchesGroup g : preserves P (matchesGroup g).
Proof. unfold matchesGroup. stable. Qed.

Lemma registry_createHubProxy properties : preserves P (createHubProxy properties).
Proof. unfold createHubProxy, log. stable. Qed.

Lemma registry_push_listener hn event l : preserves P (push_listener hn event l).
Proof. unfold push_listener. stable. Qed.

Hint Resolve registry_matchesGroup registry_createHubProxy registry_push_listener : core.

Lemma registry_register i : preserves P (register i).
Proof. unfold_op. unfold log. stable. Qed.

Lemma registry_unregister i : preserves P (unregister i).
Proof. unfold_op. unfold unregister_round. stable. Qed.

Hint Resolve registry_register : core.

Lemma registry_initConnection : preserves P initConnection.
Proof. unfold_op. stable. Qed.

End StableRegistry.

(** [P] is kept by an inbound event as soon as the requests of the
    listeners keep it. *)
Section Listeners.

Variable P : HubService -> Prop.

Hypothesis L_statement : forall f i args st,
  st ∈ statements (apply_callback f i args) -> preserves P (run_statement st).
Hypothesis L_called : forall s i f args, P s ->
  P (set_trace (trace s ++ [Called i f args]) s).
Hypothesis L_console : forall s m, P s -> P (set_trace (trace s ++ [Console m]) s).

Lemma listeners_call_listener func args : preserves P (call_listener func args).
Proof.
  unfold_op. unfold log. cbv zeta.
  apply preserves_bind; [pres; eauto|intros _].
  apply preserves_bind; [|intros _; pres].
  apply preserves_for_each_in. intros st Hst. by eapply L_statement.
Qed.

Lemma listeners_report h e err : preserves P (report h e err).
Proof. unfold report, log. pres. eauto. Qed.

Lemma listeners_dispatch fuel h sub args : forall i,
  preserves P (dispatch fuel h sub args i).
Proof.
  induction fuel as [|fuel IH]; intros i; simpl.
  - pres.
  - apply preserves_bind; [pres|intros evs]. destruct (evs !! i); [|pres].
    apply preserves_bind; [|intros _; apply IH].
    apply preserves_try_catch; [apply listeners_call_listener|].
    intros err. apply listeners_report.
Qed.

Lemma listeners_hubMessageReceived h sub args :
  preserves P (hubMessageReceived h sub args).
Proof. pose proof listeners_dispatch. unfold_op. pres; eauto. Qed.

End Listeners.

Lemma listeners_run_statement (P : HubService -> Prop) st :
  (forall r, preserves P (serve r)) -> preserves P (run_statement st).
Proof. intros H. destruct st; simpl; [|apply preserves_isolated]; apply H. Qed.

(** [P] is kept by every operation as soon as the registry operations and
    the assignments made elsewhere keep it. *)
Section Stable.

Variable P : HubService -> Prop.

Hypothesis P_register : forall i, preserves P (register i).
Hypothesis P_unregister : forall i, preserves P (unregister i).
Hypothesis P_called : forall s i f args, P s ->
  P (set_trace (trace s ++ [Called i f args]) s).
Hypothesis P_console : forall s m, P s -> P (set_trace (trace s ++ [Console m]) s).
Hypothesis P_initConnection : preserves P initConnection.
Hypothesis P_emit : forall s n, P s -> P (set_trace (trace s ++ [Emit n]) s).
Hypothesis P_deliver : forall s k ev, P s -> P (set_trace (trace s ++ [Deliver k ev]) s).
Hypothesis P_transport : forall s call, P s -> P (issue call s).
Hypothesis P_new_gate : forall s, P s -> P (open_gate s).
Hypothesis P_gate_closed : forall s, P s -> P (set_reconnectingObservable None s).
Hypothesis P_add : forall s x, P s -> P (set_subscribers (subscribers s ++ [x]) s).
Hypothesis P_remove : forall s o k, P s ->
  P (set_subscribers (filter (fun y => y <> Sub o k) (subscribers s)) s).
Hypothesis P_options : forall s o, P s -> P (set_options o s).
Hypothesis P_connection : forall s c, P s -> P (set_connection c s).
Hypothesis P_errorConnecting : forall s b, P s -> P (set_errorConnecting b s).
Hypothesis P_timers : forall s n, P s -> P (set_timers n s).
Hypothesis P_tryingReconnect : forall s b, P s -> P (set_tryingReconnect b s).
Hypothesis P_settled : forall s p out, P s ->
  P (set_promises (<[p := Settled out]> (promises s)) s).
Hypothesis P_unsubscribe : forall s p, P s ->
  P (set_subscribers (filter (fun x => on_promise p x = false) (subscribers s)) s).

Ltac stable := pres; eauto.

Lemma stable_emit n : preserves P (emit n).
Proof. unfold emit, log. stable. Qed.

Lemma stable_log_deliver k ev : preserves P (log (Deliver k ev)).
Proof. unfold log. stable. Qed.

Lemma stable_transport_promise call : preserves P (transport_promise call).
Proof. unfold transport_promise. stable. Qed.

Lemma stable_new_gate : preserves P new_gate.
Proof. unfold new_gate. stable. Qed.

Lemma stable_add_subscription x : preserves P (add_subscription x).
Proof. unfold add_subscription. stable. Qed.

Lemma stable_remove_subscription o k : preserves P (remove_subscription (Sub o k)).
Proof. unfold remove_subscription. stable. Qed.

Lemma stable_the_options key : preserves P (the_options key).
Proof. unfold the_options. stable. Qed.

Lemma stable_the_hubProxies key : preserves P (the_hubProxies key).
Proof. unfold the_hubProxies. stable. Qed.

Hint Resolve stable_emit stable_log_deliver stable_transport_promise stable_new_gate
  stable_add_subscription stable_remove_subscription stable_the_options
  stable_the_hubProxies : core.

Lemma stable__connect b : preserves P (_connect b).
Proof. unfold_op. stable. Qed.

Hint Resolve stable__connect : core.

Lemma stable_connect o : preserves P (connect o).
Proof. unfold_op. stable. Qed.

Lemma stable_disconnect : preserves P disconnect.
Proof. unfold_op. stable. Qed.

Lemma stable_connectedCallback : preserves P connectedCallback.
Proof. unfold_op. stable. Qed.

Lemma stable_connectionErrorCallback : preserves P connectionErrorCallback.
Proof. unfold_op. stable. Qed.

Lemma stable_recconectingCallback : preserves P recconectingCallback.
Proof. unfold_op. stable. Qed.

Lemma stable_invoke hn method args : preserves P (invoke hn method args).
Proof. unfold_op. stable. Qed.

Hint Resolve stable_connect stable_disconnect stable_connectedCallback
  stable_connectionErrorCallback stable_recconectingCallback stable_invoke : core.

Lemma stable_observe reenter k ev :
  preserves P reenter -> preserves P (observe reenter k ev).
Proof. intros H. unfold_op. stable. Qed.

Lemma stable_deliver_gate reenter b x :
  preserves P reenter -> preserves P (deliver_gate reenter b x).
Proof.
  intros H. pose proof (stable_observe reenter) as Ho.
  unfold_op. stable.
Qed.

Lemma stable_subject_next reenter g b :
  preserves P reenter -> preserves P (subject_next reenter g b).
Proof.
  intros H. pose proof (stable_deliver_gate reenter) as Hd.
  unfold_op. stable.
Qed.

Lemma stable_reconnectedCallback_body reenter :
  preserves P reenter -> preserves P (reconnectedCallback_body reenter).
Proof.
  intros H. pose proof (stable_subject_next reenter) as Hn.
  unfold_op. stable.
Qed.

Lemma stable_reentrant d : preserves P (reentrant d).
Proof.
  induction d as [|d IH]; simpl; [apply preserves_throw|].
  apply stable_reconnectedCallback_body, IH.
Qed.

Lemma stable_reconnectedCallback : preserves P reconnectedCallback.
Proof. apply stable_reconnectedCallback_body, stable_reentrant. Qed.

Lemma stable_notify k ev : preserves P (notify k ev).
Proof. apply stable_observe, stable_reconnectedCallback. Qed.

Hint Resolve stable_reconnectedCallback stable_notify : core.

Lemma stable_settle_subscription out x : preserves P (settle_subscription out x).
Proof. unfold_op. stable. Qed.

Hint Resolve stable_settle_subscription : core.

Lemma stable_settle p out : preserves P (settle p out).
Proof. unfold_op. stable. Qed.

Lemma stable_subscribe o k : preserves P (subscribe o k).
Proof. unfold_op. stable. Qed.

Hint Resolve stable_settle stable_subscribe : core.

Lemma stable_tryReconnect : preserves P tryReconnect.
Proof. unfold_op. stable. Qed.

Hint Resolve stable_tryReconnect : core.

Lemma stable_disconnectedCallback : preserves P disconnectedCallback.
Proof. unfold_op. stable. Qed.

Hint Resolve stable_disconnectedCallback : core.

Lemma stable_serve r : preserves P (serve r).
Proof. unfold_op. stable. Qed.

Lemma stable_hubMessageReceived h sub args : preserves P (hubMessageReceived h sub args).
Proof.
  apply listeners_hubMessageReceived; [|exact P_called|exact P_console].
  intros f i a st _. apply listeners_run_statement, stable_serve.
Qed.

Hint Resolve stable_serve stable_hubMessageReceived : core.

Lemma stable_fire e : preserves P (fire e).
Proof. unfold_op. unfold hook. stable. Qed.

Hint Resolve stable_fire : core.

Lemma stable_perform c : preserves P (perform c).
Proof. unfold_op. stable. Qed.

Lemma stable_run cs s : P s -> P (run cs s).
Proof.
  revert s. induction cs as [|c cs IH]; intros s Hs; simpl; [exact Hs|].
  apply IH. apply stable_perform, Hs.
Qed.

End Stable.

(** ** Properties of the trace written so far *)

Section Monotone.

Variable P : HubService -> Prop.
Hypothesis P_mono : trace_monotone P.

Ltac mono_atom :=
  intros;
  lazymatch goal with
  | H : P ?s |- P ?s' =>
      apply (P_mono s s' H);
      first [ by (exists []; simpl; rewrite app_nil_r)
            | by (eexists; unfold issue, open_gate; simpl; reflexivity) ]
  end.

Ltac mono_solve :=
  intros;
  lazymatch goal with
  | |- preserves _ (register _) => apply registry_register; mono_atom
  | |- preserves _ (unregister _) => apply registry_unregister; mono_atom
  | |- preserves _ initConnection => apply registry_initConnection; mono_atom
  | |- P _ => mono_atom
  end.

Lemma mono_observe reenter k ev :
  preserves P reenter -> preserves P (observe reenter k ev).
Proof. intros H. apply stable_observe; try exact H; mono_solve. Qed.

Lemma mono_deliver_gate reenter b x :
  preserves P reenter -> preserves P (deliver_gate reenter b x).
Proof. intros H. apply stable_deliver_gate; try exact H; mono_solve. Qed.

Lemma mono_reentrant d : preserves P (reentrant d).
Proof. apply stable_reentrant; mono_solve. Qed.

Lemma mono_subject_next reenter g b :
  preserves P reenter -> preserves P (subject_next reenter g b).
Proof. intros H. apply stable_subject_next; try exact H; mono_solve. Qed.

Lemma mono_reconnectedCallback : preserves P reconnectedCallback.
Proof. apply stable_reconnectedCallback; mono_solve. Qed.

Lemma mono_settle_subscription out x : preserves P (settle_subscription out x).
Proof. apply stable_settle_subscription; mono_solve. Qed.

Lemma mono_settle p out : preserves P (settle p out).
Proof. apply stable_settle; mono_solve. Qed.

Lemma mono_subscribe o k : preserves P (subscribe o k).
Proof. apply stable_subscribe; mono_solve. Qed.

Lemma mono_fire e : preserves P (fire e).
Proof. apply stable_fire; mono_solve. Qed.

Lemma mono_perform c : preserves P (perform c).
Proof. apply stable_perform; mono_solve. Qed.

Lemma mono_run cs s : P s -> P (run cs s).
Proof. apply stable_run; mono_solve. Qed.

End Monotone.

Lemma extends_monotone s0 : trace_monotone (extends s0).
Proof.
  intros s s' [l Hl] [l' Hl']. exists (l ++ l'). by rewrite Hl', Hl, app_assoc.
Qed.

Lemma recorded_monotone s0 e : trace_monotone (recorded s0 e).
Proof.
  intros s s' (l & Hl & He) [l' Hl']. exists (l ++ l'). split.
  - by rewrite Hl', Hl, app_assoc.
  - apply elem_of_app. by left.
Qed.

Lemma extends_refl s : extends s s.
Proof. exists []. by rewrite app_nil_r. Qed.

Lemma recorded_since s0 e s : recorded s0 e s -> e ∈ since s0 s.
Proof. intros (l & Hl & He). unfold since. rewrite Hl. by rewrite drop_app_length. Qed.

(** ** Record updates *)

Lemma set_trace_id s : set_trace (trace s) s = s.
Proof. destruct s; reflexivity. Qed.

Lemma set_trace_app s l1 l2 :
  set_trace (trace (set_trace (trace s ++ l1) s) ++ l2) (set_trace (trace s ++ l1) s)
  = set_trace (trace s ++ (l1 ++ l2)) s.
Proof. destruct s; simpl. unfold set_trace; simpl. by rewrite app_assoc. Qed.

Lemma since_app s s' l : trace s' = trace s ++ l -> since s s' = l.
Proof. intros H. unfold since. rewrite H. apply drop_app_length. Qed.

(** ** Dispatch of inbound events *)

(** A quiet listener is called: the call is recorded, and what it throws
    is reported. *)
Lemma quiet_listener_called hub' event func args s :
  quiet (apply_callback (callback_of func) (thisObj func) args) ->
  try_catch (call_listener func args) (fun err => report hub' event (exn_value err)) s
  = (inr tt, set_trace (trace s ++ dispatch_trace apply_callback hub' event args [func]) s).
Proof.
  intros [Hst Hthrown]. unfold try_catch, call_listener, dispatch_trace, log.
  rewrite bind_modify. cbv zeta. rewrite Hst. simpl.
  destruct (thrown _) as [err|] eqn:Herr; simpl.
  - unfold report. rewrite (Hthrown err eq_refl). unfold log, modify. f_equal.
    apply (set_trace_app s [_] [_]).
  - reflexivity.
Qed.

Lemma listeners_set_trace s l hub' event :
  listeners (set_trace l s) hub' event = listeners s hub' event.
Proof. reflexivity. Qed.

Lemma dispatch_trace_app hub' event args l1 l2 :
  dispatch_trace apply_callback hub' event args (l1 ++ l2)
  = dispatch_trace apply_callback hub' event args l1
    ++ dispatch_trace apply_callback hub' event args l2.
Proof. unfold dispatch_trace. by rewrite flat_map_app. Qed.

(** One round of the loop. *)
Lemma dispatch_round fuel hub' sub args i s :
  dispatch fuel hub' sub args i s
  = match listeners s hub' (eventName sub) !! i with
    | None => (inr tt, s)
    | Some func =>
        match fuel with
        | O => (inl Hang, s)
        | S fuel' =>
            bind (try_catch (call_listener func args)
                    (fun err => report hub' (eventName sub) (exn_value err)))
                 (fun _ => dispatch fuel' hub' sub args (S i)) s
        end
    end.
Proof.
  destruct fuel; simpl; rewrite bind_gets; by destruct (_ !! i).
Qed.

(** The loop over quiet listeners, from position [i] on: the list stays as
    it is, and as many rounds as it has listeners left are enough. *)
Lemma dispatch_quiet hub' sub args evs fuel : forall i s,
  listeners s hub' (eventName sub) = evs ->
  (forall func, func ∈ drop i evs ->
     quiet (apply_callback (callback_of func) (thisObj func) args)) ->
  length evs - i <= fuel ->
  dispatch fuel hub' sub args i s
  = (inr tt, set_trace (trace s ++ dispatch_trace apply_callback hub' (eventName sub) args
                                     (drop i evs)) s).
Proof.
  induction fuel as [|fuel IH]; intros i s Hl Hq Hfuel.
  - simpl. rewrite bind_gets, Hl.
    rewrite (lookup_ge_None_2 evs i) by lia. rewrite drop_ge by lia.
    unfold ret. simpl. by rewrite app_nil_r, set_trace_id.
  - simpl. rewrite bind_gets, Hl.
    destruct (evs !! i) as [func|] eqn:Hi.
    + rewrite (drop_S _ _ _ Hi) in Hq |- *.
      rewrite (bind_inr _ _ _ _ _ (quiet_listener_called hub' _ func args s
                                     (Hq func (list_elem_of_here _ _)))).
      rewrite IH.
      * f_equal. rewrite set_trace_app. f_equal. f_equal.
        by rewrite <- (dispatch_trace_app _ _ _ [func]).
      * exact Hl.
      * intros func' Hin. apply Hq. by right.
      * apply lookup_lt_Some in Hi. lia.
    + rewrite drop_ge by (by apply lookup_ge_None). unfold ret. simpl.
      by rewrite app_nil_r, set_trace_id.
Qed.

(** An inbound event whose listeners are all quiet calls every listener of
    its (hub, event) list, in list order and with the arguments that came
    in, whichever of them throw; a listener that throws is reported on the
    console and nothing is thrown back to the transport. *)
Lemma dispatch_isolates_quiet_listeners s hub' sub args proxies w evs :
  hubProxies s = Some proxies ->
  proxies !! hub' = Some w ->
  events w !! eventName sub = Some evs ->
  (forall func, func ∈ evs ->
     quiet (apply_callback (callback_of func) (thisObj func) args)) ->
  length evs <= loop_limit ->
  hubMessageReceived hub' sub args s
  = (inr tt,
     set_trace (trace s ++ dispatch_trace apply_callback hub' (eventName sub) args evs) s)
  /\ called (exec (hubMessageReceived hub' sub args) s)
     = called s ++ map (fun func => (thisObj func, callback_of func, args)) evs.
Proof.
  intros Hp Hw He Hq Hfuel.
  assert (hubMessageReceived hub' sub args s
          = (inr tt, set_trace (trace s ++
               dispatch_trace apply_callback hub' (eventName sub) args evs) s)) as Heq.
  { unfold_head (hubMessageReceived hub' sub args).
    rewrite bind_gets, Hp, Hw, He.
    rewrite (dispatch_quiet hub' sub args evs); [done| |done|lia].
    unfold listeners. by rewrite Hp, Hw, He. }
  split; [exact Heq|].
  unfold exec. rewrite Heq. simpl. unfold called.
  destruct s; simpl. rewrite omap_app. f_equal.
  clear. induction evs as [|func evs IH]; simpl; [reflexivity|].
  destruct (thrown _); simpl; f_equal; exact IH.
Qed.

(** ** Unregistering *)

Lemma filter_all {A} (P : A -> Prop) `{forall x, Decision (P x)} (l : list A) :
  (forall x, x ∈ l -> P x) -> filter P l = l.
Proof.
  induction l as [|x l IH]; intros Hl; [reflexivity|].
  rewrite filter_cons_True by (apply Hl; left). f_equal. apply IH.
  intros y Hy. apply Hl. by right.
Qed.

Lemma filter_none {A} (P : A -> Prop) `{forall x, Decision (P x)} (l : list A) :
  (forall x, x ∈ l -> ~ P x) -> filter P l = [].
Proof.
  induction l as [|x l IH]; intros Hl; [reflexivity|].
  rewrite filter_cons_False by (apply Hl; left). apply IH.
  intros y Hy. apply Hl. by right.
Qed.

Lemma filter_twice {A} (P : A -> Prop) `{forall x, Decision (P x)} (l : list A) :
  filter P (filter P l) = filter P l.
Proof. apply filter_all. intros x Hx. by apply list_elem_of_filter in Hx as [? _]. Qed.

(** The backwards loop of [unregister] is a filter. *)
Lemma splice_owned_spec instance n evs :
  n <= length evs ->
  splice_owned instance n evs
  = filter (fun l => thisObj l <> instance) (take n evs) ++ drop n evs.
Proof.
  revert evs. induction n as [|n IH]; intros evs Hn; simpl; [reflexivity|].
  destruct (lookup_lt_is_Some_2 evs n) as [event Hev]; [lia|]. rewrite Hev.
  rewrite (take_S_r _ _ _ Hev), filter_app.
  destruct (decide (thisObj event = instance)) as [Heq|Hne].
  - rewrite IH by (rewrite length_delete by eauto; lia).
    rewrite delete_take_drop.
    rewrite take_app_length' by (rewrite length_take_le; lia).
    rewrite drop_app_length' by (rewrite length_take_le; lia).
    rewrite (filter_cons_False _ event) by (intros ?; congruence).
    by rewrite filter_nil, app_nil_r.
  - rewrite IH by lia. rewrite (drop_S _ _ _ Hev).
    rewrite (filter_cons_True _ event) by exact Hne.
    by rewrite filter_nil, <- app_assoc.
Qed.

Lemma splice_owned_all instance evs :
  splice_owned instance (length evs) evs = filter (fun l => thisObj l <> instance) evs.
Proof.
  rewrite splice_owned_spec by lia. by rewrite take_ge, drop_all, app_nil_r by lia.
Qed.

Lemma listeners_set_hubProxies s proxies hub' event :
  listeners (set_hubProxies (Some proxies) s) hub' event
  = match proxies !! hub' with
    | Some w => default [] (events w !! event)
    | None => []
    end.
Proof. reflexivity. Qed.

(** One round of [unregister] that does not throw. *)
Lemma unregister_round_spec instance hn sub s proxies proxy :
  hubProxies s = Some proxies -> proxies !! hn = Some proxy ->
  passable proxy [sub] ->
  exists s', unregister_round instance hn sub s = (inr tt, s') /\
    trace s' = trace s /\
    (exists proxies' proxy', hubProxies s' = Some proxies' /\ proxies' !! hn = Some proxy' /\
       forall e, events proxy' !! e = None <-> events proxy !! e = None) /\
    forall hub' event,
      listeners s' hub' event
      = if decide (hub' = hn /\ event = eventName sub)
        then filter (fun l => thisObj l <> instance) (listeners s hub' event)
        else listeners s hub' event.
Proof.
  intros Hp Hw Hpass. unfold unregister_round.
  rewrite (bind_inr _ _ _ _ _ (the_hubProxies_run _ _ _ Hp)), Hw.
  destruct (events proxy !! eventName sub) as [evs|] eqn:He.
  - eexists. split; [reflexivity|]. split; [reflexivity|]. split.
    { eexists _, _. split; [reflexivity|]. split; [apply lookup_insert_eq|].
      intros e. simpl. destruct (decide (e = eventName sub)) as [->|Hne].
      - rewrite lookup_insert_eq, He. done.
      - by rewrite lookup_insert_ne. }
    intros hub' event. rewrite listeners_set_hubProxies. unfold listeners. rewrite Hp.
    destruct (decide (hub' = hn /\ event = eventName sub)) as [[-> ->]|Hne].
    + rewrite lookup_insert_eq, Hw. simpl. rewrite He, lookup_insert_eq. simpl.
      apply splice_owned_all.
    + destruct (decide (hub' = hn)) as [->|Hh].
      * rewrite lookup_insert_eq, Hw. simpl.
        rewrite lookup_insert_ne by (intros Heq; apply Hne; done). done.
      * by rewrite lookup_insert_ne.
  - assert (match inherited (eventName sub) with
            | Some (Some (S _)) => throw (cannot_read "thisObj")
            | _ => ret tt
            end s = (inr tt, s)) as ->.
    { pose proof (Hpass sub) as Hn.
      destruct (inherited (eventName sub)) as [[[|n]|]|]; try reflexivity.
      by destruct (Hn n (list_elem_of_here _ _) He). }
    exists s. split; [reflexivity|]. split; [reflexivity|]. split; [by eexists _, _|].
    intros hub' event. destruct (decide _) as [[-> ->]|]; [|done].
    unfold listeners. by rewrite Hp, Hw, He.
Qed.

Lemma unregister_loop instance hn subs : forall s proxies proxy,
  hubProxies s = Some proxies -> proxies !! hn = Some proxy ->
  passable proxy subs ->
  exists s', for_each (unregister_round instance hn) subs s = (inr tt, s') /\
    trace s' = trace s /\
    forall hub' event,
      listeners s' hub' event
      = if decide (hub' = hn /\ event ∈ map eventName subs)
        then filter (fun l => thisObj l <> instance) (listeners s hub' event)
        else listeners s hub' event.
Proof.
  induction subs as [|sub subs IH]; intros s proxies proxy Hp Hw Hpass; simpl.
  - exists s. split; [reflexivity|]. split; [reflexivity|]. intros hub' event.
    destruct (decide _) as [[_ H]|]; [|done]. by apply elem_of_nil in H.
  - destruct (unregister_round_spec instance hn sub s proxies proxy Hp Hw)
      as (s1 & Hrun & Ht1 & (proxies1 & proxy1 & Hp1 & Hw1 & Hk1) & Hl1).
    { intros sub' n ->%list_elem_of_singleton. apply Hpass. left. }
    destruct (IH s1 proxies1 proxy1 Hp1 Hw1) as (s' & Hloop & Ht' & Hl').
    { intros sub' n Hin Hnone. apply Hpass; [by right|]. by apply Hk1. }
    exists s'. split; [by rewrite (bind_inr _ _ _ _ _ Hrun)|]. split; [congruence|].
    intros hub' event. rewrite Hl', Hl1.
    repeat case_decide; try done; try (by apply filter_twice); exfalso; rewrite ?elem_of_cons in *; naive_solver.
Qed.

Lemma unregister_run instance props s proxies proxy :
  getMetadata instance = Some props ->
  hubProxies s = Some proxies -> proxies !! hubName props = Some proxy ->
  passable proxy (subscriptions props) ->
  exists s', unregister instance s = (inr tt, s') /\
    trace s' = trace s /\
    forall hub' event,
      listeners s' hub' event
      = if decide (hub' = hubName props /\ event ∈ map eventName (subscriptions props))
        then filter (fun l => thisObj l <> instance) (listeners s hub' event)
        else listeners s hub' event.
Proof.
  intros Hm Hp Hw Hpass. unfold_head (unregister instance). rewrite Hm.
  rewrite (bind_inr _ _ _ _ _ (the_hubProxies_run _ _ _ Hp)).
  eapply unregister_loop; eassumption.
Qed.

(** On a service that holds the proxy of the instance's hub,
    [unregister(instance)] takes the listeners of [instance], told by
    identity, out of every event list and leaves each list otherwise as it
    was, order included: no list holds a listener of [instance]
    afterwards. *)
Lemma unregister_removes_own_listeners s instance props proxies proxy :
  getMetadata instance = Some props ->
  hubProxies s = Some proxies ->
  proxies !! hubName props = Some proxy ->
  passable proxy (subscriptions props) ->
  owned getMetadata s ->
  let s' := exec (unregister instance) s in
  result (unregister instance) s = inr tt
  /\ (forall hub' event,
        listeners s' hub' event
        = filter (fun l => thisObj l <> instance) (listeners s hub' event))
  /\ (forall hub' event l, l ∈ listeners s' hub' event -> thisObj l <> instance).
Proof.
  intros Hm Hp Hw Hpass Hown.
  destruct (unregister_run instance props s proxies proxy Hm Hp Hw Hpass)
    as (s1 & Hrun & _ & Hl).
  assert (forall hub' event,
    listeners s1 hub' event
    = filter (fun l => thisObj l <> instance) (listeners s hub' event)) as Hall.
  { intros hub' event. rewrite Hl. case_decide as Hd; [reflexivity|].
    symmetry. apply filter_all. intros l Hin Heq.
    destruct (Hown hub' event l Hin) as (props' & Hm' & Hh & He).
    rewrite Heq, Hm in Hm'. injection Hm' as <-. apply Hd. done. }
  unfold result, exec. rewrite Hrun. simpl.
  split; [reflexivity|]. split; [exact Hall|].
  intros hub' event l. rewrite Hall. by intros [? _]%list_elem_of_filter.
Qed.

(** ** A listener that unregisters while an event is dispatched (C8) *)

(** C8, as the code has it.  [hubMessageReceived] walks the very array
    that [unregister] splices.  When the first of two listeners, called for
    an inbound event, unregisters its instance (the [hubWrapper.unregister()]
    of the README) and then throws, the error is caught and reported, but
    the array has lost its first element meanwhile: the second listener now
    sits at the position just visited, the loop ends, and the second
    listener is never called. *)
Theorem listener_skipped_after_unregister s hub' sub args proxies w a b props err :
  hubProxies s = Some proxies -> proxies !! hub' = Some w ->
  events w !! eventName sub = Some [a; b] ->
  thisObj b <> thisObj a ->
  getMetadata (thisObj a) = Some props -> hubName props = hub' ->
  eventName sub ∈ map eventName (subscriptions props) ->
  passable w (subscriptions props) ->
  apply_callback (callback_of a) (thisObj a) args
  = {| statements := [Bare (CallUnregister (thisObj a))]; thrown := Some err |} ->
  stringable err = true ->
  0 < loop_limit ->
  let s' := exec (hubMessageReceived hub' sub args) s in
  result (hubMessageReceived hub' sub args) s = inr tt
  /\ since s s' = [ Called (thisObj a) (callback_of a) args;
                    Console (CErrorCallback hub' (eventName sub) err) ]
  /\ called s' = called s ++ [(thisObj a, callback_of a, args)]
  /\ listeners s' hub' (eventName sub) = [b].
Proof.
  intros Hp Hw He Hab Hm Hh Hdecl Hpass Hbeh Hstr Hfuel.
  set (s1 := set_trace (trace s ++ [Called (thisObj a) (callback_of a) args]) s).
  destruct (unregister_run (thisObj a) props s1 proxies w Hm) as (s2 & Hun & Ht2 & Hl2);
    [done|by rewrite Hh|done|].
  set (s3 := set_trace (trace s2 ++ [Console (CErrorCallback hub' (eventName sub) err)]) s2).
  assert (listeners s hub' (eventName sub) = [a; b]) as Hls.
  { unfold listeners. by rewrite Hp, Hw, He. }
  assert (listeners s3 hub' (eventName sub) = [b]) as Hl3.
  { unfold s3. rewrite listeners_set_trace, Hl2.
    rewrite decide_True by (by rewrite Hh).
    unfold s1. rewrite listeners_set_trace, Hls.
    rewrite filter_cons_False by (intros H; by apply H).
    rewrite filter_cons_True by done. by rewrite filter_nil. }
  assert (hubMessageReceived hub' sub args s = (inr tt, s3)) as Hrun.
  { unfold_head (hubMessageReceived hub' sub args).
    rewrite bind_gets, Hp, Hw, He.
    destruct loop_limit as [|fuel]; [lia|].
    rewrite dispatch_round, Hls. cbn [lookup list_lookup].
    assert (try_catch (call_listener a args)
              (fun e => report hub' (eventName sub) (exn_value e)) s = (inr tt, s3)) as Hcall.
    { unfold try_catch, call_listener, log. rewrite bind_modify. fold s1.
      rewrite Hbeh. cbv zeta. cbn [statements thrown for_each run_statement serve].
      rewrite !bind_assoc, (bind_inr _ _ _ _ _ Hun), !bind_ret. cbn [throw exn_value].
      unfold report. rewrite Hstr. reflexivity. }
    rewrite (bind_inr _ _ _ _ _ Hcall), dispatch_round, Hl3. reflexivity. }
  cbv zeta. unfold exec, result. rewrite Hrun. cbn [fst snd].
  assert (trace s3 = trace s ++ [ Called (thisObj a) (callback_of a) args;
                                  Console (CErrorCallback hub' (eventName sub) err) ]) as Ht3.
  { unfold s3. cbn [trace set_trace]. rewrite Ht2. unfold s1. cbn [trace set_trace].
    by rewrite <- app_assoc. }
  split_and!; [reflexivity|by apply since_app| |exact Hl3].
  unfold called. rewrite Ht3, omap_app. reflexivity.
Qed.

(** A listener throws a value that does not convert to a string: the
    template of the [catch] clause throws in its turn, out of
    [hubMessageReceived], and the listeners that follow are not called. *)
Lemma unconvertible_error_ends_dispatch s hub' sub args proxies w a rest err :
  hubProxies s = Some proxies -> proxies !! hub' = Some w ->
  events w !! eventName sub = Some (a :: rest) ->
  apply_callback (callback_of a) (thisObj a) args
  = {| statements := []; thrown := Some err |} ->
  stringable err = false ->
  0 < loop_limit ->
  hubMessageReceived hub' sub args s
  = (inl (TypeError "Cannot convert a Symbol value to a string"),
     set_trace (trace s ++ [Called (thisObj a) (callback_of a) args]) s).
Proof.
  intros Hp Hw He Hbeh Hstr Hfuel.
  unfold_head (hubMessageReceived hub' sub args). rewrite bind_gets, Hp, Hw, He.
  destruct loop_limit as [|fuel]; [lia|]. rewrite dispatch_round.
  assert (listeners s hub' (eventName sub) = a :: rest) as ->.
  { unfold listeners. by rewrite Hp, Hw, He. }
  cbn [lookup list_lookup]. unfold bind at 1.
  unfold try_catch, call_listener, log. rewrite bind_modify, Hbeh. cbv zeta.
  cbn [statements thrown for_each]. rewrite bind_ret. cbn [throw exn_value].
  unfold report. by rewrite Hstr.
Qed.

(** ** Unregistering before the connection is made (C9) *)

Lemma deferred_frame i s s' :
  deferredRegistrations s' = deferredRegistrations s ->
  i ∈ deferredRegistrations s -> i ∈ deferredRegistrations s'.
Proof. by intros ->. Qed.

Ltac deferred_atom :=
  intros;
  lazymatch goal with
  | H : ?i ∈ deferredRegistrations ?s |- ?i ∈ deferredRegistrations ?s' =>
      apply (deferred_frame i s s'); [by destruct s|exact H]
  end.

(** [register] only ever adds to the deferred registrations. *)
Lemma deferred_register i j :
  preserves (fun s => i ∈ deferredRegistrations s) (register j).
Proof.
  unfold_op. unfold push_listener, the_hubProxies, log.
  pose proof (registry_matchesGroup (fun s => i ∈ deferredRegistrations s)) as Hmg.
  pres; try deferred_atom; try (apply Hmg; deferred_atom).
  simpl. apply elem_of_app. by left.
Qed.

Lemma deferred_initConnection i :
  preserves (fun s => i ∈ deferredRegistrations s) initConnection.
Proof.
  pose proof (deferred_register i) as Hreg.
  pose proof (registry_matchesGroup (fun s => i ∈ deferredRegistrations s)) as Hmg.
  pose proof (registry_createHubProxy (fun s => i ∈ deferredRegistrations s)) as Hcr.
  unfold_op. unfold the_options, the_hubProxies.
  pres; eauto; try deferred_atom; first [apply Hmg|apply Hcr]; deferred_atom.
Qed.

(** C9, as the code has it.  Before [connect()] the service has no table
    of proxies: [register] puts the instance on the list of deferred
    registrations, and [unregister] reads [this.hubProxies[hubName]] of
    [undefined].  It throws a [TypeError] and changes nothing: the instance
    stays on the list, whatever the application and the transport do
    afterwards, and [initConnection] registers every instance of that list
    (see [unregistered_instance_still_called]). *)
Theorem unregister_before_connect s instance props :
  getMetadata instance = Some props -> subscriptions props <> [] ->
  hubProxies s = None ->
  let s1 := set_deferredRegistrations (deferredRegistrations s ++ [instance]) s in
  register instance s
  = (inr (Some {| wrapper_hubName := hubName props; wrapper_instance := instance;
                  hub := None |}), s1)
  /\ unregister instance s1 = (inl (cannot_read (hubName props)), s1)
  /\ (forall cs, instance ∈ deferredRegistrations (run cs s1)).
Proof.
  intros Hm Hne Hp s1. split_and!.
  - unfold_head (register instance). rewrite Hm. cbv zeta.
    destruct (length (subscriptions props) =? 0)%nat eqn:Hlen.
    { apply Nat.eqb_eq in Hlen. by destruct (subscriptions props). }
    by rewrite bind_gets, Hp.
  - unfold_head (unregister instance). rewrite Hm. unfold the_hubProxies.
    rewrite bind_assoc, bind_gets.
    assert (hubProxies s1 = None) as -> by exact Hp. reflexivity.
  - intros cs.
    apply (stable_run (fun s' => instance ∈ deferredRegistrations s'));
      first [ exact (deferred_register instance)
            | exact (deferred_initConnection instance)
            | (intros i; apply registry_unregister; deferred_atom)
            | (unfold issue, open_gate; deferred_atom)
            | idtac ].
    simpl. apply elem_of_app. right. by apply list_elem_of_singleton.
Qed.

(** *** [owned] holds in every state the service reaches *)

Lemma owned_frame s s' :
  hubProxies s' = hubProxies s -> owned getMetadata s -> owned getMetadata s'.
Proof.
  intros Heq Hs hub' event l Hl. apply (Hs hub' event l).
  unfold listeners in *. by rewrite <- Heq.
Qed.

Ltac owned_atom :=
  intros;
  lazymatch goal with
  | H : owned _ ?s |- owned _ ?s' => by apply (owned_frame s s')
  end.

Lemma owned_matchesGroup g : preserves (owned getMetadata) (matchesGroup g).
Proof. apply registry_matchesGroup. owned_atom. Qed.

Lemma owned_push_listener hn event l props :
  getMetadata (thisObj l) = Some props -> hubName props = hn ->
  event ∈ map eventName (subscriptions props) ->
  preserves (owned getMetadata) (push_listener hn event l).
Proof.
  intros Hm Hh He s Hs. unfold push_listener, the_hubProxies.
  rewrite bind_assoc, bind_gets.
  destruct (hubProxies s) as [proxies|] eqn:Hp; [|exact Hs]. rewrite bind_ret.
  destruct (proxies !! hn) as [w|] eqn:Hw; [|exact Hs].
  destruct (events w !! event) as [ls|] eqn:Hev; [|by destruct (inherited event)].
  simpl. intros hub' event' l'. rewrite listeners_set_hubProxies.
  destruct (decide (hub' = hn)) as [->|Hne].
  - rewrite lookup_insert_eq. simpl.
    destruct (decide (event' = event)) as [->|Hne'].
    + rewrite lookup_insert_eq. simpl. intros [Hin| ->%list_elem_of_singleton]%elem_of_app.
      * apply Hs. unfold listeners. by rewrite Hp, Hw, Hev.
      * by exists props.
    + rewrite lookup_insert_ne by done. intros Hin.
      apply Hs. unfold listeners. by rewrite Hp, Hw.
  - rewrite lookup_insert_ne by done. intros Hin.
    apply Hs. unfold listeners. by rewrite Hp.
Qed.

Lemma owned_register i : preserves (owned getMetadata) (register i).
Proof.
  unfold_op. destruct (getMetadata i) as [props|] eqn:Hm; [|apply preserves_throw].
  cbv zeta. destruct (_ =? _)%nat; [apply preserves_throw|].
  apply preserves_bind; [apply preserves_gets|]. intros [proxies|].
  - destruct (proxies !! hubName props).
    + apply preserves_bind; [|intros; apply preserves_ret].
      apply preserves_for_each_in. intros sub Hsub.
      destruct (method_of i (functionName sub)) as [f|].
      * apply (owned_push_listener _ _ _ props); try done.
        apply list_elem_of_fmap. by exists sub.
      * unfold log. pres. owned_atom.
    + destruct (foreign_hub _ _); [unfold log; pres; owned_atom|].
      apply preserves_bind; [apply owned_matchesGroup|]. intros []; pres.
  - pres. owned_atom.
Qed.

(** A round of [unregister] only ever takes listeners away. *)
Lemma unregister_round_shrinks i hn sub s hub' event l :
  l ∈ listeners (snd (unregister_round i hn sub s)) hub' event ->
  l ∈ listeners s hub' event.
Proof.
  unfold unregister_round, the_hubProxies. rewrite bind_assoc, bind_gets.
  destruct (hubProxies s) as [proxies|] eqn:Hp; [|done]. rewrite bind_ret.
  destruct (proxies !! hn) as [proxy|] eqn:Hw; [|by destruct (foreign_hub _ _)].
  destruct (events proxy !! eventName sub) as [evs|] eqn:He;
    [|by destruct (inherited _) as [[[]|]|]].
  simpl. rewrite listeners_set_hubProxies. unfold listeners. rewrite Hp.
  destruct (decide (hub' = hn)) as [->|Hh]; [|by rewrite lookup_insert_ne].
  rewrite lookup_insert_eq, Hw. simpl.
  destruct (decide (event = eventName sub)) as [->|Hne];
    [|by rewrite lookup_insert_ne].
  rewrite lookup_insert_eq, He. simpl. rewrite splice_owned_all.
  by intros [_ ?]%list_elem_of_filter.
Qed.

Lemma owned_unregister_round i hn sub :
  preserves (owned getMetadata) (unregister_round i hn sub).
Proof.
  intros s Hs hub' event l Hl. apply Hs. by eapply unregister_round_shrinks.
Qed.

Lemma owned_unregister i : preserves (owned getMetadata) (unregister i).
Proof.
  unfold_op. destruct (getMetadata i); [|apply preserves_throw].
  apply preserves_bind; [unfold the_hubProxies; pres|]. intros _.
  apply preserves_for_each. intros sub. apply owned_unregister_round.
Qed.

(** A new proxy has no listeners. *)
Lemma createHubProxy_run properties s :
  exists w s', createHubProxy properties s = (inr w, s') /\
    hubProxies s' = hubProxies s /\
    forall e l, events w !! e = Some l -> l = [].
Proof.
  unfold createHubProxy, log. rewrite bind_modify.
  set (s1 := set_trace _ s).
  assert (hubProxies s1 = hubProxies s) as H1 by reflexivity.
  assert (forall e l, (∅ : gmap string (list eventType)) !! e = Some l -> l = []) as H0.
  { intros e l. by rewrite lookup_empty. }
  revert H1 H0. generalize s1. generalize (∅ : gmap string (list eventType)).
  induction (subscriptions properties) as [|sub subs IH]; intros evs s2 H2 Hevs; simpl.
  - rewrite bind_ret. by eexists _, _.
  - rewrite bind_assoc. destruct (evs !! eventName sub) as [l|] eqn:Hl.
    + rewrite bind_ret. by apply IH.
    + destruct (inherited (eventName sub)); [rewrite bind_ret; by apply IH|].
      rewrite bind_assoc, bind_modify, bind_ret. apply IH; [exact H2|].
      intros e l'. destruct (decide (e = eventName sub)) as [->|Hne].
      * rewrite lookup_insert_eq. by intros [= <-].
      * rewrite lookup_insert_ne by done. apply Hevs.
Qed.

Lemma owned_initConnection : preserves (owned getMetadata) initConnection.
Proof.
  unfold_op.
  apply preserves_bind.
  { intros s _. simpl. intros hub' event l. unfold listeners. simpl.
    rewrite lookup_empty. by intros ?%elem_of_nil. }
  intros _. clear.
  (* from here on [owned] is an invariant *)
  apply preserves_bind; [unfold the_options; pres|]. intros o.
  apply preserves_bind; [pres; owned_atom|]. intros _.
  apply preserves_bind.
  { apply preserves_for_each. intros properties.
    apply preserves_bind; [apply owned_matchesGroup|]. intros [|]; simpl; [|pres].
    intros s Hs.
    destruct (createHubProxy_run properties s) as (w & s' & Hrun & Hp & Hw).
    rewrite (bind_inr _ _ _ _ _ Hrun). unfold the_hubProxies.
    rewrite bind_assoc, bind_gets.
    assert (owned getMetadata s') as Hs' by (by apply (owned_frame s s')).
    destruct (hubProxies s') as [proxies|] eqn:Hp'; [|exact Hs'].
    rewrite bind_ret. simpl. intros hub' event l.
    rewrite listeners_set_hubProxies.
    destruct (decide (hub' = hubName properties)) as [->|Hne].
    - rewrite lookup_insert_eq. destruct (events w !! event) as [ls|] eqn:He; simpl.
      + rewrite (Hw _ _ He). by intros ?%elem_of_nil.
      + by intros ?%elem_of_nil.
    - rewrite lookup_insert_ne by done. intros Hin. apply Hs'.
      unfold listeners. by rewrite Hp'. }
  intros _. apply preserves_bind; [apply preserves_gets|]. intros deferred.
  apply preserves_bind.
  { apply preserves_for_each. intros d.
    apply preserves_bind; [apply owned_register|]. intros; apply preserves_ret. }
  intros _. pres. owned_atom.
Qed.

Lemma owned_perform c : preserves (owned getMetadata) (perform c).
Proof.
  apply stable_perform;
    first [ exact owned_register | exact owned_unregister
          | exact owned_initConnection
          | unfold issue, open_gate; owned_atom ].
Qed.

Lemma owned_initial : owned getMetadata initial.
Proof. intros hub' event l. unfold listeners. simpl. by intros ?%elem_of_nil. Qed.

(** Whatever the application and the transport do, each listener sits where
    its instance declared it. *)
Lemma owned_run cs : owned getMetadata (run cs initial).
Proof.
  apply stable_run; [..|apply owned_initial];
    first [ exact owned_register | exact owned_unregister
          | exact owned_initConnection
          | unfold issue, open_gate; owned_atom ].
Qed.

(** ** Loops over subscribers *)

Lemma isolated_run m s : isolated m s = (inr tt, snd (m s)).
Proof. unfold isolated, try_catch. destruct (m s) as [[e|[]] s']; reflexivity. Qed.

(** In a loop of isolated bodies, what the body of [x] brings about and
    the other bodies keep holds at the end. *)
Lemma for_each_isolated_establish {A} (P Q : HubService -> Prop) (f : A -> M unit) l x :
  x ∈ l ->
  (forall a, preserves P (f a)) ->
  (forall a, preserves Q (f a)) ->
  (forall s, P s -> Q (snd (f x s))) ->
  forall s, P s -> Q (snd (for_each (fun a => isolated (f a)) l s)).
Proof.
  intros Hx HP HQ Hest. induction l as [|a l IH]; intros s Hs.
  - by apply elem_of_nil in Hx.
  - simpl. rewrite (bind_inr _ _ _ _ _ (isolated_run (f a) s)).
    apply elem_of_cons in Hx as [<-|Hx].
    + apply (preserves_for_each Q); [|by apply Hest].
      intros b. apply preserves_isolated, HQ.
    + apply IH; [exact Hx|]. by apply HP.
Qed.

Lemma run_of_returns {A} (m : M A) s a : fst (m s) = inr a -> m s = (inr a, exec m s).
Proof. unfold exec. destruct (m s) as [r s']; simpl. by intros ->. Qed.

Lemma subject_next_returns reenter g b s :
  fst (subject_next reenter g b s) = inr tt.
Proof. unfold subject_next. rewrite bind_gets. apply for_each_isolated_returns. Qed.

Lemma reconnectedCallback_body_run reenter s g :
  reconnectingObservable s = Some g ->
  reconnectedCallback_body reenter s
  = (inr tt, set_reconnectingObservable None
               (exec (subject_next reenter g (connected s)) (announce s))).
Proof.
  intros Hg. unfold reconnectedCallback_body, emit, log.
  rewrite bind_gets, bind_modify, bind_gets, bind_modify, bind_gets. simpl.
  rewrite Hg, bind_gets.
  change (connected _) with (connected s).
  replace (set_trace ((trace s ++ [Emit (NReconnected (connected s))]) ++
             [Emit (NConnected (connected s))]) _)
    with (announce s)
    by (destruct s; unfold announce, set_trace; simpl; by rewrite <- app_assoc).
  rewrite (bind_inr _ _ _ _ _ (run_of_returns _ _ _ (subject_next_returns _ _ _ _))).
  reflexivity.
Qed.

(** What the gate emits reaches each observer that subscribed to it. *)
Lemma subject_next_delivers reenter g b x e s :
  preserves (extends s) reenter ->
  preserves (recorded s e) reenter ->
  x ∈ subscribers s -> on_gate g x = true ->
  (forall s', extends s s' -> recorded s e (snd (deliver_gate reenter b x s'))) ->
  recorded s e (exec (subject_next reenter g b) s).
Proof.
  intros Hre1 Hre2 Hx Hg Hest. unfold exec, subject_next. rewrite bind_gets.
  apply (for_each_isolated_establish (extends s) (recorded s e)
           (deliver_gate reenter b) _ x).
  - apply list_elem_of_filter. done.
  - intros a. apply mono_deliver_gate; [apply extends_monotone|exact Hre1].
  - intros a. apply mono_deliver_gate; [apply recorded_monotone|exact Hre2].
  - exact Hest.
  - apply extends_refl.
Qed.

Lemma recorded_after s0 s1 e s :
  extends s0 s1 -> recorded s1 e s -> recorded s0 e s.
Proof.
  intros [l0 H0] (l & Hl & He). exists (l0 ++ l). split.
  - by rewrite Hl, H0, app_assoc.
  - apply elem_of_app. by right.
Qed.

(** When the gate resolves, every observer of the gate is served. *)
Lemma reconnectedCallback_delivers s g x e :
  reconnectingObservable s = Some g ->
  x ∈ subscribers s -> on_gate g x = true ->
  (forall s', recorded s' e
                (snd (deliver_gate (reentrant stack_limit) (connected s) x s'))) ->
  recorded s e (exec reconnectedCallback s).
Proof.
  intros Hg Hx Hon Hest. unfold exec.
  unfold_head reconnectedCallback.
  rewrite (reconnectedCallback_body_run _ _ _ Hg). simpl.
  apply (recorded_after s (announce s)); [by eexists|].
  destruct (subject_next_delivers (reentrant stack_limit) g (connected s) x e (announce s))
    as (l & Hl & He); try done.
  - apply mono_reentrant, extends_monotone.
  - apply mono_reentrant, recorded_monotone.
  - intros s' Hs'. eapply recorded_after; [exact Hs'|]. apply Hest.
  - exists l. split; [|exact He]. simpl. exact Hl.
Qed.

(** ** Connecting while a reconnect is under way (C5) *)

Lemma connect_gated s o g :
  reconnectingObservable s = Some g ->
  connect o s = (inr (OGate g), set_options (Some (merge_options o)) s).
Proof.
  intros Hg. unfold_head (connect o). rewrite bind_modify.
  unfold_head (_connect false). rewrite bind_gets. simpl. by rewrite Hg.
Qed.

(** ** Calls made while the gate is open (C1) *)

Lemma invoke_gated s hn method args g proxies w :
  reconnectingObservable s = Some g ->
  hubProxies s = Some proxies -> proxies !! hn = Some w ->
  invoke hn method args s = (inr (OGatedCall g (hubProxy w) method args), s).
Proof.
  intros Hg Hp Hw. unfold invoke.
  rewrite (bind_inr _ _ _ _ _ (the_hubProxies_run _ _ _ Hp)), Hw, bind_gets, Hg.
  reflexivity.
Qed.

Lemma wire_set_trace_other s e :
  (forall w, e <> Wire w) -> wire (set_trace (trace s ++ [e]) s) = wire s.
Proof.
  intros He. unfold wire. simpl. rewrite omap_app. simpl.
  destruct e; try (by rewrite app_nil_r). by destruct (He w).
Qed.

(** With [false] the re-entrant call is not reached. *)
Lemma deliver_gate_false_preserves (P : HubService -> Prop) reenter y :
  (forall s k ev, P s -> P (set_trace (trace s ++ [Deliver k ev]) s)) ->
  (forall s n, P s -> P (set_timers n s)) ->
  (forall s o k, P s ->
     P (set_subscribers (filter (fun z => z <> Sub o k) (subscribers s)) s)) ->
  preserves P (deliver_gate reenter false y).
Proof.
  intros Hd Ht Hr. destruct y as [[] []|]; simpl;
    unfold remove_subscription, log; pres; eauto.
Qed.

(** What the caller of a call parked on the gate is told when the gate
    resolves [false]. *)
Lemma Observable_throw_value :
  exn_value Observable_throw = JStr "TypeError: Observable.throw is not a function"
  /\ exn_value Observable_throw <> JStr "SignalR disconnected".
Proof. split; [reflexivity|discriminate]. Qed.

Lemma settle_delivers p out x e s :
  promises s !! p = Some Pending ->
  x ∈ subscribers s -> on_promise p x = true ->
  (forall s', recorded s' e (snd (settle_subscription out x s'))) ->
  recorded s e (exec (settle p out) s).
Proof.
  intros Hp Hx Hon Hest. unfold exec. unfold_head (settle p out).
  rewrite bind_gets, Hp, bind_modify, bind_gets, bind_modify.
  set (s1 := set_subscribers _ _).
  assert (extends s s1) as Hext by (exists []; simpl; by rewrite app_nil_r).
  apply (recorded_after s s1); [exact Hext|].
  apply (for_each_isolated_establish (extends s1) (recorded s1 e)
           (settle_subscription out) _ x).
  - apply list_elem_of_filter. done.
  - intros a. apply mono_settle_subscription, extends_monotone.
  - intros a. apply mono_settle_subscription, recorded_monotone.
  - intros s' Hs'. eapply recorded_after; [exact Hs'|]. apply Hest.
  - apply extends_refl.
Qed.

Lemma preserves_exists {A B} (Q : B -> HubService -> Prop) (m : M A) :
  (forall b, preserves (Q b) m) -> preserves (fun s => exists b, Q b s) m.
Proof. intros H s [b Hb]. exists b. by apply H. Qed.

(** When the gate resolves, what the delivery to observer [x] brings about
    and the other deliveries keep holds afterwards. *)
Lemma reconnectedCallback_establish (P Q : HubService -> Prop) s g x :
  reconnectingObservable s = Some g ->
  x ∈ subscribers s -> on_gate g x = true ->
  P (announce s) ->
  (forall a, preserves P (deliver_gate (reentrant stack_limit) (connected s) a)) ->
  (forall a, preserves Q (deliver_gate (reentrant stack_limit) (connected s) a)) ->
  (forall s', P s' -> Q (snd (deliver_gate (reentrant stack_limit) (connected s) x s'))) ->
  (forall s', Q s' -> Q (set_reconnectingObservable None s')) ->
  Q (exec reconnectedCallback s).
Proof.
  intros Hg Hx Hon HP HpP HpQ Hest Hclose. unfold exec.
  unfold_head reconnectedCallback.
  rewrite (reconnectedCallback_body_run _ _ _ Hg). simpl. apply Hclose.
  unfold exec, subject_next. rewrite bind_gets.
  apply (for_each_isolated_establish P Q
           (deliver_gate (reentrant stack_limit) (connected s)) _ x); try done.
  apply list_elem_of_filter. done.
Qed.

(** A call in flight stays in flight while nothing settles its promise. *)
Section InFlight.

Variables (s0 : HubService) (p : nat) (w : wire_call) (o : Observable) (k : observer).

Local Abbreviation Q := (in_flight s0 p w (SubInner p o k)).

Ltac in_flight_goal :=
  first
    [ done
    | simpl; lia
    | eapply recorded_monotone; [eassumption|];
      first [ by eexists | by (exists []; simpl; rewrite app_nil_r) ]
    | simpl; rewrite lookup_insert_ne by lia; done
    | simpl; apply elem_of_app; by left
    | simpl; apply list_elem_of_filter; by split ].

Lemma in_flight_trace s e : Q s -> Q (set_trace (trace s ++ [e]) s).
Proof.
  intros (Hrec & Hp & Hin & Hlt). unfold in_flight. split_and!; in_flight_goal.
Qed.

Lemma in_flight_issue s call : Q s -> Q (issue call s).
Proof.
  intros (Hrec & Hp & Hin & Hlt). unfold in_flight. split_and!; in_flight_goal.
Qed.

Lemma in_flight_open_gate s : Q s -> Q (open_gate s).
Proof.
  intros (Hrec & Hp & Hin & Hlt). unfold in_flight. split_and!; in_flight_goal.
Qed.

Lemma in_flight_add s x : Q s -> Q (set_subscribers (subscribers s ++ [x]) s).
Proof.
  intros (Hrec & Hp & Hin & Hlt). unfold in_flight. split_and!; in_flight_goal.
Qed.

Lemma in_flight_remove s o' k' :
  Q s -> Q (set_subscribers (filter (fun y => y <> Sub o' k') (subscribers s)) s).
Proof.
  intros (Hrec & Hp & Hin & Hlt). unfold in_flight. split_and!; in_flight_goal.
Qed.

Lemma in_flight_frame s s' :
  Q s -> trace s' = trace s -> promises s' = promises s ->
  subscribers s' = subscribers s -> fresh s' = fresh s -> Q s'.
Proof.
  intros (Hrec & Hp & Hin & Hlt) Ht Hpr Hs Hf. unfold in_flight. split_and!.
  - destruct Hrec as (l & Hl & He). exists l. by rewrite Ht.
  - by rewrite Hpr.
  - by rewrite Hs.
  - by rewrite Hf.
Qed.

Lemma in_flight_reentrant d : preserves Q (reentrant d).
Proof.
  apply stable_reentrant; intros;
    first [ by apply in_flight_trace | by apply in_flight_issue
          | by apply in_flight_add | by apply in_flight_remove
          | by (eapply in_flight_frame; [eassumption|..]) ].
Qed.

Lemma in_flight_deliver_gate d b x : preserves Q (deliver_gate (reentrant d) b x).
Proof.
  apply stable_deliver_gate; [| | | | | |apply in_flight_reentrant]; intros;
    first [ by apply in_flight_trace | by apply in_flight_issue
          | by apply in_flight_add | by apply in_flight_remove
          | by (eapply in_flight_frame; [eassumption|..]) ].
Qed.

End InFlight.

Lemma gated_call_parked s hn method args c g proxies w :
  reconnectingObservable s = Some g ->
  hubProxies s = Some proxies -> proxies !! hn = Some w ->
  perform (DoInvoke hn method args c) s
  = (inr tt, set_subscribers
               (subscribers s ++ [Sub (OGatedCall g (hubProxy w) method args) (Caller c)]) s).
Proof.
  intros Hg Hp Hw. unfold_request (CallInvoke hn method args c).
  rewrite (bind_inr _ _ _ _ _ (invoke_gated _ _ _ _ _ _ _ Hg Hp Hw)).
  reflexivity.
Qed.

Lemma gated_call_refused s g h method args c :
  let x := Sub (OGatedCall g h method args) (Caller c) in
  reconnectingObservable s = Some g -> x ∈ subscribers s -> connected s = false ->
  recorded s (Deliver c (Error (exn_value Observable_throw))) (exec reconnectedCallback s)
  /\ wire (exec reconnectedCallback s) = wire s
  /\ x ∉ subscribers (exec reconnectedCallback s).
Proof.
  intros x Hg Hx Hc.
  set (e := Deliver c (Error (exn_value Observable_throw))).
  apply (reconnectedCallback_establish
           (fun s' => extends s s' /\ wire s' = wire s)
           (fun s' => recorded s e s' /\ wire s' = wire s /\ x ∉ subscribers s') s g x
           Hg Hx).
  - simpl. by apply bool_decide_eq_true.
  - split; [by eexists|]. unfold wire. simpl. by rewrite omap_app, app_nil_r.
  - intros a. rewrite Hc. apply deliver_gate_false_preserves.
    + intros s' k ev [He Hw]. split.
      * eapply extends_monotone; [exact He|]. by eexists.
      * by rewrite wire_set_trace_other.
    + intros s' n [He Hw]. split; [|exact Hw].
      eapply extends_monotone; [exact He|]. exists []. simpl. by rewrite app_nil_r.
    + intros s' o k [He Hw]. split; [|exact Hw].
      eapply extends_monotone; [exact He|]. exists []. simpl. by rewrite app_nil_r.
  - intros a. rewrite Hc. apply deliver_gate_false_preserves.
    + intros s' k ev (Hr & Hw & Hn). split_and!; [|by rewrite wire_set_trace_other|done].
      eapply recorded_monotone; [exact Hr|]. by eexists.
    + intros s' n (Hr & Hw & Hn). split_and!; [|done|done].
      eapply recorded_monotone; [exact Hr|]. exists []. simpl. by rewrite app_nil_r.
    + intros s' o k (Hr & Hw & Hn). split_and!; [|done|].
      * eapply recorded_monotone; [exact Hr|]. exists []. simpl. by rewrite app_nil_r.
      * simpl. intros Hin. apply list_elem_of_filter in Hin as [_ Hin]. done.
  - intros s' [[l Hl] Hw]. rewrite Hc. simpl. split_and!.
    + exists (l ++ [e]). split; [|apply elem_of_app; right; by apply list_elem_of_singleton].
      simpl. by rewrite Hl, app_assoc.
    + rewrite <- Hw. unfold wire. simpl. by rewrite omap_app, app_nil_r.
    + simpl. intros Hin. apply list_elem_of_filter in Hin as [Hne _]. done.
  - intros s' (Hr & Hw & Hn). done.
Qed.

Lemma gated_call_issued s g h method args c :
  let call := OGatedCall g h method args in
  reconnectingObservable s = Some g ->
  Sub call (Caller c) ∈ subscribers s -> connected s = true ->
  exists p, in_flight s p (WInvoke p h method args) (SubInner p call (Caller c))
              (exec reconnectedCallback s).
Proof.
  intros call Hg Hx Hc.
  apply (reconnectedCallback_establish
           (extends s)
           (fun s' => exists p,
              in_flight s p (WInvoke p h method args) (SubInner p call (Caller c)) s')
           s g (Sub call (Caller c)) Hg Hx).
  - simpl. by apply bool_decide_eq_true.
  - by eexists.
  - intros a. apply mono_deliver_gate; [apply extends_monotone|].
    apply mono_reentrant, extends_monotone.
  - intros a. apply preserves_exists. intros p. apply in_flight_deliver_gate.
  - intros s' [l Hl]. rewrite Hc. simpl. exists (fresh s'). unfold in_flight. split_and!.
    + exists (l ++ [Wire (WInvoke (fresh s') h method args)]). split.
      * simpl. by rewrite Hl, app_assoc.
      * apply elem_of_app; right. by apply list_elem_of_singleton.
    + simpl. apply lookup_insert_eq.
    + simpl. apply elem_of_app; right. by apply list_elem_of_singleton.
    + simpl. lia.
  - intros s' [p Hp]. exists p. eapply in_flight_frame; [exact Hp|done..].
Qed.

Lemma call_outcome_delivered s p outer c out :
  promises s !! p = Some Pending ->
  SubInner p outer (Caller c) ∈ subscribers s ->
  recorded s (Deliver c (outcome_event out)) (exec (settle p out) s).
Proof.
  intros Hp Hin. apply (settle_delivers p out (SubInner p outer (Caller c))); try done.
  - simpl. by apply bool_decide_eq_true.
  - intros s'. destruct out as [v|e]; simpl.
    + exists [Deliver c (Next v)]. split; [reflexivity|]. by apply list_elem_of_singleton.
    + exists [Deliver c (Error e)]. split; [reflexivity|]. by apply list_elem_of_singleton.
Qed.

(** C1, as the code has it.  A call made while the gate is open is parked
    on the gate and nothing goes to the transport.  When the gate resolves
    [false] the wire is untouched and the call is dropped from the gate, but
    the error that the caller gets is not "SignalR disconnected": the
    function passed to [flatMap] calls [Observable.throw], which does not
    exist, and the caller gets the [TypeError] of that call.  When the gate
    resolves [true] the call is put on the wire with its hub, method and
    arguments, and what the promise of the transport settles with, value or
    error, is what the caller receives. *)
Theorem invoke_waits_for_gate s hn method args c g proxies w :
  reconnectingObservable s = Some g ->
  hubProxies s = Some proxies ->
  proxies !! hn = Some w ->
  let call := OGatedCall g (hubProxy w) method args in
  let x := Sub call (Caller c) in
  perform (DoInvoke hn method args c) s
  = (inr tt, set_subscribers (subscribers s ++ [x]) s)
  /\ (forall s2,
        reconnectingObservable s2 = Some g -> x ∈ subscribers s2 ->
        connected s2 = false ->
        let s3 := exec reconnectedCallback s2 in
        Deliver c (Error (JStr "TypeError: Observable.throw is not a function"))
          ∈ since s2 s3
        /\ JStr "TypeError: Observable.throw is not a function"
           <> JStr "SignalR disconnected"
        /\ wire s3 = wire s2 /\ x ∉ subscribers s3)
  /\ (forall s2,
        reconnectingObservable s2 = Some g -> x ∈ subscribers s2 ->
        connected s2 = true ->
        exists p,
          in_flight s2 p (WInvoke p (hubProxy w) method args)
            (SubInner p call (Caller c)) (exec reconnectedCallback s2))
  /\ (forall p out s4,
        promises s4 !! p = Some Pending ->
        SubInner p call (Caller c) ∈ subscribers s4 ->
        Deliver c (outcome_event out) ∈ since s4 (exec (settle p out) s4)).
Proof.
  intros Hg Hp Hw call x. split_and!.
  - by eapply gated_call_parked.
  - intros s2 Hg2 Hx Hc s3.
    destruct (gated_call_refused s2 g (hubProxy w) method args c Hg2 Hx Hc)
      as (Hr & Hwire & Hn).
    split_and!; [by apply recorded_since|discriminate|done|done].
  - intros s2 Hg2 Hx Hc. by apply gated_call_issued.
  - intros p out s4 Hpend Hin. apply recorded_since.
    by eapply call_outcome_delivered.
Qed.

(** ** A connect attempt that fails (C7) *)







Lemma subscribe_pending s o k p :
  promise_of o = Some p -> promises s !! p = Some Pending ->
  subscribe o k s = (inr tt, set_subscribers (subscribers s ++ [Sub o k]) s).
Proof.
  intros Ho Hp. unfold_head (subscribe o k). rewrite bind_gets, Ho, Hp. reflexivity.
Qed.

Lemma subscribe_gate s o k :
  promise_of o = None ->
  subscribe o k s = (inr tt, set_subscribers (subscribers s ++ [Sub o k]) s).
Proof.
  intros Ho. unfold_head (subscribe o k). rewrite bind_gets, Ho. reflexivity.
Qed.

(** Settling a pending promise runs the pipeline of each waiting
    subscription, in subscription order, and releases them. *)
Lemma settle_pending s p out :
  promises s !! p = Some Pending ->
  settle p out s
  = for_each (fun x => isolated (settle_subscription out x))
      (filter (fun x => on_promise p x = true) (subscribers s))
      (set_subscribers (filter (fun x => on_promise p x = false) (subscribers s))
         (set_promises (<[p := Settled out]> (promises s)) s)).
Proof.
  intros Hp. unfold_head (settle p out).
  rewrite bind_gets, Hp, bind_modify, bind_gets, bind_modify. reflexivity.
Qed.


(** ** Subscribing to what the service has just returned *)

Lemma issued_is_fresh {A} (pre : M A) call (mk : nat -> Observable) s obs s1 :
  (forall p, promise_of (mk p) = Some p) ->
  bind pre (fun _ => p <- transport_promise call ;; ret (mk p)) s = (inr obs, s1) ->
  match promise_of obs with
  | Some p => promises s1 !! p = Some Pending /\ p < fresh s1
  | None => True
  end.
Proof.
  intros Hmk. destruct (pre s) as [[e|a] s0] eqn:Hpre.
  - rewrite (bind_inl _ _ _ _ _ Hpre). discriminate.
  - rewrite (bind_inr _ _ _ _ _ Hpre), bind_transport_promise.
    intros [= <- <-]. rewrite Hmk. simpl. split; [apply lookup_insert_eq|lia].
Qed.

Lemma fresh__connect b : fresh_observable (_connect b).
Proof.
  intros s obs s1. unfold_head (_connect b). rewrite bind_gets.
  destruct b, (reconnectingObservable s) as [g|]; simpl;
    try (rewrite bind_gets; by apply issued_is_fresh).
  by intros [= <- <-].
Qed.

Lemma fresh_connect o : fresh_observable (connect o).
Proof.
  intros s obs s1. unfold_head (connect o). rewrite bind_modify. apply fresh__connect.
Qed.

Lemma fresh_disconnect : fresh_observable disconnect.
Proof.
  intros s obs s1. unfold disconnect. rewrite bind_gets.
  destruct (_connection s); [|discriminate].
  rewrite bind_transport_promise. intros [= <- <-]. simpl.
  split; [apply lookup_insert_eq|lia].
Qed.

Lemma fresh_invoke hn method args : fresh_observable (invoke hn method args).
Proof.
  intros s obs s1. unfold invoke. unfold the_hubProxies. rewrite bind_assoc, bind_gets.
  destruct (hubProxies s) as [proxies|]; [|discriminate]. rewrite bind_ret.
  destruct (proxies !! hn) as [w|].
  - rewrite bind_gets. destruct (reconnectingObservable s) as [g|].
    + by intros [= <- <-].
    + rewrite bind_transport_promise. intros [= <- <-]. simpl.
      split; [apply lookup_insert_eq|lia].
  - destruct (foreign_hub proxies hn); [|discriminate]. rewrite bind_gets.
    destruct (reconnectingObservable s) as [g|]; [|discriminate].
    by intros [= <- <-].
Qed.

(** Subscribing at once to an observable the service has just returned
    only records the subscription. *)
Lemma subscribe_fresh m k s :
  fresh_observable m ->
  bind m (fun o => subscribe o k) s = bind m (fun o => add_subscription (Sub o k)) s.
Proof.
  intros Hm. destruct (m s) as [[e|o] s1] eqn:Hms.
  - by rewrite !(bind_inl _ _ _ _ _ Hms).
  - rewrite !(bind_inr _ _ _ _ _ Hms). specialize (Hm s o s1 Hms).
    destruct (promise_of o) as [p|] eqn:Ho.
    + by rewrite (subscribe_pending _ _ _ _ Ho (proj1 Hm)).
    + by rewrite (subscribe_gate _ _ _ Ho).
Qed.

Lemma preserves_ext {A} P (m m' : M A) :
  (forall s, m s = m' s) -> preserves P m' -> preserves P m.
Proof. intros He Hm s Hs. rewrite He. by apply Hm. Qed.

(** ** Invariants kept by everything but the outcome of [start()] *)

(** [P] may depend on [errorConnecting] and on which promises have
    settled: it is kept by every step other than the settling of a promise,
    and by the pipelines of every subscription other than one to the
    observable of [_connect]. *)
Section Quiet.

Variable P : HubService -> Prop.

Hypothesis P_register : forall i, preserves P (register i).
Hypothesis P_unregister : forall i, preserves P (unregister i).
Hypothesis P_called : forall s i f args, P s ->
  P (set_trace (trace s ++ [Called i f args]) s).
Hypothesis P_console : forall s m, P s -> P (set_trace (trace s ++ [Console m]) s).
Hypothesis P_initConnection : preserves P initConnection.
Hypothesis P_emit : forall s n, P s -> P (set_trace (trace s ++ [Emit n]) s).
Hypothesis P_deliver : forall s k ev, P s -> P (set_trace (trace s ++ [Deliver k ev]) s).
Hypothesis P_transport : forall s call, P s -> P (issue call s).
Hypothesis P_new_gate : forall s, P s -> P (open_gate s).
Hypothesis P_gate_closed : forall s, P s -> P (set_reconnectingObservable None s).
Hypothesis P_add : forall s x, P s -> P (set_subscribers (subscribers s ++ [x]) s).
Hypothesis P_remove : forall s o k, P s ->
  P (set_subscribers (filter (fun y => y <> Sub o k) (subscribers s)) s).
Hypothesis P_options : forall s o, P s -> P (set_options o s).
Hypothesis P_connection : forall s c, P s -> P (set_connection c s).
Hypothesis P_timers : forall s n, P s -> P (set_timers n s).
Hypothesis P_tryingReconnect : forall s b, P s -> P (set_tryingReconnect b s).

Lemma quiet_add_subscription x : preserves P (add_subscription x).
Proof. unfold add_subscription. pres. eauto. Qed.

Lemma quiet_the_options key : preserves P (the_options key).
Proof. unfold the_options. pres. Qed.

Lemma quiet_notify k ev : preserves P (notify k ev).
Proof. apply stable_notify; auto. Qed.

Lemma quiet_reconnectedCallback : preserves P reconnectedCallback.
Proof. apply stable_reconnectedCallback; auto. Qed.

Lemma quiet_invoke hn method args : preserves P (invoke hn method args).
Proof. apply stable_invoke; auto. Qed.

Lemma quiet__connect b : preserves P (_connect b).
Proof. apply stable__connect; auto. Qed.

Lemma quiet_connect o : preserves P (connect o).
Proof. apply stable_connect; auto. Qed.

Lemma quiet_disconnect : preserves P disconnect.
Proof. apply stable_disconnect; auto. Qed.

Hint Resolve quiet_add_subscription quiet_the_options quiet_notify
  quiet_reconnectedCallback quiet_invoke
  quiet__connect quiet_connect quiet_disconnect : core.

Lemma quiet_settle_subscription out x :
  (forall p k, x <> Sub (OStart p) k) -> preserves P (settle_subscription out x).
Proof.
  intros Hx. destruct x as [[] k|]; try (by destruct (Hx p k));
    unfold_op; unfold remove_subscription; pres; eauto.
Qed.

(** [m] followed by a subscription to what it returned. *)
Lemma quiet_then_subscribe m k :
  fresh_observable m -> preserves P m -> preserves P (bind m (fun o => subscribe o k)).
Proof.
  intros Hf Hm.
  apply (preserves_ext P _ (bind m (fun o => add_subscription (Sub o k))));
    [intros s; by apply subscribe_fresh|].
  pres; eauto.
Qed.

Lemma quiet_tryReconnect : preserves P tryReconnect.
Proof.
  unfold_op. unfold new_gate.
  apply preserves_bind; [pres; eauto|intros _].
  apply preserves_bind; [pres; eauto|intros _].
  apply preserves_bind; [auto|intros o].
  apply quiet_then_subscribe; [apply fresh__connect|auto].
Qed.

Lemma quiet_disconnectedCallback : preserves P disconnectedCallback.
Proof.
  pose proof quiet_tryReconnect. unfold_op. unfold emit, log. pres; eauto.
Qed.

Lemma quiet_serve r : preserves P (serve r).
Proof.
  destruct r as [o k|k|hn method args k|i|i]; unfold_op.
  - apply quiet_then_subscribe; [apply fresh_connect|auto].
  - apply quiet_then_subscribe; [apply fresh_disconnect|auto].
  - apply quiet_then_subscribe; [apply fresh_invoke|auto].
  - pres; eauto.
  - auto.
Qed.

Lemma quiet_hubMessageReceived h sub args : preserves P (hubMessageReceived h sub args).
Proof.
  apply listeners_hubMessageReceived; [|exact P_called|exact P_console].
  intros f i a st _. apply listeners_run_statement, quiet_serve.
Qed.

Lemma quiet_fire e : (forall p out, e <> Settle p out) -> preserves P (fire e).
Proof.
  intros He. pose proof quiet_tryReconnect. pose proof quiet_disconnectedCallback.
  pose proof quiet_hubMessageReceived.
  destruct e; try (by destruct (He p out));
    unfold_op; unfold hook, recconectingCallback, new_gate, emit, log; pres; eauto.
Qed.

Lemma quiet_perform c : (forall p out, c <> Env (Settle p out)) -> preserves P (perform c).
Proof.
  intros Hc. destruct c as [r|e]; unfold_op.
  - apply quiet_serve.
  - apply quiet_fire. intros p out ->. by destruct (Hc p out).
Qed.

End Quiet.

(** ** The [errorConnecting] flag (C10) *)

Lemma connectionErrorCallback_run s :
  connectionErrorCallback s
  = (inr false, set_trace (trace s ++ [Emit (NDisconnected (connected s))])
                  (set_errorConnecting true s)).
Proof. reflexivity. Qed.

Lemma connectedCallback_run s :
  connectedCallback s
  = (inr tt, set_trace (trace s ++ [Emit (NConnected (connected s))])
               (set_errorConnecting (negb (connected s)) s)).
Proof. reflexivity. Qed.

(** Steps that leave a field alone keep what is said about that field. *)
Ltac field_frame :=
  intros; unfold issue, open_gate; simpl; done.

Ltac field_quiet :=
  first
    [ (intros; apply registry_register; field_frame)
    | (intros; apply registry_unregister; field_frame)
    | (apply registry_initConnection; field_frame)
    | field_frame ].

Lemma errorConnecting_notify b k ev :
  preserves (fun s => _errorConnecting s = b) (notify k ev).
Proof. apply quiet_notify; field_quiet. Qed.

Lemma errorConnecting_perform b c :
  (forall p out, c <> Env (Settle p out)) ->
  preserves (fun s => _errorConnecting s = b) (perform c).
Proof. intros Hc. apply quiet_perform; [field_quiet..|exact Hc]. Qed.

Lemma errorConnecting_settle_subscription b out x :
  (forall p k, x <> Sub (OStart p) k) ->
  preserves (fun s => _errorConnecting s = b) (settle_subscription out x).
Proof. intros Hx. apply quiet_settle_subscription; [field_quiet..|exact Hx]. Qed.

(** A promise settles that nobody waits for as the [start()] of a connect
    attempt. *)
Lemma errorConnecting_settle s p out :
  (forall k, Sub (OStart p) k ∉ subscribers s) ->
  _errorConnecting (exec (settle p out) s) = _errorConnecting s.
Proof.
  intros Hno. unfold exec. unfold_head (settle p out). rewrite bind_gets.
  destruct (promises s !! p) as [[|o]|]; try reflexivity.
  rewrite bind_modify, bind_gets, bind_modify.
  apply (preserves_for_each_in (fun s' => _errorConnecting s' = _errorConnecting s));
    [|reflexivity].
  intros x [Hon Hx]%list_elem_of_filter. apply preserves_isolated.
  apply errorConnecting_settle_subscription. intros q k ->.
  simpl in Hon. apply bool_decide_eq_true in Hon as ->. by apply (Hno k).
Qed.

(** C10, as the code has it.  [errorConnecting] becomes true when the
    [start()] of a connect attempt rejects, and becomes the negation of
    [connected] when it resolves, so that a later attempt that succeeds
    clears it; no other pipeline, no other step of the application or of the
    transport, and no promise other than the [start()] of a connect attempt
    changes it. *)
Theorem errorConnecting_follows_start_outcome :
  (forall s p k err,
     _errorConnecting (exec (settle_subscription (Rejected err) (Sub (OStart p) k)) s)
     = true)
  /\ (forall s p k v,
        _errorConnecting (exec (settle_subscription (Resolved v) (Sub (OStart p) k)) s)
        = negb (connected s))
  /\ (forall s out x,
        (forall p k, x <> Sub (OStart p) k) ->
        _errorConnecting (exec (settle_subscription out x) s) = _errorConnecting s)
  /\ (forall s c,
        (forall p out, c <> Env (Settle p out)) ->
        _errorConnecting (exec (perform c) s) = _errorConnecting s)
  /\ (forall s p out,
        (forall k, Sub (OStart p) k ∉ subscribers s) ->
        _errorConnecting (exec (perform (Env (Settle p out))) s) = _errorConnecting s).
Proof.
  split_and!; [| | | |intros s p out Hno; by apply errorConnecting_settle].
  - intros s p k err. unfold exec. unfold_head (settle_subscription (Rejected err) (Sub (OStart p) k)).
    rewrite (bind_inr _ _ _ _ _ (connectionErrorCallback_run s)).
    apply (preserves_bind (fun s => _errorConnecting s = true));
      [apply errorConnecting_notify|intros _; apply errorConnecting_notify|reflexivity].
  - intros s p k v. unfold exec. unfold_head (settle_subscription (Resolved v) (Sub (OStart p) k)).
    rewrite bind_gets, (bind_inr _ _ _ _ _ (connectedCallback_run s)).
    apply (preserves_bind (fun s' => _errorConnecting s' = negb (connected s)));
      [apply errorConnecting_notify|intros _; apply errorConnecting_notify|reflexivity].
  - intros s out x Hx.
    by apply (errorConnecting_settle_subscription (_errorConnecting s) out x Hx s).
  - intros s c Hc. by apply (errorConnecting_perform (_errorConnecting s) c Hc s).
Qed.


(** ** A call that fails while the connection drops (C4) *)

Lemma args_size_wrapped args : args_size [JArr args] = S (args_size args).
Proof. unfold args_size. simpl. lia. Qed.

(** The list that holds the array of [args] is never [args] itself. *)
Lemma wrapped_args_differ args : [JArr args] <> args.
Proof. intros H. pose proof (args_size_wrapped args) as Hs. rewrite H in Hs. lia. Qed.

(** C4, as the code has it.  When the promise of a direct call rejects and
    a gate has appeared, [catchError] calls [invoke(hubName, method, args)]
    with the argument list as one array: the call parked on the gate, and
    put on the wire when the gate resolves, carries the one-element list
    [[args]], not [args].  Without a gate the caller gets the error of the
    transport. *)
Theorem retried_call_wraps_arguments s p hn method args k err g proxies w :
  reconnectingObservable s = Some g ->
  hubProxies s = Some proxies ->
  proxies !! hn = Some w ->
  let retry := OGatedCall g (hubProxy w) method [JArr args] in
  settle_subscription (Rejected err) (Sub (ODirectCall p hn method args) (Caller k)) s
  = (inr tt, set_subscribers (subscribers s ++ [Sub retry (Caller k)]) s)
  /\ [JArr args] <> args
  /\ (forall s2,
        reconnectingObservable s2 = Some g -> Sub retry (Caller k) ∈ subscribers s2 ->
        connected s2 = true ->
        exists q,
          in_flight s2 q (WInvoke q (hubProxy w) method [JArr args])
            (SubInner q retry (Caller k)) (exec reconnectedCallback s2)).
Proof.
  intros Hg Hp Hw retry. split_and!.
  - unfold_head (settle_subscription (Rejected err) (Sub (ODirectCall p hn method args) (Caller k))).
    rewrite bind_gets, Hg. unfold try_catch.
    by rewrite (bind_inr _ _ _ _ _ (invoke_gated _ _ _ _ _ _ _ Hg Hp Hw)).
  - apply wrapped_args_differ.
  - intros s2 Hg2 Hin Hc. by apply gated_call_issued.
Qed.

Lemma direct_failure_surfaces s p hn method args k err :
  reconnectingObservable s = None ->
  settle_subscription (Rejected err) (Sub (ODirectCall p hn method args) (Caller k)) s
  = (inr tt, set_trace (trace s ++ [Deliver k (Error err)]) s).
Proof.
  intros Hg.
  unfold_head (settle_subscription (Rejected err) (Sub (ODirectCall p hn method args) (Caller k))).
  by rewrite bind_gets, Hg.
Qed.

(** ** The gate and the wire (C2) *)

Lemma invoke_gated_silent s hn method args k :
  reconnectingObservable s <> None ->
  trace (exec (perform (DoInvoke hn method args k)) s) = trace s.
Proof.
  intros Hg. unfold exec. unfold_request (CallInvoke hn method args k).
  unfold invoke, the_hubProxies. rewrite !bind_assoc, bind_gets.
  destruct (hubProxies s) as [proxies|]; [|reflexivity]. rewrite bind_ret.
  destruct (proxies !! hn) as [w|].
  - rewrite bind_assoc, bind_gets.
    destruct (reconnectingObservable s) as [g|]; [|done]. by rewrite bind_ret.
  - destruct (foreign_hub proxies hn); [|reflexivity]. rewrite bind_assoc, bind_gets.
    destruct (reconnectingObservable s) as [g|]; [|done]. by rewrite bind_ret.
Qed.

(** Every reconnect attempt makes a gate of its own. *)
Lemma tryReconnect_replaces_gate s :
  reconnectingObservable (exec tryReconnect s) = Some (fresh s).
Proof.
  unfold exec. unfold_head tryReconnect. rewrite bind_modify. unfold new_gate.
  rewrite bind_modify.
  apply (preserves_bind (fun s' => reconnectingObservable s' = Some (fresh s)));
    [| |done].
  - unfold the_options. pres.
  - intros o. apply quiet_then_subscribe; try field_quiet; [apply fresh__connect|].
    apply stable__connect; field_quiet.
Qed.

Lemma tryReconnect_opens_gate s :
  reconnectingObservable (exec tryReconnect s) <> None.
Proof. by rewrite tryReconnect_replaces_gate. Qed.


(** ** Notifications of a reconnect (C6) *)

Lemma emitted_app s l :
  emitted (set_trace (trace s ++ l) s)
  = emitted s ++ omap (fun e => match e with Emit n => Some n | _ => None end) l.
Proof. unfold emitted. simpl. by rewrite omap_app. Qed.

(** Only the subscriber of [tryReconnect], when it waits on the gate itself,
    emits anything while the gate is served. *)
Lemma deliver_gate_silent reenter b x E :
  (forall g, x <> Sub (OGate g) Reconnector) ->
  preserves (fun s => emitted s = E) (deliver_gate reenter b x).
Proof.
  intros Hx. destruct x as [[g| | |g h method args|g|] [c|]|]; simpl;
    try (by destruct (Hx g));
    unfold remove_subscription, add_subscription, transport_promise, log; pres;
    try done;
    unfold issue, emitted in *; simpl; rewrite ?omap_app; simpl;
    by rewrite ?app_nil_r.
Qed.

Lemma subject_next_silent reenter g b s :
  Sub (OGate g) Reconnector ∉ subscribers s ->
  emitted (exec (subject_next reenter g b) s) = emitted s.
Proof.
  intros Hno. unfold exec, subject_next. rewrite bind_gets.
  apply (preserves_for_each_in (fun s' => emitted s' = emitted s)); [|reflexivity].
  intros x [Hon Hx]%list_elem_of_filter. apply preserves_isolated.
  apply deliver_gate_silent. intros g' ->. simpl in Hon.
  apply bool_decide_eq_true in Hon as ->. done.
Qed.

Lemma reconnector_served s g :
  reconnectingObservable s = Some g ->
  notify Reconnector (Next (JBool true)) s
  = (inr tt, set_tryingReconnect false
               (set_reconnectingObservable None
                  (exec (subject_next (reentrant stack_limit) g (connected s))
                     (announce s)))).
Proof.
  intros Hg. unfold_head (notify Reconnector (Next (JBool true))). unfold observe.
  cbn [truthy negb]. rewrite isolated_run. f_equal.
  unfold_head reconnectedCallback.
  by rewrite (bind_inr _ _ _ _ _ (reconnectedCallback_body_run _ _ _ Hg)).
Qed.

Lemma reconnector_ignores s ev :
  (forall v, ev <> Next v) -> notify Reconnector ev s = (inr tt, s).
Proof. intros H. destruct ev; try reflexivity. by destruct (H v). Qed.

Lemma reconnector_retries s :
  notify Reconnector (Next (JBool false)) s = (inr tt, set_timers (S (timers s)) s).
Proof. reflexivity. Qed.

(** C6, as the code has it.  When the [start()] of a reconnect attempt
    resolves with the transport connected, the connect pipeline sends
    [onConnected] and [reconnectedCallback] then sends [onReconnected] and
    [onConnected] again: one [onReconnected] and two [onConnected]
    notifications.  An attempt whose [start()] rejects sends [onDisconnected]
    only. *)
Theorem reconnect_notifications s p g :
  promises s !! p = Some Pending ->
  filter (fun x => on_promise p x = true) (subscribers s) = [Sub (OStart p) Reconnector] ->
  reconnectingObservable s = Some g ->
  Sub (OGate g) Reconnector ∉ subscribers s ->
  (forall v, connected s = true ->
     emitted (exec (settle p (Resolved v)) s)
     = emitted s ++ [NConnected true; NReconnected true; NConnected true])
  /\ (forall err,
        emitted (exec (settle p (Rejected err)) s)
        = emitted s ++ [NDisconnected (connected s)]).
Proof.
  intros Hp Hre Hg Hno. split.
  - intros v Hc. unfold exec. rewrite (settle_pending _ _ _ Hp), Hre. cbn [for_each].
    rewrite (bind_inr _ _ _ _ _ (isolated_run _ _)). cbn [snd ret].
    set (s1 := set_subscribers _ _).
    unfold_head (settle_subscription (Resolved v) (Sub (OStart p) Reconnector)).
    rewrite bind_gets, (bind_inr _ _ _ _ _ (connectedCallback_run s1)).
    set (s2 := set_trace _ _).
    assert (reconnectingObservable s2 = Some g) as Hg2 by exact Hg.
    change (connected s1) with (connected s). rewrite Hc.
    rewrite (bind_inr _ _ _ _ _ (reconnector_served s2 g Hg2)).
    rewrite reconnector_ignores by done.
    cbn [snd]. unfold emitted at 1. cbn [trace set_tryingReconnect set_reconnectingObservable].
    change (omap _ (trace ?x)) with (emitted x).
    rewrite subject_next_silent.
    + unfold announce. rewrite emitted_app.
      assert (connected s2 = true) as -> by exact Hc.
      assert (emitted s2 = emitted s ++ [NConnected true]) as ->; [|by rewrite <- app_assoc].
      unfold s2, emitted. cbn [trace set_trace]. rewrite omap_app.
      assert (connected s1 = true) as -> by exact Hc. reflexivity.
    + simpl. intros [_ Hin]%list_elem_of_filter. done.
  - intros err. unfold exec. rewrite (settle_pending _ _ _ Hp), Hre. cbn [for_each].
    rewrite (bind_inr _ _ _ _ _ (isolated_run _ _)). cbn [snd ret].
    set (s1 := set_subscribers _ _).
    unfold_head (settle_subscription (Rejected err) (Sub (OStart p) Reconnector)).
    rewrite (bind_inr _ _ _ _ _ (connectionErrorCallback_run s1)).
    rewrite (bind_inr _ _ _ _ _ (reconnector_retries _)).
    rewrite reconnector_ignores by done.
    unfold emitted. cbn [snd trace set_trace set_timers]. by rewrite omap_app.
Qed.

(** ** Invariants that depend on where a subscription comes from *)

(** From the delivery to one observer of the gate up to
    [reconnectedCallback]. *)
Section GateChain.

Variable P : HubService -> Prop.

Hypothesis G_serve : forall reenter b x,
  preserves P reenter -> preserves P (deliver_gate reenter b x).
Hypothesis G_emit : forall s n, P s -> P (set_trace (trace s ++ [Emit n]) s).
Hypothesis G_gate_closed : forall s, P s -> P (set_reconnectingObservable None s).





End GateChain.

(** From [reconnectedCallback] up to a whole script.  A subscription is
    added in three places only: by [flatMap] inside the delivery of the
    gate, by the [catchError] of [invoke] when it calls [invoke] again, and
    when the application or [tryReconnect] subscribes to what the service
    has just returned. *)
Section Chain.

Variable P : HubService -> Prop.

Hypothesis C_reconnected : preserves P reconnectedCallback.
Hypothesis C_register : forall i, preserves P (register i).
Hypothesis C_unregister : forall i, preserves P (unregister i).
Hypothesis C_called : forall s i f args, P s ->
  P (set_trace (trace s ++ [Called i f args]) s).
Hypothesis C_console : forall s m, P s -> P (set_trace (trace s ++ [Console m]) s).
Hypothesis C_initConnection : preserves P initConnection.
Hypothesis C_emit : forall s n, P s -> P (set_trace (trace s ++ [Emit n]) s).
Hypothesis C_deliver : forall s k ev, P s -> P (set_trace (trace s ++ [Deliver k ev]) s).
Hypothesis C_transport : forall s call, P s -> P (issue call s).
Hypothesis C_new_gate : forall s, P s -> P (open_gate s).
Hypothesis C_options : forall s o, P s -> P (set_options o s).
Hypothesis C_connection : forall s c, P s -> P (set_connection c s).
Hypothesis C_errorConnecting : forall s b, P s -> P (set_errorConnecting b s).
Hypothesis C_timers : forall s n, P s -> P (set_timers n s).
Hypothesis C_tryingReconnect : forall s b, P s -> P (set_tryingReconnect b s).
Hypothesis C_settled : forall s p out, P s ->
  P (set_promises (<[p := Settled out]> (promises s)) s).
Hypothesis C_unsubscribe : forall s p, P s ->
  P (set_subscribers (filter (fun x => on_promise p x = false) (subscribers s)) s).
Hypothesis C_remove : forall s o k, P s ->
  P (set_subscribers (filter (fun y => y <> Sub o k) (subscribers s)) s).
Hypothesis C_reissue : forall hn method args k,
  preserves P (o <- invoke hn method args ;; add_subscription (Sub o k)).
Hypothesis C_then_add : forall (m : M Observable) k,
  fresh_observable m -> preserves P m ->
  preserves P (bind m (fun o => add_subscription (Sub o k))).

Lemma chain_the_options key : preserves P (the_options key).
Proof. unfold the_options. pres. Qed.

Lemma chain_notify k ev : preserves P (notify k ev).
Proof. apply stable_observe; auto. Qed.

Lemma chain_connectedCallback : preserves P connectedCallback.
Proof. apply stable_connectedCallback; auto. Qed.

Lemma chain_connectionErrorCallback : preserves P connectionErrorCallback.
Proof. apply stable_connectionErrorCallback; auto. Qed.

Lemma chain__connect b : preserves P (_connect b).
Proof. apply stable__connect; auto. Qed.

Lemma chain_connect o : preserves P (connect o).
Proof. apply stable_connect; auto. Qed.

Lemma chain_disconnect : preserves P disconnect.
Proof. apply stable_disconnect; auto. Qed.

Lemma chain_invoke hn method args : preserves P (invoke hn method args).
Proof. apply stable_invoke; auto. Qed.

Hint Resolve chain_the_options chain_notify chain_connectedCallback
  chain_connectionErrorCallback chain__connect chain_connect chain_disconnect
  chain_invoke : core.

Lemma chain_settle_subscription out x : preserves P (settle_subscription out x).
Proof.
  destruct x as [[g|p|p|g h method args|g|p hn method args] k|p outer k], out as [v|err];
    unfold_op; unfold remove_subscription; try (pres; eauto; fail).
  apply preserves_bind; [pres|]. intros [g|]; [|auto].
  apply preserves_try_catch; [apply C_reissue|auto].
Qed.

Hint Resolve chain_settle_subscription : core.

Lemma chain_settle p out : preserves P (settle p out).
Proof. unfold_op. pres; eauto. Qed.

Lemma chain_then_subscribe m k :
  fresh_observable m -> preserves P m -> preserves P (bind m (fun o => subscribe o k)).
Proof.
  intros Hf Hm.
  apply (preserves_ext P _ (bind m (fun o => add_subscription (Sub o k))));
    [intros s; by apply subscribe_fresh|].
  by apply C_then_add.
Qed.

Lemma chain_tryReconnect : preserves P tryReconnect.
Proof.
  unfold_op. unfold new_gate.
  apply preserves_bind; [pres; eauto|intros _].
  apply preserves_bind; [pres; eauto|intros _].
  apply preserves_bind; [auto|intros o].
  apply chain_then_subscribe; [apply fresh__connect|auto].
Qed.

Lemma chain_disconnectedCallback : preserves P disconnectedCallback.
Proof.
  pose proof chain_tryReconnect. unfold_op. unfold emit, log. pres; eauto.
Qed.

Lemma chain_serve r : preserves P (serve r).
Proof.
  destruct r as [o k|k|hn method args k|i|i]; unfold_op.
  - apply chain_then_subscribe; [apply fresh_connect|auto].
  - apply chain_then_subscribe; [apply fresh_disconnect|auto].
  - apply chain_then_subscribe; [apply fresh_invoke|auto].
  - pres; eauto.
  - auto.
Qed.

Lemma chain_hubMessageReceived h sub args : preserves P (hubMessageReceived h sub args).
Proof.
  apply listeners_hubMessageReceived; [|exact C_called|exact C_console].
  intros f i a st _. apply listeners_run_statement, chain_serve.
Qed.

Lemma chain_fire e : preserves P (fire e).
Proof.
  pose proof chain_tryReconnect. pose proof chain_disconnectedCallback.
  pose proof chain_settle. pose proof chain_hubMessageReceived.
  destruct e; unfold_op; unfold hook, recconectingCallback, new_gate, emit, log;
    pres; eauto.
Qed.

Lemma chain_perform c : preserves P (perform c).
Proof. destruct c as [r|e]; unfold_op; [apply chain_serve|apply chain_fire]. Qed.

Lemma chain_run cs s : P s -> P (run cs s).
Proof.
  revert s. induction cs as [|c cs IH]; intros s Hs; simpl; [exact Hs|].
  apply IH. by apply chain_perform.
Qed.

End Chain.

(** ** No subscription waits for a promise yet to be handed out *)














(** ** The gate stays open until a reconnect is announced *)

Lemma count_reconnected_app l l' :
  count_reconnected (l ++ l') = count_reconnected l + count_reconnected l'.
Proof. unfold count_reconnected. by rewrite filter_app, length_app. Qed.

Lemma reconnected_more_monotone n :
  trace_monotone (fun s => n < count_reconnected (trace s)).
Proof. intros s s' H [l Hl]. rewrite Hl, count_reconnected_app. lia. Qed.

Ltac gate_atom :=
  intros;
  match goal with
  | H : gate_open_or_reconnected ?n ?s |- gate_open_or_reconnected ?n _ =>
      destruct s; destruct H as [H1 H2];
      unfold gate_open_or_reconnected, issue, open_gate in *; simpl in *;
      rewrite ?count_reconnected_app;
      split; [lia|destruct H2 as [H2|H2]; [by left|right; lia]]
  end.

Lemma gate_register n i : preserves (gate_open_or_reconnected n) (register i).
Proof. apply registry_register; gate_atom. Qed.

Lemma gate_unregister n i : preserves (gate_open_or_reconnected n) (unregister i).
Proof. apply registry_unregister; gate_atom. Qed.

Lemma gate_initConnection n : preserves (gate_open_or_reconnected n) initConnection.
Proof. apply registry_initConnection; gate_atom. Qed.

Lemma gate_invoke n hn method args :
  preserves (gate_open_or_reconnected n) (invoke hn method args).
Proof. apply quiet_invoke; gate_atom. Qed.

(** [reconnectedCallback] closes the gate, and announces the reconnect
    before it does. *)
Lemma gate_reconnectedCallback n :
  preserves (gate_open_or_reconnected n) reconnectedCallback.
Proof.
  intros s [Hle _].
  assert (forall s', n < count_reconnected (trace s') -> gate_open_or_reconnected n s')
    as Hweak by (intros s' H'; split; [lia|by right]).
  apply Hweak. unfold_head reconnectedCallback. unfold reconnectedCallback_body.
  rewrite bind_gets. unfold emit at 1. unfold log at 1. rewrite bind_modify.
  lazymatch goal with
  | |- _ < count_reconnected (trace (snd (?m ?s1))) =>
      assert (preserves (fun s' => n < count_reconnected (trace s')) m) as Hrest;
        [|apply (Hrest s1)]
  end.
  - pose proof (reconnected_more_monotone n) as Hmono.
    pose proof (mono_subject_next _ Hmono (reentrant stack_limit)) as Hnext.
    pose proof (mono_reentrant _ Hmono stack_limit) as Hre.
    unfold emit, log. pres; eauto;
      match goal with
      | H : _ < count_reconnected (trace ?s) |- _ =>
          destruct s; simpl in *; rewrite ?count_reconnected_app; lia
      end.
  - destruct s. simpl in *. rewrite count_reconnected_app.
    change (count_reconnected [Emit (NReconnected ?c)]) with 1. lia.
Qed.

Lemma gate_perform n c : preserves (gate_open_or_reconnected n) (perform c).
Proof.
  apply chain_perform;
    [ apply gate_reconnectedCallback | apply gate_register | apply gate_unregister
    | gate_atom | gate_atom | apply gate_initConnection | try gate_atom.. ].
  - intros. apply preserves_bind; [apply gate_invoke|intros o].
    unfold add_subscription. apply preserves_modify. gate_atom.
  - intros m k _ Hm. apply preserves_bind; [exact Hm|intros o].
    unfold add_subscription. apply preserves_modify. gate_atom.
Qed.

Lemma gate_run n cs s :
  gate_open_or_reconnected n s -> gate_open_or_reconnected n (run cs s).
Proof.
  revert s. induction cs as [|c cs IH]; intros s Hs; simpl; [exact Hs|].
  apply IH. by apply gate_perform.
Qed.

(** A disconnect reported by the transport leaves the gate as it is unless
    [attemptReconnects] is set. *)
Lemma disconnect_without_reconnects s :
  (forall o, options s = Some o -> HubServiceOptions.attemptReconnects o <> Some true) ->
  reconnectingObservable (exec (fire Disconnected) s) = reconnectingObservable s.
Proof.
  intros Ho. unfold exec. unfold_head (fire Disconnected). unfold hook.
  rewrite bind_gets. destruct (hooked s); [|reflexivity].
  unfold_head disconnectedCallback. rewrite bind_gets.
  destruct (tryingReconnect s); [reflexivity|].
  rewrite bind_gets. unfold emit, log. rewrite bind_modify.
  unfold the_options. rewrite bind_assoc, bind_gets. cbn [options set_trace].
  destruct (options s) as [o|] eqn:Hopt; [|reflexivity]. rewrite bind_ret.
  specialize (Ho o eq_refl).
  by destruct (HubServiceOptions.attemptReconnects o) as [[]|].
Qed.

(** Without a gate [invoke] hands the call to the transport, whatever the
    state of the connection. *)
Lemma invoke_direct s hn method args k proxies w :
  reconnectingObservable s = None ->
  hubProxies s = Some proxies -> proxies !! hn = Some w ->
  perform (DoInvoke hn method args k) s
  = (inr tt,
     set_subscribers (subscribers s ++ [Sub (ODirectCall (fresh s) hn method args) (Caller k)])
       (issue (fun p => WInvoke p (hubProxy w) method args) s)).
Proof.
  intros Hg Hp Hw. unfold_request (CallInvoke hn method args k).
  unfold invoke.
  rewrite bind_assoc, (bind_inr _ _ _ _ _ (the_hubProxies_run _ _ _ Hp)), Hw.
  rewrite bind_assoc, bind_gets, Hg, bind_assoc, bind_transport_promise, bind_ret.
  erewrite subscribe_pending; [reflexivity|reflexivity|]. apply lookup_insert_eq.
Qed.

(** C2, as the code has it.  While a gate is open [invoke] writes nothing
    to the trace, so nothing of it reaches the wire; a disconnect reported
    by the transport opens the gate when [attemptReconnects] is set and no
    reconnect is running; and an open gate stays open, whatever the
    application and the transport do, until the service announces a
    reconnect.  Without [attemptReconnects] a disconnect leaves the gate as
    it is, and without a gate [invoke] puts the call on the wire whether or
    not the connection is up. *)
Theorem no_call_on_wire_while_gate_open :
  (forall s hn method args k,
     reconnectingObservable s <> None ->
     wire (exec (perform (DoInvoke hn method args k)) s) = wire s)
  /\ (forall s o,
        hooked s = true -> tryingReconnect s = false ->
        options s = Some o -> HubServiceOptions.attemptReconnects o = Some true ->
        reconnectingObservable (exec (fire Disconnected) s) <> None)
  /\ (forall s cs,
        reconnectingObservable s <> None ->
        reconnectingObservable (run cs s) <> None \/
        count_reconnected (trace s) < count_reconnected (trace (run cs s)))
  /\ (forall s,
        (forall o, options s = Some o ->
                   HubServiceOptions.attemptReconnects o <> Some true) ->
        reconnectingObservable (exec (fire Disconnected) s) = reconnectingObservable s)
  /\ (forall s hn method args k proxies w,
        reconnectingObservable s = None ->
        hubProxies s = Some proxies -> proxies !! hn = Some w ->
        wire (exec (perform (DoInvoke hn method args k)) s)
        = wire s ++ [WInvoke (fresh s) (hubProxy w) method args]).
Proof.
  split_and!; [| | |exact disconnect_without_reconnects|].
  4: { intros s hn method args k proxies w Hg Hp Hw. unfold exec.
       rewrite (invoke_direct s hn method args k proxies w Hg Hp Hw).
       unfold wire. simpl. by rewrite omap_app. }
  - intros s hn method args k Hg. unfold wire. by rewrite invoke_gated_silent.
  - intros s o Hh Ht Ho Ha. unfold exec. unfold_head (fire Disconnected).
    unfold hook. rewrite bind_gets, Hh.
    unfold_head disconnectedCallback. rewrite bind_gets, Ht, bind_gets.
    unfold emit, log. rewrite bind_modify.
    erewrite bind_inr by (apply the_options_run; exact Ho). rewrite Ha. simpl.
    apply tryReconnect_opens_gate.
  - intros s cs Hg.
    apply (gate_run (count_reconnected (trace s)) cs s). split; [lia|by left].
Qed.


(** ** A subscription to a gate that was replaced (C3, C5) *)

Lemma on_gate_one g g' x : on_gate g x = true -> on_gate g' x = true -> g' = g.
Proof.
  destruct x as [[]|]; simpl; try done; rewrite !bool_decide_eq_true; congruence.
Qed.

Lemma on_gate_no_promise g p x : on_gate g x = true -> on_promise p x = false.
Proof. by destruct x as [[]|]. Qed.

Section Orphan.

Variables (g : nat) (x : rx_subscription) (c : nat) (d : list obs_event).

Hypothesis x_gate : on_gate g x = true.
Hypothesis x_observer : observer_of x = Caller c.
Hypothesis c_unused : unused_by_listeners apply_callback c.

Local Abbreviation Q := (orphaned g x c d).

Lemma orphan_same s s' :
  subscribers s' = subscribers s -> fresh s' = fresh s ->
  reconnectingObservable s' = reconnectingObservable s -> trace s' = trace s ->
  Q s -> Q s'.
Proof.
  intros Hs Hf Hg Ht H. unfold orphaned, delivered in *.
  by rewrite Hs, Hf, Hg, Ht.
Qed.

Lemma orphan_trace s e :
  (forall ev, e <> Deliver c ev) -> Q s -> Q (set_trace (trace s ++ [e]) s).
Proof.
  intros He (Hx & Hlt & Hn & Hu & Hd). destruct s.
  unfold orphaned, delivered in *. simpl in *.
  split_and!; try done. rewrite omap_app, Hd. simpl.
  destruct e as [w|n|k ev|i cb a|m]; simpl; rewrite ?app_nil_r; try done.
  destruct (decide (k = c)) as [->|]; [by destruct (He ev)|by rewrite app_nil_r].
Qed.

Lemma orphan_issue s call : Q s -> Q (issue call s).
Proof.
  intros (Hx & Hlt & Hn & Hu & Hd). destruct s.
  unfold orphaned, delivered, issue in *. simpl in *. split_and!; try done; [lia|].
  rewrite omap_app, Hd. simpl. by rewrite app_nil_r.
Qed.

Lemma orphan_open_gate s : Q s -> Q (open_gate s).
Proof.
  intros (Hx & Hlt & Hn & Hu & Hd). destruct s.
  unfold orphaned, delivered, open_gate in *. simpl in *.
  split_and!; try done; [lia|]. intros [= Heq]. lia.
Qed.

Lemma orphan_gate_closed s : Q s -> Q (set_reconnectingObservable None s).
Proof.
  intros (Hx & Hlt & Hn & Hu & Hd). destruct s.
  unfold orphaned, delivered in *. simpl in *. by split_and!.
Qed.

Lemma orphan_add s y :
  observer_of y <> Caller c -> Q s -> Q (set_subscribers (subscribers s ++ [y]) s).
Proof.
  intros Hy (Hx & Hlt & Hn & Hu & Hd). destruct s.
  unfold orphaned, delivered in *. simpl in *. split_and!; try done.
  - apply elem_of_app. by left.
  - intros z [Hz|Hz%list_elem_of_singleton]%elem_of_app Hobs; [by apply Hu|].
    by subst z.
Qed.

Lemma orphan_filter s (keep : rx_subscription -> Prop) `{forall y, Decision (keep y)} :
  keep x -> Q s -> Q (set_subscribers (filter keep (subscribers s)) s).
Proof.
  intros Hk (Hx & Hlt & Hn & Hu & Hd). destruct s.
  unfold orphaned, delivered in *. simpl in *. split_and!; try done.
  - by apply list_elem_of_filter.
  - intros z [_ Hz]%list_elem_of_filter. by apply Hu.
Qed.

Ltac orphan_atom :=
  intros;
  lazymatch goal with
  | H : orphaned _ _ _ _ ?s |- orphaned _ _ _ _ (set_trace (trace ?s ++ [_]) ?s) =>
      apply orphan_trace; [done|exact H]
  | H : orphaned _ _ _ _ ?s |- orphaned _ _ _ _ (issue _ ?s) =>
      by apply orphan_issue
  | H : orphaned _ _ _ _ ?s |- orphaned _ _ _ _ (open_gate ?s) =>
      by apply orphan_open_gate
  | H : orphaned _ _ _ _ ?s |- orphaned _ _ _ _ (set_reconnectingObservable None ?s) =>
      by apply orphan_gate_closed
  | H : orphaned _ _ _ _ ?s |- orphaned _ _ _ _ _ =>
      apply (orphan_same s); [by destruct s..|exact H]
  end.

Lemma orphan_register i : preserves Q (register i).
Proof. apply registry_register; orphan_atom. Qed.

Lemma orphan_unregister i : preserves Q (unregister i).
Proof. apply registry_unregister; orphan_atom. Qed.

Lemma orphan_initConnection : preserves Q initConnection.
Proof. apply registry_initConnection; orphan_atom. Qed.

Lemma orphan_the_options key : preserves Q (the_options key).
Proof. unfold the_options. pres. Qed.

Lemma orphan_invoke hn m a : preserves Q (invoke hn m a).
Proof. apply quiet_invoke; orphan_atom. Qed.

Lemma orphan__connect b : preserves Q (_connect b).
Proof. apply quiet__connect; [apply orphan_initConnection|orphan_atom]. Qed.

Lemma orphan_connect o : preserves Q (connect o).
Proof. apply quiet_connect; [apply orphan_initConnection|orphan_atom..]. Qed.

Lemma orphan_disconnect : preserves Q disconnect.
Proof. apply quiet_disconnect; orphan_atom. Qed.

Lemma orphan_connectedCallback : preserves Q connectedCallback.
Proof. apply stable_connectedCallback; orphan_atom. Qed.

Lemma orphan_connectionErrorCallback : preserves Q connectionErrorCallback.
Proof. apply stable_connectionErrorCallback; orphan_atom. Qed.

Lemma orphan_recconectingCallback : preserves Q recconectingCallback.
Proof. apply stable_recconectingCallback; orphan_atom. Qed.

(** An observer other than [c] hears something. *)
Lemma orphan_observe reenter k ev :
  k <> Caller c -> preserves Q reenter -> preserves Q (observe reenter k ev).
Proof.
  intros Hk Hr. destruct k as [c'|]; simpl.
  - unfold log. apply preserves_modify. intros s Hs.
    apply orphan_trace; [|exact Hs]. intros ev' [= -> _]. done.
  - destruct ev; pres; try exact Hr; orphan_atom.
Qed.

(** A subscription of another observer is served by its gate. *)
Lemma orphan_deliver_gate reenter b y :
  observer_of y <> Caller c -> preserves Q reenter ->
  preserves Q (deliver_gate reenter b y).
Proof.
  intros Hy Hr.
  destruct y as [[g'|p|p|g' h' m' a'|g'|p hn m' a'] k|p outer k]; simpl in Hy;
    try apply preserves_ret.
  - by apply orphan_observe.
  - unfold deliver_gate. destruct (negb b).
    + apply preserves_bind; [|intros _; by apply orphan_observe].
      unfold remove_subscription. apply preserves_modify. intros s Hs.
      apply orphan_filter; [|exact Hs]. intros ->. by apply Hy.
    + intros s Hs. rewrite bind_transport_promise.
      apply (orphan_add (issue (fun p => WInvoke p h' m' a') s)); [exact Hy|].
      by apply orphan_issue.
  - unfold deliver_gate.
    apply preserves_bind; [|intros _; by apply orphan_observe].
    unfold remove_subscription. apply preserves_modify. intros s Hs.
    apply orphan_filter; [|exact Hs]. intros ->. by apply Hy.
Qed.

(** A gate other than [g] is resolved: the parked call is not among its
    observers. *)
Lemma orphan_subject_next reenter g' b :
  g' <> g -> preserves Q reenter -> preserves Q (subject_next reenter g' b).
Proof.
  intros Hg Hr s Hs. unfold subject_next. rewrite bind_gets.
  apply preserves_for_each_in; [|exact Hs].
  intros y [Hon Hy]%list_elem_of_filter.
  apply preserves_isolated, orphan_deliver_gate; [|exact Hr].
  intros Hobs. destruct Hs as (_ & _ & _ & Hu & _).
  rewrite (Hu y Hy Hobs) in Hon. by apply Hg, (on_gate_one g g' x).
Qed.

Lemma orphan_body reenter :
  preserves Q reenter -> preserves Q (reconnectedCallback_body reenter).
Proof.
  intros Hr. unfold reconnectedCallback_body, emit, log.
  do 4 (apply preserves_bind; [pres; orphan_atom|intros ?]).
  intros s Hs. rewrite bind_gets.
  destruct (reconnectingObservable s) as [g'|] eqn:Hg; [|exact Hs].
  assert (g' <> g) as Hne by (destruct Hs as (_ & _ & Hn & _); congruence).
  refine ((_ : preserves Q _) s Hs).
  pres; [by apply orphan_subject_next|orphan_atom].
Qed.

Lemma orphan_reentrant n : preserves Q (reentrant n).
Proof.
  induction n as [|n IH]; simpl; [apply preserves_throw|by apply orphan_body].
Qed.

Lemma orphan_reconnectedCallback : preserves Q reconnectedCallback.
Proof. apply orphan_body, orphan_reentrant. Qed.

Lemma orphan_notify k ev : k <> Caller c -> preserves Q (notify k ev).
Proof. intros Hk. apply orphan_observe; [exact Hk|apply orphan_reconnectedCallback]. Qed.

(** The promise under a subscription of another observer settles. *)
Lemma orphan_settle_subscription out y :
  observer_of y <> Caller c -> preserves Q (settle_subscription out y).
Proof.
  intros Hy.
  pose proof orphan_connectedCallback. pose proof orphan_connectionErrorCallback.
  pose proof orphan_invoke.
  destruct y as [[g'|p|p|g' h' m' a'|g'|p hn m' a'] k|p outer k]; simpl in Hy;
    pose proof (fun ev => orphan_notify k ev Hy);
    destruct out as [v|err]; unfold_op; unfold add_subscription, remove_subscription;
    pres; eauto.
  - by apply orphan_add.
  - apply orphan_filter; [|done]. intros ->. by apply Hy.
Qed.

(** A promise settles: the parked call waits for none. *)
Lemma orphan_settle p out : preserves Q (settle p out).
Proof.
  intros s Hs. unfold_head (settle p out). rewrite bind_gets.
  destruct (promises s !! p) as [[|o]|]; try exact Hs.
  rewrite bind_modify, bind_gets, bind_modify.
  apply preserves_for_each_in.
  - intros y [Hon Hy]%list_elem_of_filter.
    apply preserves_isolated, orphan_settle_subscription.
    intros Hobs. destruct Hs as (_ & _ & _ & Hu & _).
    assert (y ∈ subscribers s) as Hy' by (by destruct s).
    by rewrite (Hu y Hy' Hobs), (on_gate_no_promise g p x) in Hon.
  - apply orphan_filter; [by apply (on_gate_no_promise g)|]. orphan_atom.
Qed.

(** Another observer subscribes. *)
Lemma orphan_subscribe o k : k <> Caller c -> preserves Q (subscribe o k).
Proof.
  intros Hk. unfold_op. unfold add_subscription. pres;
    first [by apply orphan_settle_subscription | by apply orphan_add].
Qed.

Lemma orphan_tryReconnect : preserves Q tryReconnect.
Proof.
  pose proof orphan_the_options. pose proof orphan__connect.
  unfold_op. unfold new_gate. pres; eauto; try orphan_atom.
  by apply orphan_subscribe.
Qed.

Lemma orphan_disconnectedCallback : preserves Q disconnectedCallback.
Proof.
  pose proof orphan_the_options. pose proof orphan_tryReconnect.
  unfold_op. unfold emit, log. pres; eauto; orphan_atom.
Qed.

(** A request that subscribes another observer, or none. *)
Lemma orphan_serve r : request_observer r <> Some c -> preserves Q (serve r).
Proof.
  intros Hc. destruct r as [o k|k|hn m a k|i|i]; simpl in Hc; unfold_op.
  - apply preserves_bind; [apply orphan_connect|intros obs].
    apply orphan_subscribe. congruence.
  - apply preserves_bind; [apply orphan_disconnect|intros obs].
    apply orphan_subscribe. congruence.
  - apply preserves_bind; [apply orphan_invoke|intros obs].
    apply orphan_subscribe. congruence.
  - pres. apply orphan_register.
  - apply orphan_unregister.
Qed.

Lemma orphan_hubMessageReceived hub' sub a :
  preserves Q (hubMessageReceived hub' sub a).
Proof.
  apply listeners_hubMessageReceived; [|orphan_atom..].
  intros f i a' st Hst. specialize (c_unused f i a' st Hst).
  destruct st; simpl in *; [|apply preserves_isolated]; by apply orphan_serve.
Qed.

Lemma orphan_fire e : preserves Q (fire e).
Proof.
  pose proof orphan_tryReconnect. pose proof orphan_disconnectedCallback.
  pose proof orphan_recconectingCallback. pose proof orphan_reconnectedCallback.
  pose proof orphan_settle. pose proof orphan_hubMessageReceived.
  destruct e; unfold_op; unfold hook; pres; eauto; orphan_atom.
Qed.

Lemma orphan_perform cmd :
  command_observer cmd <> Some c -> preserves Q (perform cmd).
Proof.
  intros Hc. destruct cmd as [r|e]; simpl in Hc; unfold_op.
  - by apply orphan_serve.
  - apply orphan_fire.
Qed.

Lemma orphan_run cs s :
  Forall (fun cmd => command_observer cmd <> Some c) cs -> Q s -> Q (run cs s).
Proof.
  intros Hcs. revert s. induction Hcs as [|cmd cs Hc _ IH]; intros s Hs; simpl;
    [exact Hs|].
  apply IH. by apply orphan_perform.
Qed.

End Orphan.

(** C3, as the code has it.  Every [tryReconnect] makes a new gate, and
    only the gate the service holds is ever resolved.  So a call parked on
    a gate that has been replaced stays parked whatever the application, its
    listeners and the transport do afterwards (short of subscribing the same
    observer again): its observer receives nothing more, and no call of it
    is in flight. *)
Theorem parked_call_is_orphaned :
  (forall s g, g < fresh s -> reconnectingObservable (exec tryReconnect s) <> Some g)
  /\ (forall s g h method args c cs,
        Sub (OGatedCall g h method args) (Caller c) ∈ subscribers s ->
        g < fresh s ->
        reconnectingObservable s <> Some g ->
        (forall y, y ∈ subscribers s -> observer_of y = Caller c ->
                   y = Sub (OGatedCall g h method args) (Caller c)) ->
        Forall (fun cmd => command_observer cmd <> Some c) cs ->
        unused_by_listeners apply_callback c ->
        Sub (OGatedCall g h method args) (Caller c) ∈ subscribers (run cs s)
        /\ delivered c (run cs s) = delivered c s
        /\ (forall p outer, SubInner p outer (Caller c) ∉ subscribers (run cs s))).
Proof.
  split.
  - intros s g Hg. rewrite tryReconnect_replaces_gate. intros [= Heq]. lia.
  - intros s g h method args c cs Hx Hg Hn Hu Hcs Hunused.
    destruct (orphan_run g (Sub (OGatedCall g h method args) (Caller c)) c
                (delivered c s)) with (cs := cs) (s := s)
      as (Hx' & _ & _ & Hu' & Hd');
      [by apply bool_decide_eq_true|done|done|done|by split_and!|].
    split_and!; [exact Hx'|exact Hd'|].
    intros p outer Hin. by specialize (Hu' _ Hin eq_refl).
Qed.


(** ** Connecting while a reconnect is under way (C5) *)

(** C5, as the code has it.  While a reconnect is under way [connect()]
    hands out the gate of the attempt that is running: nothing is started on
    the transport, no connection is built, the only changes are the stored
    options and, once the caller subscribes, its subscription to the gate.
    What the gate emits if it is resolved is what the caller receives.  But
    an attempt that fails does not resolve its gate: the next
    [tryReconnect] makes a new one, and from then on the caller receives
    nothing, whatever the application, its listeners and the transport do
    (short of subscribing the same observer again), also when a later
    attempt succeeds. *)
Theorem connect_during_reconnect s o g k :
  reconnectingObservable s = Some g ->
  connect o s = (inr (OGate g), set_options (Some (merge_options o)) s)
  /\ exec (perform (DoConnect o k)) s
     = set_subscribers (subscribers s ++ [Sub (OGate g) (Caller k)])
         (set_options (Some (merge_options o)) s)
  /\ wire (exec (perform (DoConnect o k)) s) = wire s
  /\ (forall s2, reconnectingObservable s2 = Some g ->
        Sub (OGate g) (Caller k) ∈ subscribers s2 ->
        Deliver k (Next (JBool (connected s2))) ∈ since s2 (exec reconnectedCallback s2))
  /\ (forall s2, g < fresh s2 -> reconnectingObservable (exec tryReconnect s2) <> Some g)
  /\ (forall s2 cs,
        Sub (OGate g) (Caller k) ∈ subscribers s2 ->
        g < fresh s2 ->
        reconnectingObservable s2 <> Some g ->
        (forall y, y ∈ subscribers s2 -> observer_of y = Caller k ->
                   y = Sub (OGate g) (Caller k)) ->
        Forall (fun cmd => command_observer cmd <> Some k) cs ->
        unused_by_listeners apply_callback k ->
        Sub (OGate g) (Caller k) ∈ subscribers (run cs s2)
        /\ delivered k (run cs s2) = delivered k s2).
Proof.
  intros Hg. pose proof (connect_gated s o g Hg) as Hc.
  assert (exec (perform (DoConnect o k)) s
          = set_subscribers (subscribers s ++ [Sub (OGate g) (Caller k)])
              (set_options (Some (merge_options o)) s)) as Hp.
  { unfold exec. unfold_request (CallConnect o k).
    rewrite (bind_inr _ _ _ _ _ Hc). reflexivity. }
  split; [exact Hc|]. split; [exact Hp|]. split; [by rewrite Hp|]. split_and!.
  - intros s2 Hg2 Hin. apply recorded_since.
    apply (reconnectedCallback_delivers s2 g (Sub (OGate g) (Caller k))); try done.
    + simpl. by apply bool_decide_eq_true.
    + intros s'. exists [Deliver k (Next (JBool (connected s2)))]. split; [reflexivity|].
      by apply list_elem_of_singleton.
  - intros s2 Hlt. rewrite tryReconnect_replaces_gate. intros [= Heq]. lia.
  - intros s2 cs Hx Hlt Hn Hu Hcs Hunused.
    destruct (orphan_run g (Sub (OGate g) (Caller k)) k (delivered k s2))
      with (cs := cs) (s := s2) as (Hx' & _ & _ & _ & Hd');
      [by apply bool_decide_eq_true|done|done|done|by split_and!|].
    by split.
Qed.

(** * Further properties of the operations *)

(** ** Groups *)

(** [matchesGroup]: two settings match when both are null, or when neither
    is and they share a group; in the second case [this.options.hubGroups]
    is left forced into an array, and nothing else changes. *)
Theorem matchesGroup_spec s o g :
  options s = Some o ->
  exists b,
    matchesGroup g s
    = (inr b, if is_null g || is_null (HubServiceOptions.hubGroups o) then s
              else set_options (Some (with_group_array o)) s)
    /\ (b = true <->
        (g = GNull /\ HubServiceOptions.hubGroups o = GNull)
        \/ (g <> GNull /\ HubServiceOptions.hubGroups o <> GNull /\
            exists x, x ∈ force_array g /\ x ∈ force_array (HubServiceOptions.hubGroups o))).
Proof.
  intros Ho. unfold matchesGroup.
  rewrite (bind_inr _ _ _ _ _ (the_options_run _ s o Ho)). cbv zeta.
  destruct (is_null (HubServiceOptions.hubGroups o)) eqn:Hours, (is_null g) eqn:Hg;
    simpl.
  - exists true. split; [reflexivity|]. split; [|done]. intros _. left.
    by destruct g, (HubServiceOptions.hubGroups o).
  - exists false. split; [reflexivity|]. split; [done|].
    intros [[-> _]|(_ & Hne & _)]; [done|].
    by destruct (HubServiceOptions.hubGroups o).
  - exists false. split; [reflexivity|]. split; [done|].
    intros [[_ Heq]|(Hne & _ & _)]; [by rewrite Heq in Hours|by destruct g].
  - eexists. rewrite bind_modify. split; [reflexivity|].
    rewrite existsb_exists. split.
    + intros (x & Hx & Hin). apply existsb_exists in Hin as (y & Hy & Heq).
      apply String.eqb_eq in Heq as <-. right.
      split_and!; [by intros -> | by intros Heq; rewrite Heq in Hours|].
      exists x. by rewrite !list_elem_of_In.
    + intros [[-> _]|(_ & _ & x & Hx & Hy)]; [done|].
      exists x. split; [by apply list_elem_of_In|].
      apply existsb_exists. exists x. split; [by apply list_elem_of_In|].
      apply String.eqb_refl.
Qed.

(** ** Hub proxies *)

(** The loop of [createHubProxy] over the declared subscriptions, started
    with the events [evs] already known. *)
Lemma createHubProxy_loop hn subs : forall evs s,
  exists evs' L,
    foldlM (fun (evs : gmap string (list eventType)) subscription =>
       match evs !! eventName subscription, inherited (eventName subscription) with
       | None, None =>
           log (Wire (WOn hn (eventName subscription))) ;;
           ret (<[eventName subscription := []]> evs)
       | _, _ => ret evs
       end) evs subs s
    = (inr evs', set_trace (trace s ++ map (fun e => Wire (WOn hn e)) L) s)
    /\ NoDup L
    /\ sublist L (map eventName subs)
    /\ (forall e, e ∈ L <-> e ∈ map eventName subs /\ evs !! e = None /\ inherited e = None)
    /\ (forall e, evs' !! e = if decide (e ∈ L) then Some [] else evs !! e).
Proof.
  induction subs as [|sub subs IH]; intros evs s; simpl.
  - exists evs, []. simpl. rewrite app_nil_r, set_trace_id.
    split_and!; [reflexivity|constructor|constructor| |].
    + intros e. split; [by intros ?%elem_of_nil|by intros [?%elem_of_nil _]].
    + done.
  - assert (evs !! eventName sub <> None \/ inherited (eventName sub) <> None
            \/ (evs !! eventName sub = None /\ inherited (eventName sub) = None))
      as [Hskip|[Hskip|[Hl Hi]]].
    { destruct (evs !! eventName sub), (inherited (eventName sub)); naive_solver. }
    3: { rewrite Hl, Hi. rewrite bind_assoc. unfold log at 1. rewrite bind_modify, bind_ret.
      set (s1 := set_trace _ s).
      destruct (IH (<[eventName sub := []]> evs) s1)
        as (evs' & L & Hrun & Hnd & Hsub & Hin & Hev).
      exists evs', (eventName sub :: L). split_and!.
      * rewrite Hrun. unfold s1. by rewrite set_trace_app.
      * constructor; [|done]. rewrite Hin, lookup_insert_eq. naive_solver.
      * by apply sublist_skip.
      * intros e. rewrite !elem_of_cons, Hin.
        destruct (decide (e = eventName sub)) as [->|Hne]; [naive_solver|].
        rewrite lookup_insert_ne by done. naive_solver.
      * intros e. rewrite Hev.
        destruct (decide (e = eventName sub)) as [->|Hne].
        -- rewrite lookup_insert_eq.
           rewrite (decide_True (P := eventName sub ∈ eventName sub :: L)) by left.
           by case_decide.
        -- rewrite lookup_insert_ne by done.
           repeat case_decide; try done; set_solver. }
    all: assert (match evs !! eventName sub, inherited (eventName sub) with
                 | None, None =>
                     log (Wire (WOn hn (eventName sub))) ;;
                     ret (<[eventName sub := []]> evs)
                 | _, _ => ret evs
                 end = ret evs) as ->
           by (by destruct (evs !! eventName sub), (inherited (eventName sub)));
         rewrite bind_ret;
         destruct (IH evs s) as (evs' & L & Hrun & Hnd & Hsub & Hin & Hev);
         exists evs', L; split_and!; try done;
         [ by apply sublist_cons
         | intros e; rewrite Hin, elem_of_cons; split; [naive_solver|];
           intros [[->|He] [Hnone Hinh]]; [congruence|done] ].
Qed.

(** [createHubProxy] asks the transport for the proxy and then subscribes
    to each declared event once, at its first occurrence, and gives it an
    empty list of listeners; but an event whose name is that of a member of
    [Object.prototype] is taken for one seen before: the transport is not
    asked for it and it gets no list. *)
Theorem createHubProxy_subscribes_once properties s :
  exists w L,
    createHubProxy properties s
    = (inr w, set_trace (trace s ++ Wire (WCreateHubProxy (hubName properties))
                           :: map (fun e => Wire (WOn (hubName properties) e)) L) s)
    /\ hubProxy w = hubName properties
    /\ NoDup L
    /\ sublist L (map eventName (subscriptions properties))
    /\ (forall e, e ∈ L <->
          e ∈ map eventName (subscriptions properties) /\ inherited e = None)
    /\ (forall e, events w !! e = if decide (e ∈ L) then Some [] else None).
Proof.
  unfold createHubProxy. unfold log at 1. rewrite bind_modify.
  set (s1 := set_trace _ s).
  destruct (createHubProxy_loop (hubName properties) (subscriptions properties) ∅ s1)
    as (evs' & L & Hrun & Hnd & Hsub & Hin & Hev).
  exists {| hubProxy := hubName properties; events := evs' |}, L.
  rewrite (bind_inr _ _ _ _ _ Hrun).
  split_and!; try done.
  - unfold ret, s1. f_equal. apply (set_trace_app s [_]).
  - intros e. rewrite Hin, lookup_empty. naive_solver.
Qed.


(** ** Listeners are bound where their instance declared them *)

Local Abbreviation bound := (bound_as_declared getMetadata method_of).

Lemma bound_frame s s' : hubProxies s' = hubProxies s -> bound s -> bound s'.
Proof.
  intros Heq Hs hub' event l Hl. apply (Hs hub' event l).
  unfold listeners in *. by rewrite <- Heq.
Qed.

Ltac bound_atom :=
  intros;
  lazymatch goal with
  | H : bound_as_declared _ _ ?s |- bound_as_declared _ _ ?s' =>
      by apply (bound_frame s s')
  end.

Lemma bound_matchesGroup g : preserves bound (matchesGroup g).
Proof. apply registry_matchesGroup. bound_atom. Qed.

Lemma bound_push_listener hn event l :
  declared_listener getMetadata method_of hn event l ->
  preserves bound (push_listener hn event l).
Proof.
  intros Hl s Hs. unfold push_listener, the_hubProxies.
  rewrite bind_assoc, bind_gets.
  destruct (hubProxies s) as [proxies|] eqn:Hp; [|exact Hs]. rewrite bind_ret.
  destruct (proxies !! hn) as [w|] eqn:Hw; [|exact Hs].
  destruct (events w !! event) as [ls|] eqn:Hev; [|by destruct (inherited event)].
  simpl. intros hub' event' l'. rewrite listeners_set_hubProxies.
  destruct (decide (hub' = hn)) as [->|Hne].
  - rewrite lookup_insert_eq. simpl.
    destruct (decide (event' = event)) as [->|Hne'].
    + rewrite lookup_insert_eq. simpl.
      intros [Hin| ->%list_elem_of_singleton]%elem_of_app; [|exact Hl].
      apply Hs. unfold listeners. by rewrite Hp, Hw, Hev.
    + rewrite lookup_insert_ne by done. intros Hin.
      apply Hs. unfold listeners. by rewrite Hp, Hw.
  - rewrite lookup_insert_ne by done. intros Hin.
    apply Hs. unfold listeners. by rewrite Hp.
Qed.

Lemma bound_register i : preserves bound (register i).
Proof.
  unfold_op. destruct (getMetadata i) as [props|] eqn:Hm; [|apply preserves_throw].
  cbv zeta. destruct (_ =? _)%nat; [apply preserves_throw|].
  apply preserves_bind; [apply preserves_gets|]. intros [proxies|].
  - destruct (proxies !! hubName props).
    + apply preserves_bind; [|intros; apply preserves_ret].
      apply preserves_for_each_in. intros sub Hsub.
      destruct (method_of i (functionName sub)) as [f|] eqn:Hf.
      * apply bound_push_listener. by exists props, sub.
      * unfold log. pres. bound_atom.
    + destruct (foreign_hub _ _); [unfold log; pres; bound_atom|].
      apply preserves_bind; [apply bound_matchesGroup|]. intros []; pres.
  - pres. bound_atom.
Qed.

Lemma bound_unregister_round i hn sub : preserves bound (unregister_round i hn sub).
Proof.
  intros s Hs hub' event l Hl. apply Hs. by eapply unregister_round_shrinks.
Qed.

Lemma bound_unregister i : preserves bound (unregister i).
Proof.
  unfold_op. destruct (getMetadata i); [|apply preserves_throw].
  apply preserves_bind; [unfold the_hubProxies; pres|]. intros _.
  apply preserves_for_each. intros sub. apply bound_unregister_round.
Qed.

Lemma bound_initConnection : preserves bound initConnection.
Proof.
  unfold_op.
  apply preserves_bind.
  { intros s _. simpl. intros hub' event l. unfold listeners. simpl.
    rewrite lookup_empty. by intros ?%elem_of_nil. }
  intros _. clear.
  apply preserves_bind; [unfold the_options; pres|]. intros o.
  apply preserves_bind; [pres; bound_atom|]. intros _.
  apply preserves_bind.
  { apply preserves_for_each. intros properties.
    apply preserves_bind; [apply bound_matchesGroup|]. intros [|]; simpl; [|pres].
    intros s Hs.
    destruct (createHubProxy_run properties s) as (w & s' & Hrun & Hp & Hw).
    rewrite (bind_inr _ _ _ _ _ Hrun). unfold the_hubProxies.
    rewrite bind_assoc, bind_gets.
    assert (bound s') as Hs' by (by apply (bound_frame s s')).
    destruct (hubProxies s') as [proxies|] eqn:Hp'; [|exact Hs'].
    rewrite bind_ret. simpl. intros hub' event l.
    rewrite listeners_set_hubProxies.
    destruct (decide (hub' = hubName properties)) as [->|Hne].
    - rewrite lookup_insert_eq. destruct (events w !! event) as [ls|] eqn:He; simpl.
      + rewrite (Hw _ _ He). by intros ?%elem_of_nil.
      + by intros ?%elem_of_nil.
    - rewrite lookup_insert_ne by done. intros Hin. apply Hs'.
      unfold listeners. by rewrite Hp'. }
  intros _. apply preserves_bind; [apply preserves_gets|]. intros deferred.
  apply preserves_bind.
  { apply preserves_for_each. intros d.
    apply preserves_bind; [apply bound_register|]. intros; apply preserves_ret. }
  intros _. pres. bound_atom.
Qed.

(** Whatever the application and the transport do, a listener is found
    only under the hub that the metadata of its instance names and under an
    event that this metadata subscribes to, and it calls the method named by
    that subscription. *)
Theorem listeners_bound_as_declared cs :
  bound_as_declared getMetadata method_of (run cs initial).
Proof.
  apply stable_run;
    first [ exact bound_register | exact bound_unregister
          | exact bound_initConnection
          | (unfold issue, open_gate; bound_atom) | idtac ].
  intros hub' event l. unfold listeners. simpl. by intros ?%elem_of_nil.
Qed.


(** ** Registering on a connected service *)

Lemma push_listener_run hn event l s proxies w ls :
  hubProxies s = Some proxies -> proxies !! hn = Some w -> events w !! event = Some ls ->
  exists s' w',
    push_listener hn event l s = (inr tt, s')
    /\ trace s' = trace s
    /\ hubProxies s' = Some (<[hn := w']> proxies)
    /\ hubProxy w' = hubProxy w
    /\ (forall e, is_Some (events w' !! e) <-> is_Some (events w !! e))
    /\ (forall hub' event',
          listeners s' hub' event'
          = listeners s hub' event'
            ++ if decide (hub' = hn /\ event' = event) then [l] else []).
Proof.
  intros Hp Hw Hev. unfold push_listener.
  rewrite (bind_inr _ _ _ _ _ (the_hubProxies_run _ s proxies Hp)), Hw, Hev.
  eexists _, _. split_and!; [reflexivity|reflexivity|reflexivity|reflexivity| |].
  - intros e. simpl. destruct (decide (e = event)) as [->|Hne].
    + rewrite lookup_insert_eq, Hev. split; eauto.
    + by rewrite lookup_insert_ne.
  - intros hub' event'. rewrite listeners_set_hubProxies. unfold listeners. rewrite Hp.
    destruct (decide (hub' = hn)) as [->|Hne].
    + rewrite lookup_insert_eq, Hw. simpl.
      destruct (decide (event' = event)) as [->|Hne'].
      * rewrite lookup_insert_eq, Hev. simpl. by rewrite decide_True.
      * rewrite lookup_insert_ne by done.
        rewrite decide_False by naive_solver. by rewrite app_nil_r.
    + rewrite lookup_insert_ne by done.
      rewrite decide_False by naive_solver. by rewrite app_nil_r.
Qed.

(** Without a list for the event the [push] has nothing to be called on. *)
Lemma push_listener_no_list hn event l s proxies w :
  hubProxies s = Some proxies -> proxies !! hn = Some w -> events w !! event = None ->
  push_listener hn event l s = (inl (no_list_error event), s).
Proof.
  intros Hp Hw Hev. unfold push_listener, no_list_error.
  rewrite (bind_inr _ _ _ _ _ (the_hubProxies_run _ s proxies Hp)), Hw, Hev.
  by destruct (inherited event).
Qed.

(** The loop of [register] over the declared subscriptions. *)
Lemma register_loop i hn subs : forall s proxies w,
  hubProxies s = Some proxies -> proxies !! hn = Some w ->
  (forall sub, sub ∈ subs -> is_Some (method_of i (functionName sub)) ->
               is_Some (events w !! eventName sub)) ->
  exists s' proxies' w',
    for_each (fun subscription =>
      match method_of i (functionName subscription) with
      | None => log (Console (CWarnNoMethod i subscription))
      | Some f =>
          push_listener hn (eventName subscription) {| thisObj := i; callback_of := f |}
      end) subs s = (inr tt, s')
    /\ trace s' = trace s ++ missing_methods method_of i subs
    /\ hubProxies s' = Some proxies' /\ proxies' !! hn = Some w'
    /\ hubProxy w' = hubProxy w
    /\ (forall e, is_Some (events w' !! e) <-> is_Some (events w !! e))
    /\ (forall hub' event,
          listeners s' hub' event
          = listeners s hub' event
            ++ if decide (hub' = hn) then new_listeners method_of i subs event else []).
Proof.
  induction subs as [|sub subs IH]; intros s proxies w Hp Hw Hev.
  - exists s, proxies, w. simpl. unfold missing_methods. simpl. rewrite app_nil_r.
    split_and!; try done. intros hub' event. case_decide; by rewrite app_nil_r.
  - simpl. unfold missing_methods, new_listeners. simpl.
    destruct (method_of i (functionName sub)) as [f|] eqn:Hf.
    + destruct (Hev sub) as [ls Hls]; [left|by rewrite Hf|].
      destruct (push_listener_run hn (eventName sub) {| thisObj := i; callback_of := f |}
                  s proxies w ls Hp Hw Hls) as (s1 & w1 & Hrun & Ht & Hp1 & Hh1 & He1 & Hl1).
      destruct (IH s1 (<[hn := w1]> proxies) w1 Hp1) as
        (s' & proxies' & w' & Hrun' & Ht' & Hp' & Hw' & Hh' & He' & Hl').
      { apply lookup_insert_eq. }
      { intros sub' Hin Hm. apply He1, Hev; [by right|done]. }
      exists s', proxies', w'. rewrite (bind_inr _ _ _ _ _ Hrun).
      split_and!; [exact Hrun'|by rewrite Ht', Ht|exact Hp'|exact Hw'|congruence| |].
      { intros e. by rewrite He', He1. }
      intros hub' event. rewrite Hl', Hl1, <- app_assoc. f_equal.
      destruct (decide (hub' = hn)) as [->|Hne].
      * destruct (decide (eventName sub = event)) as [->|Hne'].
        -- by rewrite decide_True.
        -- by rewrite decide_False by naive_solver.
      * by rewrite decide_False by naive_solver.
    + unfold log at 1. rewrite bind_modify. set (s1 := set_trace _ s).
      destruct (IH s1 proxies w Hp Hw) as
        (s' & proxies' & w' & Hrun' & Ht' & Hp' & Hw' & Hh' & He' & Hl').
      { intros sub' Hin Hm. apply Hev; [by right|done]. }
      exists s', proxies', w'.
      split_and!; [exact Hrun'| |exact Hp'|exact Hw'|exact Hh'|exact He'|].
      * rewrite Ht'. unfold s1. simpl. by rewrite <- app_assoc.
      * intros hub' event. rewrite Hl'. f_equal.
        case_decide; [|done]. by case_decide.
Qed.

Lemma register_run s i props proxies w :
  getMetadata i = Some props -> subscriptions props <> [] ->
  hubProxies s = Some proxies -> proxies !! hubName props = Some w ->
  (forall sub, sub ∈ subscriptions props -> is_Some (method_of i (functionName sub)) ->
               is_Some (events w !! eventName sub)) ->
  exists s1 proxies1 w1,
    register i s = (inr (Some {| wrapper_hubName := hubName props; wrapper_instance := i;
                                 hub := Some (hubProxy w) |}), s1)
    /\ trace s1 = trace s ++ missing_methods method_of i (subscriptions props)
    /\ hubProxies s1 = Some proxies1 /\ proxies1 !! hubName props = Some w1
    /\ (forall e, is_Some (events w1 !! e) <-> is_Some (events w !! e))
    /\ forall hub' event,
         listeners s1 hub' event
         = listeners s hub' event
           ++ if decide (hub' = hubName props)
              then new_listeners method_of i (subscriptions props) event else [].
Proof.
  intros Hm Hne Hp Hw Hev. unfold_head (register i). rewrite Hm. cbv zeta.
  destruct (length (subscriptions props) =? 0)%nat eqn:Hlen.
  { apply Nat.eqb_eq in Hlen. by destruct (subscriptions props). }
  rewrite bind_gets, Hp, Hw.
  destruct (register_loop i (hubName props) (subscriptions props) s proxies w Hp Hw Hev)
    as (s' & proxies' & w' & Hrun & Ht & Hp' & Hw' & _ & He & Hl).
  rewrite (bind_inr _ _ _ _ _ Hrun). by eexists _, _, _.
Qed.

(** [register] stops at the first declared subscription whose method exists
    and whose event has no list in the proxy: the subscriptions before it
    are bound and stay bound. *)
Lemma register_stops s i props proxies w pre sub post f :
  getMetadata i = Some props ->
  hubProxies s = Some proxies -> proxies !! hubName props = Some w ->
  subscriptions props = pre ++ sub :: post ->
  (forall sub', sub' ∈ pre -> is_Some (method_of i (functionName sub')) ->
                is_Some (events w !! eventName sub')) ->
  method_of i (functionName sub) = Some f -> events w !! eventName sub = None ->
  exists s1,
    register i s = (inl (no_list_error (eventName sub)), s1)
    /\ trace s1 = trace s ++ missing_methods method_of i pre
    /\ forall hub' event,
         listeners s1 hub' event
         = listeners s hub' event
           ++ if decide (hub' = hubName props)
              then new_listeners method_of i pre event else [].
Proof.
  intros Hm Hp Hw Hsubs Hev Hf Hnone. unfold_head (register i). rewrite Hm. cbv zeta.
  destruct (length (subscriptions props) =? 0)%nat eqn:Hlen.
  { apply Nat.eqb_eq in Hlen. rewrite Hsubs in Hlen. by destruct pre. }
  rewrite bind_gets, Hp, Hw, Hsubs.
  destruct (register_loop i (hubName props) pre s proxies w Hp Hw Hev)
    as (s' & proxies' & w' & Hrun & Ht & Hp' & Hw' & _ & He & Hl).
  exists s'. unfold bind at 1. rewrite for_each_app by (by rewrite Hrun).
  rewrite Hrun. simpl. rewrite Hf.
  assert (events w' !! eventName sub = None) as Hnone'.
  { apply eq_None_not_Some. rewrite He, Hnone. by intros []. }
  unfold bind at 1.
  by rewrite (push_listener_no_list _ _ _ _ _ _ Hp' Hw' Hnone').
Qed.

(** [register] on a service that holds the proxy of the instance's hub.
    When the proxy holds a list of listeners for the event of every
    declared subscription whose method exists, each of these subscriptions
    gets one listener, put last in the list of its event; a subscription
    whose method is missing is skipped with a warning; nothing reaches the
    transport and the other lists stay as they are.  Otherwise [register]
    fails with a [TypeError] at the first declared subscription whose method
    exists and whose event has no list, and the subscriptions before it are
    bound as in the first case. *)
Theorem register_binds s i props proxies w :
  getMetadata i = Some props -> subscriptions props <> [] ->
  hubProxies s = Some proxies -> proxies !! hubName props = Some w ->
  let s' := exec (register i) s in
  ((forall sub, sub ∈ subscriptions props -> is_Some (method_of i (functionName sub)) ->
                is_Some (events w !! eventName sub)) ->
   result (register i) s
   = inr (Some {| wrapper_hubName := hubName props; wrapper_instance := i;
                  hub := Some (hubProxy w) |})
   /\ trace s' = trace s ++ missing_methods method_of i (subscriptions props)
   /\ (forall hub' event,
         listeners s' hub' event
         = listeners s hub' event
           ++ if decide (hub' = hubName props)
              then new_listeners method_of i (subscriptions props) event else []))
  /\ (forall pre sub post f,
        subscriptions props = pre ++ sub :: post ->
        (forall sub', sub' ∈ pre -> is_Some (method_of i (functionName sub')) ->
                      is_Some (events w !! eventName sub')) ->
        method_of i (functionName sub) = Some f ->
        events w !! eventName sub = None ->
        result (register i) s = inl (no_list_error (eventName sub))
        /\ trace s' = trace s ++ missing_methods method_of i pre
        /\ (forall hub' event,
              listeners s' hub' event
              = listeners s hub' event
                ++ if decide (hub' = hubName props)
                   then new_listeners method_of i pre event else [])).
Proof.
  intros Hm Hne Hp Hw. cbv zeta. split.
  - intros Hev.
    destruct (register_run s i props proxies w Hm Hne Hp Hw Hev)
      as (s1 & proxies1 & w1 & Hrun & Ht & _ & _ & _ & Hl).
    unfold exec, result. rewrite Hrun. by split_and!.
  - intros pre sub post f Hsubs Hev Hf Hnone.
    destruct (register_stops s i props proxies w pre sub post f Hm Hp Hw Hsubs Hev Hf Hnone)
      as (s1 & Hrun & Ht & Hl).
    unfold exec, result. rewrite Hrun. by split_and!.
Qed.

(** On a service that was connected and holds the proxy of the instance's
    hub, where the proxy has a list of listeners for the event of every
    declared subscription whose method exists, and no declared event
    without a list bears the name of a function of [Object.prototype] that
    takes an argument: registering an instance that had no listener and
    unregistering it again leaves every list of listeners as it was.
    (Before the first connect [unregister] throws instead.) *)
Theorem register_unregister_round_trip s i props proxies w :
  getMetadata i = Some props -> subscriptions props <> [] ->
  hubProxies s = Some proxies -> proxies !! hubName props = Some w ->
  (forall sub, sub ∈ subscriptions props -> is_Some (method_of i (functionName sub)) ->
               is_Some (events w !! eventName sub)) ->
  passable w (subscriptions props) ->
  (forall hub' event l, l ∈ listeners s hub' event -> thisObj l <> i) ->
  result (unregister i) (exec (register i) s) = inr tt
  /\ forall hub' event,
       listeners (exec (unregister i) (exec (register i) s)) hub' event
       = listeners s hub' event.
Proof.
  intros Hm Hne Hp Hw Hev Hpass Hnew.
  destruct (register_run s i props proxies w Hm Hne Hp Hw Hev)
    as (s1 & proxies1 & w1 & Hrun & _ & Hp1 & Hw1 & He1 & Hl1).
  unfold exec, result. rewrite Hrun. simpl.
  destruct (unregister_run i props s1 proxies1 w1 Hm Hp1 Hw1) as (s2 & Hrun2 & _ & Hl2).
  { intros sub n Hin Hnone. apply Hpass; [done|].
    apply eq_None_not_Some. rewrite <- He1, Hnone. by intros []. }
  rewrite Hrun2. simpl. split; [reflexivity|].
  intros hub' event. rewrite Hl2, Hl1.
  assert (forall l, l ∈ new_listeners method_of i (subscriptions props) event ->
                    thisObj l = i /\ event ∈ map eventName (subscriptions props)) as Hmade.
  { intros l. unfold new_listeners. rewrite list_elem_of_omap.
    intros (sub & Hsub & Hl). case_decide as He; [|done].
    destruct (method_of i (functionName sub)); [|done]. injection Hl as <-.
    split; [reflexivity|]. rewrite <- He. apply list_elem_of_fmap. by exists sub. }
  case_decide as Hd.
  - destruct Hd as [-> Hin]. rewrite decide_True by done.
    rewrite filter_app, (filter_all _ (listeners s _ _)), filter_none.
    + by rewrite app_nil_r.
    + intros l Hl. apply Hmade in Hl as [-> _]. by intros ?.
    + intros l Hl. by apply (Hnew (hubName props) event).
  - case_decide as Hh; [|by rewrite app_nil_r]. subst hub'.
    destruct (new_listeners method_of i (subscriptions props) event) as [|l ls] eqn:Hnl;
      [by rewrite app_nil_r|].
    destruct (Hmade l) as [_ Hin]; [left|]. naive_solver.
Qed.


(** ** Disconnecting *)





(** ** What is fixed by the first connect *)

(** Invariants of a service that has its connection: [_connect] is taken
    as a whole, since it builds a connection only when there is none, and
    the calls on the transport are told apart. *)
Section Steps.

Variable P : HubService -> Prop.

Hypothesis S_register : forall i, preserves P (register i).
Hypothesis S_unregister : forall i, preserves P (unregister i).
Hypothesis S_called : forall s i f args, P s ->
  P (set_trace (trace s ++ [Called i f args]) s).
Hypothesis S_console : forall s m, P s -> P (set_trace (trace s ++ [Console m]) s).
Hypothesis S__connect : forall b, preserves P (_connect b).
Hypothesis S_state : forall s st, P s ->
  P (set_connection
       (match _connection s with
        | Some c => Some {| conn_url := conn_url c; conn_qs := conn_qs c;
                            conn_state := st |}
        | None => None
        end) s).
Hypothesis S_emit : forall s n, P s -> P (set_trace (trace s ++ [Emit n]) s).
Hypothesis S_deliver : forall s k ev, P s -> P (set_trace (trace s ++ [Deliver k ev]) s).
Hypothesis S_stop : forall s, P s -> P (issue WStop s).
Hypothesis S_call : forall s h method args, P s ->
  P (issue (fun p => WInvoke p h method args) s).
Hypothesis S_new_gate : forall s, P s -> P (open_gate s).
Hypothesis S_gate_closed : forall s, P s -> P (set_reconnectingObservable None s).
Hypothesis S_add : forall s x, P s -> P (set_subscribers (subscribers s ++ [x]) s).
Hypothesis S_remove : forall s o k, P s ->
  P (set_subscribers (filter (fun y => y <> Sub o k) (subscribers s)) s).
Hypothesis S_options : forall s o, P s -> P (set_options o s).
Hypothesis S_errorConnecting : forall s b, P s -> P (set_errorConnecting b s).
Hypothesis S_timers : forall s n, P s -> P (set_timers n s).
Hypothesis S_tryingReconnect : forall s b, P s -> P (set_tryingReconnect b s).
Hypothesis S_settled : forall s p out, P s ->
  P (set_promises (<[p := Settled out]> (promises s)) s).
Hypothesis S_unsubscribe : forall s p, P s ->
  P (set_subscribers (filter (fun x => on_promise p x = false) (subscribers s)) s).

Ltac steps :=
  unfold transport_promise, add_subscription, remove_subscription, new_gate, emit, log,
    the_options, the_hubProxies, hook;
  pres; eauto.

Lemma step_connect o : preserves P (connect o).
Proof. unfold_op. steps. Qed.

Lemma step_disconnect : preserves P disconnect.
Proof. unfold_op. steps. Qed.

Lemma step_connectedCallback : preserves P connectedCallback.
Proof. unfold_op. steps. Qed.

Lemma step_connectionErrorCallback : preserves P connectionErrorCallback.
Proof. unfold_op. steps. Qed.

Lemma step_recconectingCallback : preserves P recconectingCallback.
Proof. unfold_op. steps. Qed.

Lemma step_invoke hn method args : preserves P (invoke hn method args).
Proof. unfold_op. steps. Qed.

Hint Resolve step_connect step_disconnect step_connectedCallback
  step_connectionErrorCallback step_recconectingCallback step_invoke : core.

Lemma step_observe reenter k ev :
  preserves P reenter -> preserves P (observe reenter k ev).
Proof. intros H. unfold_op. steps. Qed.

Lemma step_deliver_gate reenter b x :
  preserves P reenter -> preserves P (deliver_gate reenter b x).
Proof.
  intros H. pose proof (step_observe reenter) as Ho.
  unfold_op. steps.
Qed.

Lemma step_subject_next reenter g b :
  preserves P reenter -> preserves P (subject_next reenter g b).
Proof.
  intros H. pose proof (step_deliver_gate reenter) as Hd.
  unfold_op. steps.
Qed.

Lemma step_reconnectedCallback_body reenter :
  preserves P reenter -> preserves P (reconnectedCallback_body reenter).
Proof.
  intros H. pose proof (step_subject_next reenter) as Hn.
  unfold_op. steps.
Qed.

Lemma step_reentrant d : preserves P (reentrant d).
Proof.
  induction d as [|d IH]; simpl; [apply preserves_throw|].
  apply step_reconnectedCallback_body, IH.
Qed.

Lemma step_reconnectedCallback : preserves P reconnectedCallback.
Proof. apply step_reconnectedCallback_body, step_reentrant. Qed.

Lemma step_notify k ev : preserves P (notify k ev).
Proof. apply step_observe, step_reconnectedCallback. Qed.

Hint Resolve step_reconnectedCallback step_notify : core.

Lemma step_settle_subscription out x : preserves P (settle_subscription out x).
Proof. unfold_op. steps. Qed.

Hint Resolve step_settle_subscription : core.

Lemma step_settle p out : preserves P (settle p out).
Proof. unfold_op. steps. Qed.

Lemma step_subscribe o k : preserves P (subscribe o k).
Proof. unfold_op. steps. Qed.

Hint Resolve step_settle step_subscribe : core.

Lemma step_tryReconnect : preserves P tryReconnect.
Proof. unfold_op. steps. Qed.

Hint Resolve step_tryReconnect : core.

Lemma step_disconnectedCallback : preserves P disconnectedCallback.
Proof. unfold_op. steps. Qed.

Hint Resolve step_disconnectedCallback : core.

Lemma step_serve r : preserves P (serve r).
Proof. unfold_op. steps. Qed.

Lemma step_hubMessageReceived h sub args : preserves P (hubMessageReceived h sub args).
Proof.
  apply listeners_hubMessageReceived; [|exact S_called|exact S_console].
  intros f i a st _. apply listeners_run_statement, step_serve.
Qed.

Hint Resolve step_serve step_hubMessageReceived : core.

Lemma step_fire e : preserves P (fire e).
Proof. unfold_op. steps. Qed.

Hint Resolve step_fire : core.

Lemma step_perform c : preserves P (perform c).
Proof. unfold_op. steps. Qed.

Lemma step_run cs s : P s -> P (run cs s).
Proof.
  revert s. induction cs as [|c cs IH]; intros s Hs; simpl; [exact Hs|].
  apply IH. apply step_perform, Hs.
Qed.

End Steps.

(** *** The connection *)

Lemma same_connection_trace s0 s e :
  is_setup e = false -> same_connection s0 s ->
  same_connection s0 (set_trace (trace s ++ [e]) s).
Proof.
  intros He [Hc (l & Hl & Hall)]. split; [by destruct s|].
  exists (l ++ [e]). destruct s; simpl in *. rewrite Hl, app_assoc. split; [done|].
  apply Forall_app. split; [done|]. by constructor.
Qed.

Lemma same_connection_frame s0 s s' :
  _connection s' = _connection s -> trace s' = trace s ->
  same_connection s0 s -> same_connection s0 s'.
Proof. intros Hc Ht H. unfold same_connection in *. by rewrite Hc, Ht. Qed.

Lemma same_connection_issue s0 s call :
  (forall p, is_setup (Wire (call p)) = false) ->
  same_connection s0 s -> same_connection s0 (issue call s).
Proof.
  intros Hcall H. unfold issue.
  apply (same_connection_frame s0 (set_trace (trace s ++ [Wire (call (fresh s))]) s));
    [by destruct s..|].
  by apply same_connection_trace.
Qed.

Ltac same_connection_atom :=
  intros;
  lazymatch goal with
  | H : same_connection ?s0 ?s |- same_connection ?s0 (set_trace (trace ?s ++ [_]) ?s) =>
      by apply same_connection_trace
  | H : same_connection ?s0 ?s |- same_connection ?s0 (issue _ ?s) =>
      by apply same_connection_issue
  | H : same_connection ?s0 ?s |- same_connection ?s0 _ =>
      apply (same_connection_frame s0 s); [by destruct s..|exact H]
  end.

Lemma same_connection__connect s0 b : preserves (same_connection s0) (_connect b).
Proof.
  intros s Hs. unfold_head (_connect b). rewrite bind_gets.
  assert (same_connection s0 (issue WStart s)) as Hstart by same_connection_atom.
  pose proof Hs as [(c0 & c & _ & Hc & _) _].
  destruct b, (reconnectingObservable s); cbv iota; try exact Hs;
    by rewrite bind_gets, Hc, bind_ret, bind_transport_promise.
Qed.

Lemma same_connection_state s0 s st :
  same_connection s0 s ->
  same_connection s0
    (set_connection
       (match _connection s with
        | Some c => Some {| conn_url := conn_url c; conn_qs := conn_qs c;
                            conn_state := st |}
        | None => None
        end) s).
Proof.
  intros [(c0 & c & Hc0 & Hc & Hu & Hq) Ht]. split; [|by destruct s].
  exists c0, {| conn_url := conn_url c; conn_qs := conn_qs c; conn_state := st |}.
  rewrite Hc. by destruct s.
Qed.

(** The connection is built once.  Whatever the application and the
    transport do to a service that has a connection, the connection keeps
    its url and its query string (later [connect(options)] calls change
    [this.options] only) and no further [createHubProxy] or [on] reaches
    the transport. *)
Theorem connection_is_built_once s c cs :
  _connection s = Some c ->
  (exists c', _connection (run cs s) = Some c' /\
              conn_url c' = conn_url c /\ conn_qs c' = conn_qs c)
  /\ exists l, trace (run cs s) = trace s ++ l /\
       forall hn, (Wire (WCreateHubProxy hn) ∉ l) /\ (forall e, Wire (WOn hn e) ∉ l).
Proof.
  intros Hc.
  assert (same_connection s (run cs s)) as [(c0 & c' & Hc0 & Hc' & Hu & Hq) (l & Hl & Hall)].
  { apply step_run.
    - intros i. apply registry_register; same_connection_atom.
    - intros i. apply registry_unregister; same_connection_atom.
    - same_connection_atom.
    - same_connection_atom.
    - apply same_connection__connect.
    - intros. by apply same_connection_state.
    - same_connection_atom.
    - same_connection_atom.
    - same_connection_atom.
    - same_connection_atom.
    - unfold open_gate. same_connection_atom.
    - same_connection_atom.
    - same_connection_atom.
    - same_connection_atom.
    - same_connection_atom.
    - same_connection_atom.
    - same_connection_atom.
    - same_connection_atom.
    - same_connection_atom.
    - same_connection_atom.
    - split; [by exists c, c|]. exists []. by rewrite app_nil_r. }
  rewrite Hc in Hc0. injection Hc0 as <-.
  split; [by exists c'|]. exists l. split; [exact Hl|].
  rewrite Forall_forall in Hall.
  intros hn. split; [|intros e]; intros Hin; by apply Hall in Hin.
Qed.


(** *** The hub proxies *)

Lemma same_hubs_refl a : same_hubs a a.
Proof. intros hn. by destruct (a !! hn). Qed.

Lemma same_hubs_insert a b hn w w' :
  same_hubs a b -> b !! hn = Some w -> hubProxy w' = hubProxy w ->
  (forall e, is_Some (events w' !! e) <-> is_Some (events w !! e)) ->
  same_hubs a (<[hn := w']> b).
Proof.
  intros Hab Hw Hh He hn'. specialize (Hab hn').
  destruct (decide (hn' = hn)) as [->|Hne].
  - rewrite lookup_insert_eq. rewrite Hw in Hab.
    destruct (a !! hn) as [w0|]; [|done]. destruct Hab as [Hh0 He0].
    split; [congruence|]. intros e. by rewrite He0, He.
  - by rewrite lookup_insert_ne.
Qed.

Lemma hubs_fixed_frame proxies s s' :
  _connection s' = _connection s -> hubProxies s' = hubProxies s ->
  hubs_fixed proxies s -> hubs_fixed proxies s'.
Proof. intros Hc Hp H. unfold hubs_fixed in *. by rewrite Hc, Hp. Qed.

Ltac hubs_fixed_atom :=
  intros;
  lazymatch goal with
  | H : hubs_fixed ?p ?s |- hubs_fixed ?p _ =>
      apply (hubs_fixed_frame p s); [by destruct s..|exact H]
  end.

Lemma hubs_fixed_insert proxies s proxies' hn w w' :
  hubs_fixed proxies s -> hubProxies s = Some proxies' -> proxies' !! hn = Some w ->
  hubProxy w' = hubProxy w ->
  (forall e, is_Some (events w' !! e) <-> is_Some (events w !! e)) ->
  hubs_fixed proxies (set_hubProxies (Some (<[hn := w']> proxies')) s).
Proof.
  intros [Hc (p & Hp & Hsame)] Hp' Hw Hh He. split; [by destruct s|].
  exists (<[hn := w']> proxies'). split; [by destruct s|].
  rewrite Hp' in Hp. injection Hp as <-. by eapply same_hubs_insert.
Qed.

Lemma hubs_fixed_push_listener proxies hn event l :
  preserves (hubs_fixed proxies) (push_listener hn event l).
Proof.
  intros s Hs. unfold push_listener, the_hubProxies. rewrite bind_assoc, bind_gets.
  destruct (hubProxies s) as [proxies'|] eqn:Hp; [|exact Hs]. rewrite bind_ret.
  destruct (proxies' !! hn) as [w|] eqn:Hw; [|exact Hs].
  destruct (events w !! event) as [ls|] eqn:Hev; [|by destruct (inherited event)].
  apply (hubs_fixed_insert proxies s proxies' hn w); try done.
  intros e. simpl. destruct (decide (e = event)) as [->|Hne].
  - rewrite lookup_insert_eq, Hev. split; eauto.
  - by rewrite lookup_insert_ne.
Qed.

Lemma hubs_fixed_unregister_round proxies i hn sub :
  preserves (hubs_fixed proxies) (unregister_round i hn sub).
Proof.
  intros s Hs. unfold unregister_round, the_hubProxies. rewrite bind_assoc, bind_gets.
  destruct (hubProxies s) as [proxies'|] eqn:Hp; [|exact Hs]. rewrite bind_ret.
  destruct (proxies' !! hn) as [w|] eqn:Hw; [|by destruct (foreign_hub proxies' hn)].
  destruct (events w !! eventName sub) as [ls|] eqn:Hev;
    [|by destruct (inherited (eventName sub)) as [[[]|]|]].
  apply (hubs_fixed_insert proxies s proxies' hn w); try done.
  intros e. simpl. destruct (decide (e = eventName sub)) as [->|Hne].
  - rewrite lookup_insert_eq, Hev. split; eauto.
  - by rewrite lookup_insert_ne.
Qed.

Lemma hubs_fixed_register proxies i : preserves (hubs_fixed proxies) (register i).
Proof.
  unfold_op. destruct (getMetadata i) as [props|]; [|apply preserves_throw].
  cbv zeta. destruct (_ =? _)%nat; [apply preserves_throw|].
  apply preserves_bind; [apply preserves_gets|]. intros [proxies'|].
  - destruct (proxies' !! hubName props).
    + apply preserves_bind; [|intros; apply preserves_ret].
      apply preserves_for_each. intros sub.
      destruct (method_of i (functionName sub)) as [f|].
      * apply hubs_fixed_push_listener.
      * unfold log. pres. hubs_fixed_atom.
    + destruct (foreign_hub proxies' (hubName props)).
      * apply preserves_bind; [|intros; apply preserves_ret].
        apply preserves_for_each. intros sub.
        destruct (method_of i (functionName sub)) as [f|]; [apply preserves_throw|].
        unfold log. pres. hubs_fixed_atom.
      * apply preserves_bind; [|intros []; pres].
        apply registry_matchesGroup. hubs_fixed_atom.
  - pres. hubs_fixed_atom.
Qed.

Lemma hubs_fixed_unregister proxies i : preserves (hubs_fixed proxies) (unregister i).
Proof.
  unfold_op. destruct (getMetadata i); [|apply preserves_throw].
  apply preserves_bind; [unfold the_hubProxies; pres|]. intros _.
  apply preserves_for_each. intros sub. apply hubs_fixed_unregister_round.
Qed.

Lemma hubs_fixed__connect proxies b : preserves (hubs_fixed proxies) (_connect b).
Proof.
  intros s Hs. unfold_head (_connect b). rewrite bind_gets.
  assert (hubs_fixed proxies (issue WStart s)) as Hstart by hubs_fixed_atom.
  pose proof Hs as [Hc _]. destruct (_connection s) as [c|] eqn:Hc'; [|done].
  destruct b, (reconnectingObservable s); cbv iota; try exact Hs;
    by rewrite bind_gets, Hc', bind_ret, bind_transport_promise.
Qed.

(** The hub proxies are made once.  Whatever the application and the
    transport do to a service that has a connection, the table of proxies
    keeps the hubs it has, under the same names and with lists of listeners
    for the same events: [register] and [unregister] change the listeners
    only, and no later [connect] adds or drops a hub. *)
Theorem hub_proxies_are_fixed s proxies cs :
  _connection s <> None -> hubProxies s = Some proxies ->
  exists proxies', hubProxies (run cs s) = Some proxies' /\ same_hubs proxies proxies'.
Proof.
  intros Hc Hp.
  assert (hubs_fixed proxies (run cs s)) as [_ H]; [|exact H].
  apply step_run.
  - apply hubs_fixed_register.
  - apply hubs_fixed_unregister.
  - hubs_fixed_atom.
  - hubs_fixed_atom.
  - apply hubs_fixed__connect.
  - intros s' st [Hc' Hp']. split; [|by destruct s'].
    destruct s'; simpl in *. by destruct _connection0.
  - hubs_fixed_atom.
  - hubs_fixed_atom.
  - hubs_fixed_atom.
  - hubs_fixed_atom.
  - hubs_fixed_atom.
  - hubs_fixed_atom.
  - hubs_fixed_atom.
  - hubs_fixed_atom.
  - hubs_fixed_atom.
  - hubs_fixed_atom.
  - hubs_fixed_atom.
  - hubs_fixed_atom.
  - hubs_fixed_atom.
  - hubs_fixed_atom.
  - split; [exact Hc|]. exists proxies. split; [exact Hp|apply same_hubs_refl].
Qed.


(** ** The reconnect loop *)

(** One attempt of the reconnect loop, on a service that has its options
    and its connection.  The attempt marks the service as reconnecting and
    makes a new gate.  When [options.attemptReconnects] is set it then calls
    [start()] past that gate and waits for its promise; when it is not (a
    later [connect()] has replaced the options), [_connect] hands the new
    gate back, nothing reaches the transport, and the attempt waits on its
    own gate.  While the service is marked as reconnecting, a [disconnected]
    event of the transport is ignored: no notification, no second loop. *)
Theorem reconnect_attempt s o c :
  options s = Some o -> _connection s = Some c ->
  let s1 := open_gate (set_tryingReconnect true s) in
  (HubServiceOptions.attemptReconnects o = Some true ->
   tryReconnect s
   = (inr tt, set_subscribers (subscribers s ++ [Sub (OStart (S (fresh s))) Reconnector])
                (issue WStart s1)))
  /\ (HubServiceOptions.attemptReconnects o <> Some true ->
      tryReconnect s
      = (inr tt, set_subscribers (subscribers s ++ [Sub (OGate (fresh s)) Reconnector]) s1))
  /\ (tryingReconnect s = true -> fire Disconnected s = (inr tt, s)).
Proof.
  intros Ho Hc s1.
  assert (the_options "attemptReconnects" s1 = (inr o, s1)) as Hopt
    by (by apply the_options_run).
  split_and!.
  - intros Ha. unfold_head tryReconnect. rewrite bind_modify. unfold new_gate.
    rewrite bind_modify. fold s1. rewrite (bind_inr _ _ _ _ _ Hopt), Ha. simpl default.
    unfold_head (_connect true). rewrite bind_assoc, bind_gets. cbv iota.
    rewrite !bind_assoc, bind_gets.
    assert (_connection s1 = Some c) as -> by (by destruct s).
    rewrite bind_assoc, bind_ret, bind_assoc, bind_transport_promise, bind_ret.
    erewrite subscribe_pending; [reflexivity|reflexivity|].
    apply lookup_insert_eq.
  - intros Ha. unfold_head tryReconnect. rewrite bind_modify. unfold new_gate.
    rewrite bind_modify. fold s1. rewrite (bind_inr _ _ _ _ _ Hopt).
    assert (default false (HubServiceOptions.attemptReconnects o) = false) as ->.
    { by destruct (HubServiceOptions.attemptReconnects o) as [[]|]. }
    unfold_head (_connect false). rewrite bind_assoc, bind_gets. simpl.
    by rewrite bind_ret, subscribe_gate.
  - intros Ht. unfold_head (fire Disconnected). unfold hook. rewrite bind_gets.
    destruct (hooked s); [|reflexivity].
    unfold_head disconnectedCallback. by rewrite bind_gets, Ht.
Qed.


(** ** A hub without a proxy *)

(** What the operations do with the name of a hub for which the service,
    once it has its table of proxies, holds none (the hub is not in the
    global table, or [initConnection] skipped it for its groups).

    When the name is not that of a member of [Object.prototype]: [invoke]
    throws and sends nothing.  An inbound message is ignored.  [register]
    asks [matchesGroup]: when the groups of the hub match those of the
    connection it throws, when they do not it returns [undefined] without an
    error; either way no listener is bound.  [unregister] throws a
    [TypeError] at the first declared subscription.

    When it is, the table answers with that member, which is not [null] and
    has neither [hubProxy] nor [events]: [invoke] throws a [TypeError], or,
    while a gate is open, returns an observable that waits for the gate; an
    inbound message and [unregister] throw a [TypeError]. *)
Theorem hub_without_proxy s proxies hn :
  hubProxies s = Some proxies -> proxies !! hn = None ->
  (foreign_hub proxies hn = false ->
   (forall method args,
      invoke hn method args s = (inl (JsError ("Invalid hub name " ++ hn)), s))
   /\ (forall sub args, hubMessageReceived hn sub args s = (inr tt, s))
   /\ (forall i props,
         getMetadata i = Some props -> hubName props = hn -> subscriptions props <> [] ->
         (forall b, result (matchesGroup (hubGroups props)) s = inr b ->
            result (register i) s
            = (if b then inl (JsError ("Invalid hub name " ++ hn)) else inr None))
         /\ exec (register i) s = exec (matchesGroup (hubGroups props)) s
         /\ hubProxies (exec (register i) s) = Some proxies
         /\ unregister i s
            = (inl (TypeError "Cannot read properties of undefined (reading 'events')"),
               s)))
  /\ (foreign_hub proxies hn = true ->
      (forall method args,
         invoke hn method args s
         = (match reconnectingObservable s with
            | Some g => inr (OGatedNoProxy g)
            | None => inl (cannot_read "invoke")
            end, s))
      /\ (forall sub args,
            hubMessageReceived hn sub args s = (inl (cannot_read (eventName sub)), s))
      /\ (forall i props sub subs,
            getMetadata i = Some props -> hubName props = hn ->
            subscriptions props = sub :: subs ->
            unregister i s = (inl (cannot_read (eventName sub)), s))).
Proof.
  intros Hp Hn. split; intros Hf; split_and!.
  - intros method args. unfold invoke.
    by rewrite (bind_inr _ _ _ _ _ (the_hubProxies_run _ s proxies Hp)), Hn, Hf.
  - intros sub args. unfold_head (hubMessageReceived hn sub args).
    by rewrite bind_gets, Hp, Hn, Hf.
  - intros i props Hm <- Hsubs.
    assert (register i s
            = bind (matchesGroup (hubGroups props))
                (fun ok => if negb ok then ret None
                           else throw (JsError ("Invalid hub name " ++ hubName props))) s)
      as Hreg.
    { unfold_head (register i). rewrite Hm. cbv zeta.
      destruct (length (subscriptions props) =? 0)%nat eqn:Hlen.
      { apply Nat.eqb_eq in Hlen. by destruct (subscriptions props). }
      by rewrite bind_gets, Hp, Hn, Hf. }
    split_and!.
    + intros b Hb. unfold result in *. rewrite Hreg. unfold bind.
      destruct (matchesGroup (hubGroups props) s) as [[e|b'] s']; simpl in *; [done|].
      injection Hb as ->. by destruct b.
    + unfold exec. rewrite Hreg. unfold bind.
      destruct (matchesGroup (hubGroups props) s) as [[e|b'] s']; simpl; [done|].
      by destruct b'.
    + unfold exec. rewrite Hreg.
      apply (preserves_bind (fun s' => hubProxies s' = Some proxies)); [| |exact Hp].
      * apply registry_matchesGroup. intros s' o' Hs'. by destruct s'.
      * intros []; simpl; [apply preserves_throw|apply preserves_ret].
    + unfold_head (unregister i). rewrite Hm.
      rewrite (bind_inr _ _ _ _ _ (the_hubProxies_run _ s proxies Hp)).
      destruct (subscriptions props) as [|sub subs]; [done|]. simpl.
      unfold unregister_round at 1.
      by rewrite bind_assoc, (bind_inr _ _ _ _ _ (the_hubProxies_run _ s proxies Hp)),
        Hn, Hf.
  - intros method args. unfold invoke.
    rewrite (bind_inr _ _ _ _ _ (the_hubProxies_run _ s proxies Hp)), Hn, Hf, bind_gets.
    by destruct (reconnectingObservable s).
  - intros sub args. unfold_head (hubMessageReceived hn sub args).
    by rewrite bind_gets, Hp, Hn, Hf.
  - intros i props sub subs Hm <- Hsubs. unfold_head (unregister i). rewrite Hm, Hsubs.
    rewrite (bind_inr _ _ _ _ _ (the_hubProxies_run _ s proxies Hp)). simpl.
    unfold unregister_round at 1.
    by rewrite bind_assoc, (bind_inr _ _ _ _ _ (the_hubProxies_run _ s proxies Hp)),
      Hn, Hf.
Qed.


(** ** An inbound event always finds its list of listeners *)

Lemma no_event_frame s s' :
  _connection s' = _connection s ->
  (forall h e, Wire (WOn h e) ∈ trace s' -> Wire (WOn h e) ∈ trace s) ->
  no_event_subscribed s -> no_event_subscribed s'.
Proof.
  intros Hc Ht [Hnone Hno]. split; [congruence|].
  intros h e Hin. by apply (Hno h e), Ht.
Qed.

Lemma listed_frame s s' proxies :
  hubProxies s = Some proxies ->
  _connection s' = _connection s ->
  (forall h e, Wire (WOn h e) ∈ trace s' -> Wire (WOn h e) ∈ trace s) ->
  (exists proxies', hubProxies s' = Some proxies' /\ same_hubs proxies proxies') ->
  subscribed_events_listed s -> subscribed_events_listed s'.
Proof.
  intros Hp Hc Ht (proxies' & Hp' & Hsame) [Hconn (p & Hp0 & Hl)].
  rewrite Hp in Hp0. injection Hp0 as <-.
  split; [congruence|]. exists proxies'. split; [exact Hp'|].
  intros h e Hin. destruct (Hl h e (Ht h e Hin)) as (w & ls & Hw & Hls).
  specialize (Hsame h). rewrite Hw in Hsame.
  destruct (proxies' !! h) as [w'|]; [|done]. destruct Hsame as [_ He].
  destruct (proj1 (He e)) as [ls' Hls']; [by rewrite Hls|]. by exists w', ls'.
Qed.

Lemma elem_of_trace_snoc (s : HubService) (e x : effect) :
  x ∈ trace s ++ [e] -> x <> e -> x ∈ trace s.
Proof. intros [H|H%list_elem_of_singleton]%elem_of_app Hne; done. Qed.

(** A step that leaves the connection and the proxies alone and writes no
    [on] to the trace. *)
Lemma dispatch_ready_frame s s' :
  _connection s' = _connection s -> hubProxies s' = hubProxies s ->
  (forall h e, Wire (WOn h e) ∈ trace s' -> Wire (WOn h e) ∈ trace s) ->
  dispatch_ready s -> dispatch_ready s'.
Proof.
  intros Hc Hp Ht [H|H]; [left; by apply (no_event_frame s)|right].
  pose proof H as [_ (proxies & Hp0 & _)].
  apply (listed_frame s s' proxies); try done.
  exists proxies. split; [congruence|apply same_hubs_refl].
Qed.

Ltac trace_kept s :=
  let Hev := fresh "Hev" in
  destruct s; unfold issue, open_gate; simpl; intros ? ? Hev;
  first [ exact Hev
        | by (apply elem_of_app in Hev as [Hev|Hev%list_elem_of_singleton]) ].

Ltac ready_atom :=
  intros;
  lazymatch goal with
  | H : dispatch_ready ?s |- dispatch_ready ?s' =>
      apply (dispatch_ready_frame s s');
        [by destruct s|by destruct s|trace_kept s|exact H]
  | H : no_event_subscribed ?s |- no_event_subscribed ?s' =>
      apply (no_event_frame s s'); [by destruct s|trace_kept s|exact H]
  end.

Lemma listed_insert s proxies hn w w' :
  subscribed_events_listed s -> hubProxies s = Some proxies -> proxies !! hn = Some w ->
  hubProxy w' = hubProxy w ->
  (forall e, is_Some (events w' !! e) <-> is_Some (events w !! e)) ->
  subscribed_events_listed (set_hubProxies (Some (<[hn := w']> proxies)) s).
Proof.
  intros Hs Hp Hw Hh He.
  apply (listed_frame s _ proxies); [done|by destruct s|by destruct s| |done].
  eexists. split; [reflexivity|].
  by apply (same_hubs_insert proxies proxies hn w w' (same_hubs_refl _)).
Qed.

Lemma listed_push_listener hn event l :
  preserves subscribed_events_listed (push_listener hn event l).
Proof.
  intros s Hs. unfold push_listener, the_hubProxies. rewrite bind_assoc, bind_gets.
  destruct (hubProxies s) as [proxies|] eqn:Hp; [|exact Hs]. rewrite bind_ret.
  destruct (proxies !! hn) as [w|] eqn:Hw; [|exact Hs].
  destruct (events w !! event) as [ls|] eqn:Hev; [|by destruct (inherited event)].
  apply (listed_insert s proxies hn w); try done.
  intros e. simpl. destruct (decide (e = event)) as [->|Hne].
  - rewrite lookup_insert_eq, Hev. split; eauto.
  - by rewrite lookup_insert_ne.
Qed.

Lemma listed_unregister_round i hn sub :
  preserves subscribed_events_listed (unregister_round i hn sub).
Proof.
  intros s Hs. unfold unregister_round, the_hubProxies. rewrite bind_assoc, bind_gets.
  destruct (hubProxies s) as [proxies|] eqn:Hp; [|exact Hs]. rewrite bind_ret.
  destruct (proxies !! hn) as [w|] eqn:Hw; [|by destruct (foreign_hub proxies hn)].
  destruct (events w !! eventName sub) as [ls|] eqn:Hev;
    [|by destruct (inherited (eventName sub)) as [[[]|]|]].
  apply (listed_insert s proxies hn w); try done.
  intros e. simpl. destruct (decide (e = eventName sub)) as [->|Hne].
  - rewrite lookup_insert_eq, Hev. split; eauto.
  - by rewrite lookup_insert_ne.
Qed.

Lemma listed_same s s' :
  _connection s' = _connection s -> hubProxies s' = hubProxies s -> trace s' = trace s ->
  subscribed_events_listed s -> subscribed_events_listed s'.
Proof. intros Hc Hp Ht H. unfold subscribed_events_listed in *. by rewrite Hc, Hp, Ht. Qed.

Lemma listed_trace s e :
  (forall h ev, e <> Wire (WOn h ev)) ->
  subscribed_events_listed s -> subscribed_events_listed (set_trace (trace s ++ [e]) s).
Proof.
  intros He [Hc (proxies & Hp & Hl)]. split; [by destruct s|].
  exists proxies. split; [by destruct s|]. intros h ev Hin. apply Hl.
  destruct s; simpl in *. apply elem_of_app in Hin as [Hin|Hin%list_elem_of_singleton];
    [done|]. by destruct (He h ev).
Qed.

Ltac listed_atom :=
  intros;
  lazymatch goal with
  | H : subscribed_events_listed ?s
    |- subscribed_events_listed (set_trace (trace ?s ++ [_]) ?s) =>
      by apply listed_trace
  | H : subscribed_events_listed ?s |- subscribed_events_listed _ =>
      apply (listed_same s); [by destruct s..|exact H]
  end.

Lemma listed_matchesGroup g : preserves subscribed_events_listed (matchesGroup g).
Proof. apply registry_matchesGroup. listed_atom. Qed.

Lemma listed_register i : preserves subscribed_events_listed (register i).
Proof.
  unfold_op. destruct (getMetadata i) as [props|]; [|apply preserves_throw].
  cbv zeta. destruct (_ =? _)%nat; [apply preserves_throw|].
  apply preserves_bind; [apply preserves_gets|]. intros [proxies'|].
  - destruct (proxies' !! hubName props).
    + apply preserves_bind; [|intros; apply preserves_ret].
      apply preserves_for_each. intros sub.
      destruct (method_of i (functionName sub)) as [f|].
      * apply listed_push_listener.
      * unfold log. pres. listed_atom.
    + destruct (foreign_hub proxies' (hubName props)).
      * apply preserves_bind; [|intros; apply preserves_ret].
        apply preserves_for_each. intros sub.
        destruct (method_of i (functionName sub)) as [f|]; [apply preserves_throw|].
        unfold log. pres. listed_atom.
      * apply preserves_bind; [apply listed_matchesGroup|intros []; pres].
  - pres. listed_atom.
Qed.

Lemma listed_unregister i : preserves subscribed_events_listed (unregister i).
Proof.
  unfold_op. destruct (getMetadata i); [|apply preserves_throw].
  apply preserves_bind; [unfold the_hubProxies; pres|]. intros _.
  apply preserves_for_each. intros sub. apply listed_unregister_round.
Qed.

Lemma preserves_or {A} (P Q : HubService -> Prop) (m : M A) :
  preserves P m -> preserves Q m -> preserves (fun s => P s \/ Q s) m.
Proof. intros HP HQ s [H|H]; [left; by apply HP|right; by apply HQ]. Qed.

(** A new proxy: its events are those it subscribed to. *)
Lemma createHubProxy_listed properties s :
  exists w L,
    createHubProxy properties s
    = (inr w, set_trace (trace s ++ Wire (WCreateHubProxy (hubName properties))
                           :: map (fun e => Wire (WOn (hubName properties) e)) L) s)
    /\ forall e, e ∈ L -> events w !! e = Some [].
Proof.
  unfold createHubProxy. unfold log at 1. rewrite bind_modify.
  set (s1 := set_trace _ s).
  destruct (createHubProxy_loop (hubName properties) (subscriptions properties) ∅ s1)
    as (evs' & L & Hrun & _ & _ & Hin & Hev).
  exists {| hubProxy := hubName properties; events := evs' |}, L.
  rewrite (bind_inr _ _ _ _ _ Hrun). split.
  - unfold ret, s1. f_equal. apply (set_trace_app s [_]).
  - intros e He. simpl. rewrite Hev. by rewrite decide_True.
Qed.

(** The loop of [initConnection] that makes the proxies, over hubs with
    different names none of which has a proxy yet. *)
Lemma proxies_loop l : forall s,
  NoDup (map hubName l) ->
  subscribed_events_listed s ->
  (forall p proxies, p ∈ l -> hubProxies s = Some proxies -> proxies !! hubName p = None) ->
  subscribed_events_listed
    (snd (for_each (fun properties =>
       ok <- matchesGroup (hubGroups properties) ;;
       if negb ok then ret tt
       else
         w <- createHubProxy properties ;;
         proxies <- the_hubProxies (hubName properties) ;;
         modify (set_hubProxies (Some (<[hubName properties := w]> proxies)))) l s)).
Proof.
  induction l as [|p l IH]; intros s Hnd Hs Hfree; [exact Hs|].
  apply NoDup_cons in Hnd as [Hp Hnd].
  set (body := fun properties : HubProperties => _) in *. cbn [for_each].
  assert (subscribed_events_listed (snd (body p s))
          /\ forall proxies proxies' h,
               hubProxies s = Some proxies -> hubProxies (snd (body p s)) = Some proxies' ->
               h <> hubName p -> proxies' !! h = proxies !! h) as [Hs1 Hdom].
  { subst body. cbv beta.
    pose proof (listed_matchesGroup (hubGroups p) s Hs) as Hm.
    assert (hubProxies (snd (matchesGroup (hubGroups p) s)) = hubProxies s) as Hkeep.
    { apply (registry_matchesGroup (fun s' => hubProxies s' = hubProxies s)); [|done].
      intros s' o' Hs'. by destruct s'. }
    unfold bind.
    destruct (matchesGroup (hubGroups p) s) as [[e|ok] s1]; simpl in Hm, Hkeep |- *;
    assert (forall proxies proxies' h,
              hubProxies s = Some proxies -> hubProxies s1 = Some proxies' ->
              h <> hubName p -> proxies' !! h = proxies !! h) as Hsame1
      by (intros proxies proxies' h Hp0 Hp' _; rewrite Hkeep, Hp0 in Hp';
          by injection Hp' as <-).
    { by split. }
    destruct ok; simpl; [|by split].
    destruct (createHubProxy_listed p s1) as (w & L & Hrun & Hev).
    rewrite Hrun.
    pose proof Hm as [Hc (proxies1 & Hp1 & Hl1)].
    set (s2 := set_trace _ s1).
    assert (the_hubProxies (hubName p) s2 = (inr proxies1, s2)) as Hthe
      by (apply the_hubProxies_run; by destruct s1).
    rewrite Hthe. simpl. split.
    - split; [by destruct s1|]. eexists. split; [by destruct s1|].
      intros h e Hin. destruct s1; simpl in *.
      apply elem_of_app in Hin as [Hin|Hin].
      + destruct (Hl1 h e Hin) as (w0 & ls & Hw0 & Hls). exists w0, ls.
        rewrite lookup_insert_ne; [done|]. intros <-.
        rewrite (Hfree p proxies1) in Hw0; [done|left|congruence].
      + apply elem_of_cons in Hin as [Hin|Hin]; [done|].
        apply list_elem_of_fmap in Hin as (e' & [= -> ->] & He').
        exists w, []. rewrite lookup_insert_eq. split; [done|by apply Hev].
    - intros proxies proxies' h Hp0 Hp' Hne. destruct s1; simpl in *.
      injection Hp' as <-. rewrite lookup_insert_ne by done.
      rewrite Hkeep in Hp1. rewrite Hp0 in Hp1. by injection Hp1 as <-. }
  unfold bind at 1. destruct (body p s) as [[e|[]] s1] eqn:Hbody; simpl in *; [exact Hs1|].
  apply IH; [exact Hnd|exact Hs1|].
  intros p' proxies' Hp' Hprox'.
  pose proof Hs as [_ (proxies & Hprox & _)].
  rewrite (Hdom proxies proxies' (hubName p') Hprox Hprox').
  - apply (Hfree p' proxies); [by right|done].
  - intros Heq. apply Hp. rewrite <- Heq. apply list_elem_of_fmap. by exists p'.
Qed.

Lemma dispatch_ready_initConnection s :
  NoDup (map hubName allHubProperties) ->
  no_event_subscribed s -> dispatch_ready (snd (initConnection s)).
Proof.
  intros Hnd [Hc Hno]. unfold_head initConnection. rewrite bind_modify.
  set (s1 := set_hubProxies (Some ∅) s).
  unfold the_options at 1. rewrite bind_assoc, bind_gets.
  destruct (options s1) as [o|] eqn:Ho.
  2: { left. split; [by destruct s|]. intros h e. destruct s; apply Hno. }
  rewrite bind_ret, bind_modify.
  set (s2 := set_connection _ s1).
  assert (subscribed_events_listed s2) as Hs2.
  { split; [by destruct s|]. exists ∅. split; [by destruct s|].
    intros h e Hin. destruct s; by apply Hno in Hin. }
  right.
  pose proof (proxies_loop allHubProperties s2 Hnd Hs2) as Hloop.
  unfold bind at 1.
  match goal with
  | |- context [for_each ?f allHubProperties s2] =>
      destruct (for_each f allHubProperties s2) as [[e|[]] s3] eqn:Hrun
  end; simpl in Hloop |- *.
  - apply Hloop. intros p proxies _ Hp. destruct s; simpl in Hp. injection Hp as <-.
    apply lookup_empty.
  - assert (subscribed_events_listed s3) as Hs3.
    { apply Hloop. intros p proxies _ Hp. destruct s; simpl in Hp. injection Hp as <-.
      apply lookup_empty. }
    revert Hs3. generalize s3. change (preserves subscribed_events_listed
      (deferred <- gets deferredRegistrations ;;
       for_each (fun deferredRegistration => _ <- register deferredRegistration ;; ret tt)
         deferred ;;
       modify (set_hooked true))).
    pose proof listed_register. pres; eauto; listed_atom.
Qed.

Lemma dispatch_ready__connect b :
  NoDup (map hubName allHubProperties) -> preserves dispatch_ready (_connect b).
Proof.
  intros Hnd s Hs. unfold_head (_connect b). rewrite bind_gets.
  assert (forall s', dispatch_ready s' -> dispatch_ready (issue WStart s')) as Hstart
    by ready_atom.
  assert (dispatch_ready
            (snd ((c <- gets _connection ;;
                   match c with None => initConnection | Some _ => ret tt end ;;
                   p <- transport_promise WStart ;; ret (OStart p)) s))) as Hgo.
  { rewrite bind_gets. destruct (_connection s) as [c|] eqn:Hc.
    - rewrite bind_ret, bind_transport_promise. by apply Hstart.
    - destruct Hs as [Hs|[Hs _]]; [|done].
      pose proof (dispatch_ready_initConnection s Hnd Hs) as Hinit.
      unfold bind at 1. destruct (initConnection s) as [[e|[]] s1]; simpl in Hinit;
        cbv beta iota; [exact Hinit|].
      rewrite bind_transport_promise. by apply Hstart. }
  destruct b, (reconnectingObservable s); cbv iota; first [exact Hs|exact Hgo].
Qed.



Lemma dispatch_ready_state s st :
  dispatch_ready s ->
  dispatch_ready
    (set_connection
       (match _connection s with
        | Some c => Some {| conn_url := conn_url c; conn_qs := conn_qs c;
                            conn_state := st |}
        | None => None
        end) s).
Proof.
  intros [[Hc Hno]|[Hc (p & Hp & Hl)]]; [left|right].
  - split; [destruct s; simpl in *; by rewrite Hc|].
    intros h e. destruct s; simpl in *. apply Hno.
  - split; [destruct s; simpl in *; by case_match|].
    exists p. split; [by destruct s|].
    intros h e. destruct s; simpl in *. apply Hl.
Qed.

(** What comes out of the loop over the listeners: it ends, or the report
    of an error that has no string form throws, or the loop does not end. *)
Lemma dispatch_outcome h sub args fuel : forall i s,
  fst (dispatch fuel h sub args i s) = inr tt
  \/ fst (dispatch fuel h sub args i s)
     = inl (TypeError "Cannot convert a Symbol value to a string")
  \/ fst (dispatch fuel h sub args i s) = inl Hang.
Proof.
  induction fuel as [|fuel IH]; intros i s; rewrite dispatch_round;
    destruct (_ !! i) as [func|]; auto.
  match goal with
  | |- context [bind ?m _ s] => destruct (m s) as [[e|[]] s1] eqn:Htc
  end.
  - rewrite (bind_inl _ _ _ _ _ Htc). right. left. simpl. f_equal.
    unfold try_catch in Htc. destruct (call_listener func args s) as [[err|[]] s2];
      [|done].
    unfold report in Htc. destruct (stringable (exn_value err)); [done|].
    by injection Htc as <- _.
  - rewrite (bind_inr _ _ _ _ _ Htc). apply IH.
Qed.

(** Once the service has subscribed to an event on the transport, an
    inbound message for that event always reaches the loop over the
    listeners: the proxy of the hub is there and holds a list of listeners
    for the event, whatever was registered, unregistered or reconnected
    since.  So [hubMessageReceived] throws into the transport only when the
    report of an error thrown by a listener throws (the error has no string
    form), or not at all when the loop does not end; with listeners that
    ask nothing of the service and throw only errors that have a string form
    it returns.  The hubs of the global table have different names, as the
    decorators see to. *)
Theorem dispatch_finds_its_listeners cs h sub args :
  NoDup (map hubName allHubProperties) ->
  Wire (WOn h (eventName sub)) ∈ trace (run cs initial) ->
  let s := run cs initial in
  hubMessageReceived h sub args s = dispatch loop_limit h sub args 0 s
  /\ (result (hubMessageReceived h sub args) s = inr tt
      \/ result (hubMessageReceived h sub args) s
         = inl (TypeError "Cannot convert a Symbol value to a string")
      \/ result (hubMessageReceived h sub args) s = inl Hang)
  /\ ((forall func, func ∈ listeners s h (eventName sub) ->
         quiet (apply_callback (callback_of func) (thisObj func) args)) ->
      length (listeners s h (eventName sub)) <= loop_limit ->
      result (hubMessageReceived h sub args) s = inr tt).
Proof.
  intros Hnd Hin. cbv zeta.
  assert (hubMessageReceived h sub args (run cs initial)
          = dispatch loop_limit h sub args 0 (run cs initial)) as Heq.
  { assert (dispatch_ready (run cs initial)) as [[_ Hno]|[_ (proxies & Hp & Hl)]].
    { apply step_run.
      - intros i. apply preserves_or; [|apply listed_register].
        apply registry_register; ready_atom.
      - intros i. apply preserves_or; [|apply listed_unregister].
        apply registry_unregister; ready_atom.
      - ready_atom.
      - ready_atom.
      - intros b. by apply dispatch_ready__connect.
      - intros s st. apply dispatch_ready_state.
      - ready_atom.
      - ready_atom.
      - ready_atom.
      - ready_atom.
      - ready_atom.
      - ready_atom.
      - ready_atom.
      - ready_atom.
      - ready_atom.
      - ready_atom.
      - ready_atom.
      - ready_atom.
      - ready_atom.
      - ready_atom.
      - left. split; [done|]. intros h' e. apply not_elem_of_nil. }
    - by destruct (Hno h (eventName sub)).
    - destruct (Hl _ _ Hin) as (w & ls & Hw & Hls).
      unfold_head (hubMessageReceived h sub args).
      by rewrite bind_gets, Hp, Hw, Hls. }
  unfold result. rewrite Heq. split_and!; [reflexivity|apply dispatch_outcome|].
  intros Hq Hlen.
  rewrite (dispatch_quiet h sub args (listeners (run cs initial) h (eventName sub)));
    [done|done|done|lia].
Qed.

End Properties.

(** * The decorators *)

Module DecoratorFacts.
Import Decorators.

Lemma obj_update_eq r f w : obj (update r f w) r = f (obj w r).
Proof. unfold obj at 1, update. simpl. by rewrite lookup_insert_eq. Qed.

Lemma obj_update_ne r r' f w : r' <> r -> obj (update r f w) r' = obj w r'.
Proof. intros Hne. unfold obj, update. simpl. by rewrite lookup_insert_ne. Qed.

Lemma obj_alloc_eq o w : obj (snd (alloc o w)) (next w) = o.
Proof. unfold obj, alloc. simpl. by rewrite lookup_insert_eq. Qed.

Lemma obj_alloc_ne o w r : r <> next w -> obj (snd (alloc o w)) r = obj w r.
Proof. intros Hne. unfold obj, alloc. simpl. by rewrite lookup_insert_ne. Qed.

Section Prototypes.

Variable ancestors : target -> list target.

Local Abbreviation getMetadata := (getMetadata ancestors).
Local Abbreviation getOrCreateHubProperties := (getOrCreateHubProperties ancestors).
Local Abbreviation Hub := (Hub ancestors).
Local Abbreviation HubSubscription := (HubSubscription ancestors).
Local Abbreviation decorate := (decorate ancestors).
Local Abbreviation decorate_all := (decorate_all ancestors).

Lemma getMetadata_Some w t r :
  getMetadata w t = Some r -> exists t', metadata w !! t' = Some r.
Proof.
  unfold Decorators.getMetadata. intros H.
  assert (r ∈ omap (fun t' => metadata w !! t') (t :: ancestors t)) as Hin.
  { destruct (omap _ _) as [|x l]; [done|]. injection H as ->. left. }
  apply list_elem_of_omap in Hin as (t' & _ & Ht'). by exists t'.
Qed.

Lemma getMetadata_None w t : getMetadata w t = None -> metadata w !! t = None.
Proof.
  unfold Decorators.getMetadata. simpl. by destruct (metadata w !! t).
Qed.

Lemma getMetadata_own w t r : metadata w !! t = Some r -> getMetadata w t = Some r.
Proof. unfold Decorators.getMetadata. simpl. by intros ->. Qed.

(** What [getOrCreateHubProperties] returns and leaves behind when the
    object literal it is given has just been evaluated. *)
Lemma getOrCreate_found w0 a t r :
  (forall t' r', metadata w0 !! t' = Some r' ->
                 r' < next w0 /\ is_Some (o_subscriptions (obj w0 r'))) ->
  getMetadata w0 t = Some r ->
  exists w2,
    getOrCreateHubProperties t (next w0) (snd (alloc a w0)) = (r, w2)
    /\ metadata w2 = metadata w0 /\ table w2 = table w0 /\ next w2 = S (next w0)
    /\ obj w2 r
       = {| o_hubName := if falsy_string (o_hubName (obj w0 r)) then o_hubName a
                         else o_hubName (obj w0 r);
            o_hubGroups := if falsy_groups (o_hubGroups (obj w0 r)) then o_hubGroups a
                           else o_hubGroups (obj w0 r);
            o_subscriptions := o_subscriptions (obj w0 r) |}
    /\ (forall r', r' <> r -> r' <> next w0 -> obj w2 r' = obj w0 r').
Proof.
  intros Hmeta Hget.
  destruct (getMetadata_Some _ _ _ Hget) as (t' & Ht').
  destruct (Hmeta _ _ Ht') as [Hlt [subs Hsubs]].
  set (w1 := snd (alloc a w0)).
  assert (obj w1 r = obj w0 r) as Hr by (apply obj_alloc_ne; lia).
  assert (obj w1 (next w0) = a) as Harg by apply obj_alloc_eq.
  unfold Decorators.getOrCreateHubProperties.
  assert (getMetadata w1 t = Some r) as -> by exact Hget.
  cbv beta iota zeta. rewrite Hr, Hsubs. cbv iota. rewrite ?Hr.
  set (w2 := if falsy_string _ then _ else w1).
  assert (metadata w2 = metadata w0 /\ table w2 = table w0 /\ next w2 = S (next w0)
          /\ obj w2 (next w0) = a
          /\ obj w2 r = set_hubName (if falsy_string (o_hubName (obj w0 r))
                                     then o_hubName a else o_hubName (obj w0 r)) (obj w0 r)
          /\ forall r', r' <> r -> r' <> next w0 -> obj w2 r' = obj w0 r')
    as (Hm2 & Ht2 & Hn2 & Harg2 & Hr2 & Ho2).
  { subst w2. destruct (falsy_string (o_hubName (obj w0 r))).
    - rewrite Harg. split_and!; try done.
      + rewrite obj_update_ne by lia. exact Harg.
      + by rewrite obj_update_eq, Hr.
      + intros r' H1 H2. rewrite obj_update_ne by done. by apply obj_alloc_ne.
    - split_and!; try done.
      + rewrite Hr. by destruct (obj w0 r).
      + intros r' H1 H2. by apply obj_alloc_ne. }
  eexists. split; [reflexivity|].
  rewrite Hr2. cbn [o_hubGroups set_hubName].
  destruct (falsy_groups (o_hubGroups (obj w0 r))).
  - rewrite Harg2. split_and!; try done.
    + rewrite obj_update_eq, Hr2. unfold set_hubGroups, set_hubName. simpl. by rewrite Hsubs.
    + intros r' H1 H2. rewrite obj_update_ne by done. by apply Ho2.
  - split_and!; try done. rewrite Hr2. unfold set_hubName. simpl. by rewrite Hsubs.
Qed.

Lemma getOrCreate_new w0 a t :
  getMetadata w0 t = None ->
  exists w2,
    getOrCreateHubProperties t (next w0) (snd (alloc a w0)) = (next w0, w2)
    /\ metadata w2 = <[t := next w0]> (metadata w0)
    /\ table w2 = table w0 /\ next w2 = S (next w0)
    /\ obj w2 (next w0)
       = {| o_hubName := o_hubName a; o_hubGroups := o_hubGroups a;
            o_subscriptions := Some (default [] (o_subscriptions a)) |}
    /\ (forall r', r' <> next w0 -> obj w2 r' = obj w0 r').
Proof.
  intros Hget. set (w1 := snd (alloc a w0)).
  unfold Decorators.getOrCreateHubProperties.
  assert (getMetadata w1 t = None) as -> by exact Hget.
  cbv beta iota zeta.
  set (w1' := defineMetadata t (next w0) w1).
  assert (forall r, obj w1' r = obj w1 r) as Hsame by reflexivity.
  assert (obj w1 (next w0) = a) as Harg by apply obj_alloc_eq.
  rewrite Hsame, Harg.
  set (w2 := match o_subscriptions a with None => _ | Some _ => w1' end).
  assert (metadata w2 = <[t := next w0]> (metadata w0) /\ table w2 = table w0
          /\ next w2 = S (next w0)
          /\ obj w2 (next w0) = set_subscriptions (default [] (o_subscriptions a)) a
          /\ forall r', r' <> next w0 -> obj w2 r' = obj w0 r')
    as (Hm2 & Ht2 & Hn2 & Harg2 & Ho2).
  { subst w2. destruct (o_subscriptions a) as [l|] eqn:Hl.
    - split_and!; try done.
      + rewrite Hsame, Harg. destruct a. simpl in *. by subst.
      + intros r' Hne. rewrite Hsame. by apply obj_alloc_ne.
    - split_and!; try done.
      + by rewrite obj_update_eq, Hsame, Harg.
      + intros r' Hne. rewrite obj_update_ne, Hsame by done. by apply obj_alloc_ne. }
  rewrite Harg2. cbn [o_hubName set_subscriptions].
  set (w3 := if falsy_string _ then _ else w2).
  assert (metadata w3 = <[t := next w0]> (metadata w0) /\ table w3 = table w0
          /\ next w3 = S (next w0)
          /\ obj w3 (next w0) = set_subscriptions (default [] (o_subscriptions a)) a
          /\ forall r', r' <> next w0 -> obj w3 r' = obj w0 r')
    as (Hm3 & Ht3 & Hn3 & Harg3 & Ho3).
  { subst w3. destruct (falsy_string (o_hubName a)); [|done].
    split_and!; try done.
    + by rewrite obj_update_eq, Harg2.
    + intros r' Hne. rewrite obj_update_ne by done. by apply Ho2. }
  eexists. split; [reflexivity|].
  rewrite Harg3. cbn [o_hubGroups set_subscriptions].
  destruct (falsy_groups (o_hubGroups a)).
  - split_and!; try done.
    + by rewrite obj_update_eq, Harg3.
    + intros r' Hne. rewrite obj_update_ne by done. by apply Ho3.
  - by split_and!.
Qed.


(** The objects that are metadata were allocated and have their array of
    subscriptions. *)
Local Abbreviation metadata_ok w :=
  (forall t r, metadata w !! t = Some r ->
     r < next w /\ is_Some (o_subscriptions (obj w r))).

(** [getOrCreateHubProperties] on a literal just evaluated, for the
    invariant. *)
Lemma getOrCreate_summary w0 a t :
  metadata_ok w0 ->
  exists hp w2,
    getOrCreateHubProperties t (next w0) (snd (alloc a w0)) = (hp, w2)
    /\ table w2 = table w0 /\ next w2 = S (next w0)
    /\ metadata_ok w2
    /\ (forall t' r', metadata w0 !! t' = Some r' -> metadata w2 !! t' = Some r')
    /\ (exists t', metadata w2 !! t' = Some hp)
    /\ (forall r', r' < next w0 ->
          o_subscriptions (obj w2 r') = o_subscriptions (obj w0 r')
          /\ (falsy_string (o_hubName (obj w0 r')) = false ->
              o_hubName (obj w2 r') = o_hubName (obj w0 r'))
          /\ (falsy_string (o_hubName (obj w0 r')) = true ->
              falsy_string (o_hubName a) = true ->
              falsy_string (o_hubName (obj w2 r')) = true))
    /\ (falsy_string (o_hubName a) = false ->
        falsy_string (o_hubName (obj w2 hp)) = false).
Proof.
  intros Hmeta. destruct (getMetadata w0 t) as [r|] eqn:Hget.
  - destruct (getOrCreate_found w0 a t r Hmeta Hget)
      as (w2 & Hrun & Hm & Ht & Hn & Hr & Ho).
    destruct (getMetadata_Some _ _ _ Hget) as (t0 & Ht0).
    destruct (Hmeta _ _ Ht0) as [Hlt Hsubs].
    exists r, w2. split_and!; try done.
    + intros t' r' Hr'. rewrite Hm in Hr'. destruct (Hmeta _ _ Hr') as [Hlt' Hs'].
      split; [lia|]. destruct (decide (r' = r)) as [->|Hne].
      * by rewrite Hr.
      * rewrite Ho; [done|done|lia].
    + intros t' r' Hr'. by rewrite Hm.
    + exists t0. by rewrite Hm.
    + intros r' Hlt'. destruct (decide (r' = r)) as [->|Hne].
      * rewrite Hr. simpl. split_and!; [done| |].
        -- by intros ->.
        -- by intros -> ?.
      * rewrite Ho; [done|done|lia].
    + intros Ha. rewrite Hr. simpl.
      by destruct (falsy_string (o_hubName (obj w0 r))) eqn:Hf.
  - destruct (getOrCreate_new w0 a t Hget) as (w2 & Hrun & Hm & Ht & Hn & Hr & Ho).
    pose proof (getMetadata_None _ _ Hget) as Hown.
    exists (next w0), w2. split_and!; try done.
    + intros t' r'. rewrite Hm. destruct (decide (t' = t)) as [->|Hne].
      * rewrite lookup_insert_eq. intros [= <-]. split; [lia|]. rewrite Hr. simpl. eauto.
      * rewrite lookup_insert_ne by done. intros Hr'.
        destruct (Hmeta _ _ Hr') as [Hlt' Hs']. split; [lia|].
        rewrite Ho by lia. done.
    + intros t' r' Hr'. rewrite Hm. rewrite lookup_insert_ne; [done|].
      intros ->. congruence.
    + exists t. rewrite Hm. apply lookup_insert_eq.
    + intros r' Hlt'. rewrite Ho by lia. done.
    + intros Ha. by rewrite Hr.
Qed.

Lemma find_ext_in {A} (f g : A -> bool) l :
  (forall x, x ∈ l -> f x = g x) -> find f l = find g l.
Proof.
  induction l as [|x l IH]; intros H; simpl; [done|].
  rewrite (H x) by left. destruct (g x); [done|]. apply IH. intros y Hy. apply H. by right.
Qed.

Lemma Hub_well_formed w0 p t :
  well_formed w0 -> falsy_string (o_hubName p) = false ->
  exists w, Hub p t w0 = inr w /\ well_formed w.
Proof.
  intros (Hmeta & Htable & Hnodup) Hp.
  destruct (getOrCreate_summary w0 p t Hmeta)
    as (hp & w2 & Hrun & Ht & Hn & Hmeta2 & Hkeep & (thp & Hhp) & Hold & Hname).
  specialize (Hname Hp).
  unfold Decorators.Hub. change (alloc p w0) with (next w0, snd (alloc p w0)).
  cbv beta iota zeta. rewrite Hrun. cbv beta iota zeta. unfold push_or_merge.
  assert (forall r, r ∈ table w0 -> r < next w0) as Hlt.
  { intros r Hr. destruct (Htable r Hr) as [(t' & Ht') _]. by apply (Hmeta t'). }
  assert (forall r, r ∈ table w0 -> o_hubName (obj w2 r) = o_hubName (obj w0 r)) as Hnames.
  { intros r Hr. apply Hold; [by apply Hlt|]. by apply Htable. }
  destruct (find _ (table w2)) as [existing|] eqn:Hfind.
  - apply find_some in Hfind as [Hin _]. apply list_elem_of_In in Hin. rewrite Ht in Hin.
    destruct (Htable _ Hin) as [(te & Hte) Hfe].
    destruct (Hmeta2 te existing (Hkeep _ _ Hte)) as [_ [theirs ->]].
    destruct (Hmeta2 _ _ Hhp) as [_ [ours ->]].
    eexists. split; [reflexivity|].
    set (w3 := update existing _ w2).
    assert (forall r, o_hubName (obj w3 r) = o_hubName (obj w2 r)) as Hn3.
    { intros r. subst w3. destruct (decide (r = existing)) as [->|Hne].
      - by rewrite obj_update_eq.
      - by rewrite obj_update_ne. }
    split_and!.
    + intros t' r' Hr'. destruct (Hmeta2 t' r' Hr') as [Hlt' Hs']. split; [done|].
      subst w3. destruct (decide (r' = existing)) as [->|Hne].
      * rewrite obj_update_eq. simpl. eauto.
      * by rewrite obj_update_ne.
    + intros r Hr. change (table w3) with (table w2) in Hr. rewrite Ht in Hr.
      destruct (Htable r Hr) as [(t' & Ht') Hf]. split.
      * exists t'. by apply Hkeep.
      * by rewrite Hn3, Hnames.
    + change (table w3) with (table w2). rewrite Ht.
      erewrite map_ext_in; [exact Hnodup|].
      intros r Hr%list_elem_of_In. by rewrite Hn3, Hnames.
  - eexists. split; [reflexivity|]. split_and!.
    + exact Hmeta2.
    + simpl. intros r [Hr| ->%list_elem_of_singleton]%elem_of_app.
      * rewrite Ht in Hr. destruct (Htable r Hr) as [(t' & Ht') Hf]. split.
        -- exists t'. by apply Hkeep.
        -- change (falsy_string (o_hubName (obj w2 r)) = false). by rewrite Hnames.
      * split; [by exists thp|exact Hname].
    + simpl. rewrite map_app. simpl. apply NoDup_app. split_and!.
      * change (NoDup (map (fun r => o_hubName (obj w2 r)) (table w2))). rewrite Ht.
        erewrite map_ext_in; [exact Hnodup|].
        intros r Hr%list_elem_of_In. by rewrite Hnames.
      * intros x Hx ->%list_elem_of_singleton.
        apply list_elem_of_fmap in Hx as (r & Heq & Hr).
        pose proof (find_none _ _ Hfind r) as Hnone.
        rewrite <- list_elem_of_In in Hnone. specialize (Hnone Hr).
        apply bool_decide_eq_false in Hnone. by apply Hnone.
      * apply NoDup_singleton.
Qed.

Lemma HubSubscription_well_formed w0 e t key :
  well_formed w0 ->
  exists w, HubSubscription e t key w0 = inr w /\ well_formed w.
Proof.
  intros (Hmeta & Htable & Hnodup).
  destruct (getOrCreate_summary w0 blank t Hmeta)
    as (hp & w2 & Hrun & Ht & Hn & Hmeta2 & Hkeep & (thp & Hhp) & Hold & _).
  unfold Decorators.HubSubscription.
  change (alloc blank w0) with (next w0, snd (alloc blank w0)).
  cbv beta iota zeta. rewrite Hrun. cbv beta iota zeta.
  destruct (Hmeta2 _ _ Hhp) as [_ [subs ->]].
  eexists. split; [reflexivity|].
  set (w3 := update hp _ w2).
  assert (forall r, o_hubName (obj w3 r) = o_hubName (obj w2 r)) as Hn3.
  { intros r. subst w3. destruct (decide (r = hp)) as [->|Hne].
    - by rewrite obj_update_eq.
    - by rewrite obj_update_ne. }
  assert (forall r, r ∈ table w0 -> o_hubName (obj w3 r) = o_hubName (obj w0 r)) as Hnames.
  { intros r Hr. rewrite Hn3. destruct (Htable r Hr) as [(t' & Ht') Hf].
    apply Hold; [by apply (Hmeta t')|done]. }
  split_and!.
  - intros t' r' Hr'. destruct (Hmeta2 t' r' Hr') as [Hlt' Hs']. split; [done|].
    subst w3. destruct (decide (r' = hp)) as [->|Hne].
    + rewrite obj_update_eq. simpl. eauto.
    + by rewrite obj_update_ne.
  - intros r Hr. change (table w3) with (table w2) in Hr. rewrite Ht in Hr.
    destruct (Htable r Hr) as [(t' & Ht') Hf]. split.
    + exists t'. by apply Hkeep.
    + by rewrite Hnames.
  - change (table w3) with (table w2). rewrite Ht.
    erewrite map_ext_in; [exact Hnodup|].
    intros r Hr%list_elem_of_In. by rewrite Hnames.
Qed.

Lemma well_formed_empty : well_formed unloaded.
Proof.
  split_and!.
  - intros t r. unfold unloaded. simpl. by rewrite lookup_empty.
  - intros r Hr. by apply elem_of_nil in Hr.
  - constructor.
Qed.

Lemma decorate_all_well_formed ds : forall w0,
  well_formed w0 -> Forall named ds ->
  exists w, decorate_all ds w0 = inr w /\ well_formed w.
Proof.
  induction ds as [|d ds IH]; intros w0 Hw Hds; simpl.
  - by exists w0.
  - apply Forall_cons in Hds as [Hd Hds].
    assert (exists w1, decorate d w0 = inr w1 /\ well_formed w1) as (w1 & -> & Hw1).
    { destruct d as [p t|e t key]; simpl.
      - by apply Hub_well_formed.
      - by apply HubSubscription_well_formed. }
    by apply IH.
Qed.

(** However the classes of a program are decorated, as long as each [Hub]
    is given a name: no decorator throws, every object of the table
    [allHubProperties] has a name and its array of subscriptions, and no two
    objects of the table have the same name, so that [initConnection] makes
    one proxy for each. *)
Theorem decorators_keep_hub_names_unique ds :
  Forall named ds ->
  exists w, decorate_all ds unloaded = inr w
    /\ well_formed w
    /\ NoDup (map hubName (Decorators.allHubProperties w)).
Proof.
  intros Hds.
  destruct (decorate_all_well_formed ds _ well_formed_empty Hds) as (w & Hrun & Hw).
  exists w. split_and!; [done|done|].
  destruct Hw as (_ & Htable & Hnodup).
  unfold Decorators.allHubProperties. rewrite map_map. simpl.
  assert (map (fun r => o_hubName (obj w r)) (table w)
          = map Some (map (fun r => default "" (o_hubName (obj w r))) (table w))) as Heq.
  { rewrite map_map. apply map_ext_in. intros r Hr%list_elem_of_In.
    destruct (Htable r Hr) as [_ Hf]. by destruct (o_hubName (obj w r)). }
  rewrite Heq in Hnodup. by apply (NoDup_fmap_1 Some) in Hnodup.
Qed.


(** *** Decorating one class *)

Lemma decorate_all_app ds1 ds2 w :
  decorate_all (ds1 ++ ds2) w
  = match decorate_all ds1 w with
    | inl e => inl e
    | inr w' => decorate_all ds2 w'
    end.
Proof.
  revert w. induction ds1 as [|d ds1 IH]; intros w; simpl; [done|].
  by destruct (Decorators.decorate ancestors d w).
Qed.

Lemma decorate_all_one d w : decorate_all [d] w = decorate d w.
Proof. simpl. by destruct (Decorators.decorate ancestors d w). Qed.

Lemma getMetadata_same w w' t : metadata w' = metadata w -> getMetadata w' t = getMetadata w t.
Proof. unfold Decorators.getMetadata. by intros ->. Qed.

(** The first decorated method of a class makes the metadata. *)
Lemma HubSubscription_first w t e key :
  metadata_ok w -> getMetadata w t = None ->
  exists w',
    HubSubscription e t key w = inr w'
    /\ metadata_ok w' /\ getMetadata w' t = Some (next w)
    /\ table w' = table w /\ next w' = S (next w)
    /\ obj w' (next w)
       = {| o_hubName := None; o_hubGroups := GNull;
            o_subscriptions := Some [subscription_for e key] |}
    /\ (forall r', r' < next w -> obj w' r' = obj w r').
Proof.
  intros Hmeta Hget.
  destruct (getOrCreate_new w blank t Hget) as (w2 & Hrun & Hm & Ht & Hn & Hr & Ho).
  unfold Decorators.HubSubscription.
  change (alloc blank w) with (next w, snd (alloc blank w)).
  cbv beta iota zeta. rewrite Hrun. cbv beta iota zeta. rewrite Hr. simpl.
  eexists. split; [reflexivity|].
  set (w3 := update (next w) _ w2).
  split_and!; try done.
  - intros t' r'. change (metadata w3) with (metadata w2). rewrite Hm.
    destruct (decide (t' = t)) as [->|Hne].
    + rewrite lookup_insert_eq. intros [= <-]. change (next w3) with (next w2).
      split; [lia|]. subst w3. rewrite obj_update_eq. simpl. eauto.
    + rewrite lookup_insert_ne by done. intros Hr'.
      destruct (Hmeta _ _ Hr') as [Hlt Hs]. change (next w3) with (next w2).
      split; [lia|]. subst w3. rewrite obj_update_ne, Ho by lia. done.
  - apply getMetadata_own. change (metadata w3) with (metadata w2). rewrite Hm.
    apply lookup_insert_eq.
  - subst w3. by rewrite obj_update_eq, Hr.
  - intros r' Hlt. subst w3. rewrite obj_update_ne, Ho by lia. done.
Qed.

(** Each further decorated method adds its subscription. *)
Lemma HubSubscription_more w t r acc e key :
  metadata_ok w -> getMetadata w t = Some r ->
  obj w r = {| o_hubName := None; o_hubGroups := GNull; o_subscriptions := Some acc |} ->
  exists w',
    HubSubscription e t key w = inr w'
    /\ metadata_ok w' /\ getMetadata w' t = Some r
    /\ table w' = table w /\ next w' = S (next w)
    /\ obj w' r
       = {| o_hubName := None; o_hubGroups := GNull;
            o_subscriptions := Some (acc ++ [subscription_for e key]) |}
    /\ (forall r', r' <> r -> r' < next w -> obj w' r' = obj w r').
Proof.
  intros Hmeta Hget Hobj.
  destruct (getOrCreate_found w blank t r Hmeta Hget)
    as (w2 & Hrun & Hm & Ht & Hn & Hr & Ho).
  rewrite Hobj in Hr. simpl in Hr.
  unfold Decorators.HubSubscription.
  change (alloc blank w) with (next w, snd (alloc blank w)).
  cbv beta iota zeta. rewrite Hrun. cbv beta iota zeta. rewrite Hr. simpl.
  eexists. split; [reflexivity|].
  set (w3 := update r _ w2).
  split_and!; try done.
  - intros t' r'. change (metadata w3) with (metadata w2). rewrite Hm. intros Hr'.
    destruct (Hmeta _ _ Hr') as [Hlt Hs]. change (next w3) with (next w2).
    split; [lia|]. subst w3. destruct (decide (r' = r)) as [->|Hne].
    + rewrite obj_update_eq. simpl. eauto.
    + rewrite obj_update_ne, Ho by lia. done.
  - rewrite <- Hget. apply getMetadata_same. by rewrite <- Hm.
  - subst w3. by rewrite obj_update_eq, Hr.
  - intros r' Hne Hlt. subst w3. rewrite obj_update_ne, Ho by lia. done.
Qed.

Lemma methods_more t r ms : forall w acc,
  metadata_ok w -> getMetadata w t = Some r ->
  obj w r = {| o_hubName := None; o_hubGroups := GNull; o_subscriptions := Some acc |} ->
  exists w',
    decorate_all (map (fun em => DHubSubscription em.1 t em.2) ms) w = inr w'
    /\ metadata_ok w' /\ getMetadata w' t = Some r
    /\ table w' = table w /\ next w <= next w'
    /\ obj w' r
       = {| o_hubName := None; o_hubGroups := GNull;
            o_subscriptions := Some (acc ++ map (fun em => subscription_for em.1 em.2) ms) |}
    /\ (forall r', r' <> r -> r' < next w -> obj w' r' = obj w r').
Proof.
  induction ms as [|em ms IH]; intros w acc Hmeta Hget Hobj; simpl.
  - exists w. rewrite app_nil_r. by split_and!.
  - destruct (HubSubscription_more w t r acc em.1 em.2 Hmeta Hget Hobj)
      as (w1 & -> & Hmeta1 & Hget1 & Ht1 & Hn1 & Hobj1 & Ho1).
    destruct (IH w1 _ Hmeta1 Hget1 Hobj1) as (w' & Hrun & Hmeta' & Hget' & Ht' & Hn' & Hobj' & Ho').
    exists w'. split_and!; try done.
    + congruence.
    + lia.
    + by rewrite Hobj', <- app_assoc.
    + intros r' Hne Hlt. rewrite Ho', Ho1; [done|done|lia|done|lia].
Qed.

(** The state in which the second half of [Hub] runs, for a class without
    metadata on its prototype chain. *)
Lemma class_reaches_table w0 t p ms :
  metadata_ok w0 -> getMetadata w0 t = None ->
  exists hp w2,
    decorate_all (map (fun em => DHubSubscription em.1 t em.2) ms ++ [DHub p t]) w0
    = push_or_merge hp w2
    /\ getMetadata w2 t = Some hp /\ next w0 <= hp /\ table w2 = table w0
    /\ obj w2 hp
       = {| o_hubName := o_hubName p; o_hubGroups := o_hubGroups p;
            o_subscriptions :=
              Some (match ms with
                    | [] => default [] (o_subscriptions p)
                    | _ => map (fun em => subscription_for em.1 em.2) ms
                    end) |}
    /\ (forall r', r' < next w0 -> obj w2 r' = obj w0 r').
Proof.
  intros Hmeta Hget. destruct ms as [|em ms].
  - destruct (getOrCreate_new w0 p t Hget) as (w2 & Hrun & Hm & Ht & Hn & Hr & Ho).
    exists (next w0), w2. cbn [map app]. rewrite decorate_all_one.
    cbn [Decorators.decorate]. unfold Decorators.Hub.
    change (alloc p w0) with (next w0, snd (alloc p w0)).
    cbv beta iota zeta. rewrite Hrun. cbv beta iota zeta.
    split_and!; try done.
    + apply getMetadata_own. rewrite Hm. apply lookup_insert_eq.
    + intros r' Hlt. apply Ho. lia.
  - destruct (HubSubscription_first w0 t em.1 em.2 Hmeta Hget)
      as (w1 & Hrun1 & Hmeta1 & Hget1 & Ht1 & Hn1 & Hobj1 & Ho1).
    destruct (methods_more t (next w0) ms w1 _ Hmeta1 Hget1 Hobj1)
      as (w1' & Hrun1' & Hmeta1' & Hget1' & Ht1' & Hn1' & Hobj1' & Ho1').
    destruct (getOrCreate_found w1' p t (next w0) Hmeta1' Hget1')
      as (w2 & Hrun & Hm & Ht & Hn & Hr & Ho).
    exists (next w0), w2.
    assert (decorate_all (map (fun em => DHubSubscription em.1 t em.2) (em :: ms)) w0
            = inr w1') as Hms.
    { cbn [map Decorators.decorate_all Decorators.decorate]. by rewrite Hrun1. }
    rewrite decorate_all_app, Hms, decorate_all_one. cbn [Decorators.decorate].
    unfold Decorators.Hub.
    change (alloc p w1') with (next w1', snd (alloc p w1')).
    cbv beta iota zeta. rewrite Hrun. cbv beta iota zeta.
    split_and!; try done.
    + rewrite <- Hget1'. apply getMetadata_same. by rewrite <- Hm.
    + congruence.
    + rewrite Hr, Hobj1'. reflexivity.
    + intros r' Hlt. rewrite Ho, Ho1', Ho1; [done|lia..].
Qed.

(** A class whose prototype chain has no metadata yet is decorated the
    way TypeScript does it: [HubSubscription] on its methods [ms], then
    [Hub(p)] on the class.  The metadata of the class gets the name and the
    groups given to [Hub] and the subscriptions of the decorated methods,
    each under the event name given to [HubSubscription] or else under the
    name of the method; the [subscriptions] given to [Hub] count only when
    no method is decorated.  When the table has no object of that name the
    metadata object itself is appended to it; otherwise the table keeps its
    objects and the first object of that name also gets the subscriptions
    of the class. *)
Theorem class_decoration w0 t p ms :
  well_formed w0 -> getMetadata w0 t = None ->
  let subs := match ms with
              | [] => default [] (o_subscriptions p)
              | _ => map (fun em => subscription_for em.1 em.2) ms
              end in
  exists w r,
    decorate_all (map (fun em => DHubSubscription em.1 t em.2) ms ++ [DHub p t]) w0 = inr w
    /\ getMetadata w t = Some r
    /\ o_hubName (obj w r) = o_hubName p /\ o_hubGroups (obj w r) = o_hubGroups p
    /\ o_subscriptions (obj w r) = Some subs
    /\ match find (fun r0 => bool_decide (o_hubName (obj w0 r0) = o_hubName p))
               (table w0) with
       | Some r0 =>
           table w = table w0
           /\ o_subscriptions (obj w r0)
              = Some (default [] (o_subscriptions (obj w0 r0)) ++ subs)
       | None => table w = table w0 ++ [r]
       end.
Proof.
  intros (Hmeta & Htable & Hnodup) Hget subs.
  destruct (class_reaches_table w0 t p ms Hmeta Hget)
    as (hp & w2 & Hrun & Hget2 & Hhp & Ht & Hobj & Hold).
  fold subs in Hobj.
  assert (forall r, r ∈ table w0 -> r < next w0) as Hlt.
  { intros r Hr. destruct (Htable r Hr) as [(t' & Ht') _]. by apply (Hmeta t'). }
  rewrite Hrun. unfold push_or_merge. rewrite Ht, Hobj. cbn [o_hubName o_subscriptions].
  rewrite (find_ext_in _ (fun r0 => bool_decide (o_hubName (obj w0 r0) = o_hubName p))).
  2: { intros x Hx. by rewrite Hold by (by apply Hlt). }
  destruct (find _ (table w0)) as [r0|] eqn:Hfind.
  - apply find_some in Hfind as [Hin _]. apply list_elem_of_In in Hin.
    destruct (Htable r0 Hin) as [(t0 & Ht0) _].
    destruct (Hmeta _ _ Ht0) as [Hlt0 [theirs Htheirs]].
    rewrite Hold, Htheirs by done.
    exists (update r0 (set_subscriptions (theirs ++ subs)) w2), hp.
    assert (hp <> r0) as Hne by lia.
    split_and!; try done;
      first [ by rewrite obj_update_ne, Hobj | by rewrite obj_update_eq ].
  - eexists _, hp. split; [reflexivity|].
    set (w3 := Build_world _ _ _ _).
    assert (forall r, obj w3 r = obj w2 r) as Hsame by reflexivity.
    split_and!; try done; first [ by rewrite Hsame, Hobj | by (simpl; rewrite Ht) ].
Qed.

End Prototypes.


End DecoratorFacts.

(** * The sample program: witnesses, counterexamples, failing inputs *)

(** The two listeners of the chat sample, in registration order. *)
Lemma chat_listeners :
  listeners connected_plain "chatHub" "messageReceived"
  = [ {| thisObj := 1; callback_of := 11 |}; {| thisObj := 2; callback_of := 12 |} ].
Proof. vm_compute. reflexivity. Qed.

(** Witness of C8 (the failing input): the listener of instance 1
    unregisters its instance and throws; the listener of instance 2 is not
    called. *)
Lemma listener_skipped_after_unregister_witness :
  called (exec (hubMessageReceived [chatHub] chat_metadata chat_method_of chat_string
                  leaving_apply chat_stack chat_loop "chatHub" messageReceived
                  [JStr "alice"; JStr "hi"]) connected_plain)
  = called connected_plain ++ [ (1, 11, [JStr "alice"; JStr "hi"]) ]
  /\ listeners (exec (hubMessageReceived [chatHub] chat_metadata chat_method_of chat_string
                        leaving_apply chat_stack chat_loop "chatHub" messageReceived
                        [JStr "alice"; JStr "hi"]) connected_plain)
       "chatHub" "messageReceived"
     = [ {| thisObj := 2; callback_of := 12 |} ].
Proof.
  edestruct (listener_skipped_after_unregister [chatHub] chat_metadata chat_method_of
               chat_string leaving_apply chat_stack chat_loop connected_plain "chatHub"
               messageReceived [JStr "alice"; JStr "hi"] chat_proxies
               {| hubProxy := "chatHub";
                  events := {[ "messageReceived" :=
                                 [ {| thisObj := 1; callback_of := 11 |};
                                   {| thisObj := 2; callback_of := 12 |} ] ]} |}
               {| thisObj := 1; callback_of := 11 |}
               {| thisObj := 2; callback_of := 12 |} chatHub (JStr "boom"))
    as (_ & _ & Hc & Hl).
  - vm_compute. reflexivity.
  - vm_compute. reflexivity.
  - reflexivity.
  - discriminate.
  - reflexivity.
  - reflexivity.
  - apply list_elem_of_here.
  - intros sub n Hin Hnone. apply list_elem_of_singleton in Hin as ->.
    exfalso. revert Hnone. vm_compute. discriminate.
  - reflexivity.
  - reflexivity.
  - unfold chat_loop. lia.
  - split; [exact Hc|exact Hl].
Defined.

(** C8, the whole dispatch at the failing input: one inbound message, two
    listeners, and the second is never called.  With listeners that leave
    the service alone both are called. *)
Lemma second_listener_is_skipped :
  since connected_plain (leaving_run [message_in] connected_plain)
  = [ Called 1 11 [JStr "alice"; JStr "hi"];
      Console (CErrorCallback "chatHub" "messageReceived" (JStr "boom")) ]
  /\ since connected_plain (chat_run [message_in] connected_plain)
     = [ Called 1 11 [JStr "alice"; JStr "hi"];
         Console (CErrorCallback "chatHub" "messageReceived" (JStr "boom"));
         Called 2 12 [JStr "alice"; JStr "hi"] ].
Proof. split; vm_compute; reflexivity. Qed.

(** C8, the second failing input: the listener of instance 1 throws a
    symbol; the report of the error throws, into the transport, and the
    listener of instance 2 is not called. *)
Lemma symbol_error_reaches_transport :
  result (symbol_perform message_in) connected_plain
  = inl (TypeError "Cannot convert a Symbol value to a string")
  /\ since connected_plain (exec (symbol_perform message_in) connected_plain)
     = [ Called 1 11 [JStr "alice"; JStr "hi"] ].
Proof. split; vm_compute; reflexivity. Qed.

(** Witness of C9 (the failing input): instance 1 registers before
    [connect()] and unregisters at once. *)
Lemma unregister_before_connect_witness :
  unregister chat_metadata chat_string 1 registered_early
  = (inl (TypeError "Cannot read properties of undefined (reading 'chatHub')"),
     registered_early)
  /\ 1 ∈ deferredRegistrations
           (chat_run (DoUnregister 1 :: session HubServiceOptions.empty) registered_early).
Proof.
  edestruct (unregister_before_connect [chatHub] chat_metadata chat_method_of chat_string
               chat_apply chat_stack chat_loop initial 1 chatHub) as (_ & Hun & Hstay).
  - reflexivity.
  - discriminate.
  - reflexivity.
  - assert (registered_early
            = set_deferredRegistrations (deferredRegistrations initial ++ [1]) initial)
      as -> by (vm_compute; reflexivity).
    split; [exact Hun|apply Hstay].
Defined.

(** C9, end to end: instance 1 registers before [connect()], its
    [unregister] throws, the connection is made, and an inbound message is
    dispatched to the instance that asked to be unregistered. *)
Lemma unregistered_instance_still_called :
  result (chat_perform (DoUnregister 1)) registered_early
  = inl (TypeError "Cannot read properties of undefined (reading 'chatHub')")
  /\ called (chat_run [ DoUnregister 1; DoConnect HubServiceOptions.empty 0;
                        Env (StateChanged connectionState.connected);
                        Env (Settle 0 (Resolved JUndefined)); message_in ]
               registered_early)
     = [ (1, 11, [JStr "alice"; JStr "hi"]) ].
Proof. split; vm_compute; reflexivity. Qed.

(** Witness of C1: a call made during the first reconnect attempt, and the
    gate resolving while the connection is down. *)
Lemma invoke_waits_for_gate_witness :
  reconnectingObservable reconnecting_1 = Some 1
  /\ trace call_during_attempt_1 = trace reconnecting_1
  /\ subscribers call_during_attempt_1
     = subscribers reconnecting_1
       ++ [Sub (OGatedCall 1 "chatHub" "sendMessage" [JStr "a"; JStr "b"]) (Caller 7)]
  /\ Deliver 7 (Error (JStr "TypeError: Observable.throw is not a function"))
       ∈ since call_during_attempt_1
           (exec (reconnectedCallback chat_stack) call_during_attempt_1).
Proof.
  split; [reflexivity|].
  edestruct (invoke_waits_for_gate [chatHub] chat_metadata chat_method_of chat_string
               chat_apply chat_stack chat_loop reconnecting_1 "chatHub" "sendMessage"
               [JStr "a"; JStr "b"] 7 1 chat_proxies
               {| hubProxy := "chatHub";
                  events := {[ "messageReceived" :=
                                 [ {| thisObj := 1; callback_of := 11 |};
                                   {| thisObj := 2; callback_of := 12 |} ] ]} |})
    as (Hpark & Hfalse & _).
  - reflexivity.
  - vm_compute. reflexivity.
  - vm_compute. reflexivity.
  - assert (call_during_attempt_1
            = snd (perform [chatHub] chat_metadata chat_method_of chat_string chat_apply
                     chat_stack chat_loop
                     (DoInvoke "chatHub" "sendMessage" [JStr "a"; JStr "b"] 7)
                     reconnecting_1)) as Hcall by reflexivity.
    split_and!.
    + rewrite Hcall, Hpark. vm_compute. reflexivity.
    + rewrite Hcall, Hpark. vm_compute. reflexivity.
    + apply Hfalse.
      * vm_compute. reflexivity.
      * rewrite Hcall, Hpark. cbn [snd subscribers set_subscribers].
        apply elem_of_app. right. apply list_elem_of_here.
      * vm_compute. reflexivity.
Defined.

(** C1, at the failing input: observer 7 calls [sendMessage("a", "b")]
    during the first reconnect attempt, and the transport reports
    [reconnected] while the connection is not in the connected state.  The
    call fails without reaching the transport, but with a [TypeError], not
    with the disconnected error of the code. *)
Lemma gated_call_fails_with_TypeError :
  connected call_during_attempt_1 = false
  /\ delivered 7 (chat_run [Env Reconnected] call_during_attempt_1)
     = [Error (JStr "TypeError: Observable.throw is not a function")]
  /\ wire (chat_run [Env Reconnected] call_during_attempt_1) = wire call_during_attempt_1.
Proof. split_and!; vm_compute; reflexivity. Qed.

(** Witness of C5: [connect()] called during the first reconnect attempt. *)
Lemma connect_during_reconnect_witness :
  reconnectingObservable reconnecting_1 = Some 1
  /\ result (connect [chatHub] chat_metadata chat_method_of chat_string
               HubServiceOptions.empty)
       reconnecting_1 = inr (OGate 1)
  /\ wire (exec (chat_perform (DoConnect HubServiceOptions.empty 9)) reconnecting_1)
     = wire reconnecting_1.
Proof.
  split; [reflexivity|].
  edestruct (connect_during_reconnect [chatHub] chat_metadata chat_method_of chat_string
               chat_apply chat_stack chat_loop reconnecting_1 HubServiceOptions.empty 1 9)
    as (Hc & _ & Hw & _).
  - reflexivity.
  - split; [|exact Hw]. unfold result. by rewrite Hc.
Defined.

(** C5, at the failing input.  Observer 9 calls [connect()] during the
    first reconnect attempt (keeping [attemptReconnects]); attempts 1 to 3
    fail and attempt 4 succeeds.  The service is connected again, and
    observer 9 has received nothing and is still subscribed to the gate of
    attempt 1. *)
Lemma connect_during_failing_attempt_unanswered :
  let s := chat_run (DoConnect with_reconnects 9
                     :: attempt_fails 2 ++ attempt_fails 4 ++ attempt_fails 6
                        ++ attempt_succeeds 8) reconnecting_1 in
  connected s = true
  /\ reconnectingObservable s = None
  /\ delivered 9 s = []
  /\ subscribers s = [Sub (OGate 1) (Caller 9)].
Proof. split_and!; vm_compute; reflexivity. Qed.

(** C5: [connect()] with the default options during the first attempt
    replaces [attemptReconnects]; when the attempt fails, the next one
    gets its own gate back from [_connect], issues no [start()] and waits
    for itself. *)
Lemma connect_during_reconnect_stalls_the_loop :
  let s := chat_run (DoConnect HubServiceOptions.empty 9 :: attempt_fails 2)
             reconnecting_1 in
  since reconnecting_1 s = [Emit (NDisconnected false)]
  /\ reconnectingObservable s = Some 3
  /\ subscribers s = [Sub (OGate 1) (Caller 9); Sub (OGate 3) Reconnector]
  /\ timers s = 0.
Proof. split_and!; vm_compute; reflexivity. Qed.



(** Witness of C4 (the failing input): [sendMessage("a", "b")] is in flight
    when the connection drops, and the transport rejects it. *)
Lemma retried_call_wraps_arguments_witness :
  reconnectingObservable lost_in_flight = Some 2
  /\ subscribers call_rejected
     = [ Sub (OStart 3) Reconnector;
         Sub (OGatedCall 2 "chatHub" "sendMessage" [JArr [JStr "a"; JStr "b"]]) (Caller 7) ]
  /\ [JArr [JStr "a"; JStr "b"]] <> [JStr "a"; JStr "b"].
Proof.
  split; [reflexivity|].
  edestruct (retried_call_wraps_arguments chat_stack lost_in_flight 1 "chatHub"
               "sendMessage" [JStr "a"; JStr "b"] 7 disconnected_error 2)
    as (_ & Hne & _).
  - reflexivity.
  - reflexivity.
  - reflexivity.
  - split; [|exact Hne]. vm_compute. reflexivity.
Defined.

(** C4, on the wire: after the reconnect the transport is asked for
    [sendMessage(["a", "b"])], one array argument, not [sendMessage("a", "b")]. *)
Lemma retried_call_on_the_wire :
  wire call_retried
  = wire call_rejected
    ++ [WInvoke 4 "chatHub" "sendMessage" [JArr [JStr "a"; JStr "b"]]].
Proof. vm_compute. reflexivity. Qed.

(** Witness of C6: the fourth reconnect attempt succeeds. *)
Lemma reconnect_notifications_witness :
  emitted reconnected
  = emitted attempt_4_connected ++ [NConnected true; NReconnected true; NConnected true].
Proof.
  edestruct (reconnect_notifications chat_stack attempt_4_connected 8 7) as (Hok & _).
  - reflexivity.
  - vm_compute. reflexivity.
  - reflexivity.
  - assert (subscribers attempt_4_connected
            = [ Sub (OGatedCall 1 "chatHub" "sendMessage" [JStr "a"; JStr "b"]) (Caller 7);
                Sub (OStart 8) Reconnector ]) as -> by (vm_compute; reflexivity).
    intros Hin. repeat (apply elem_of_cons in Hin as [Hin|Hin]; [discriminate|]).
    by apply elem_of_nil in Hin.
  - apply (Hok JUndefined). reflexivity.
Defined.

(** C6, at the failing input: over the whole episode, from the loss of the
    connection through three failed attempts to the fourth that succeeds,
    [onReconnected] fires once and [onConnected] twice. *)
Lemma reconnect_notifies_connected_twice :
  count_reconnected (since connected_retrying reconnected) = 1
  /\ count_connected (since connected_retrying reconnected) = 2
  /\ ~ (count_reconnected (since connected_retrying reconnected) = 1
        /\ count_connected (since connected_retrying reconnected) = 1).
Proof.
  assert (count_connected (since connected_retrying reconnected) = 2) as H
    by (vm_compute; reflexivity).
  split_and!; [vm_compute; reflexivity|exact H|]. intros [_ H']. rewrite H in H'. discriminate.
Qed.

(** C6, the sibling paths: the first [connect()] notifies [onConnected]
    once, and so does a reconnect that the transport makes by itself. *)
Lemma other_paths_notify_connected_once :
  emitted connected_retrying = [NConnected true]
  /\ since connected_retrying
       (chat_run [ Env (StateChanged connectionState.reconnecting); Env Reconnecting;
                   Env (StateChanged connectionState.connected); Env Reconnected ]
          connected_retrying)
     = [Emit NReconnecting; Emit (NReconnected true); Emit (NConnected true)].
Proof. split; vm_compute; reflexivity. Qed.

(** Counterexample to C2: without [attemptReconnects] (the default) the
    service has seen the disconnect, the connection is down, no gate is
    open, and [invoke] puts the call on the wire. *)
Lemma invoke_reaches_wire_while_down :
  connected lost_plain = false
  /\ emitted lost_plain = [NConnected true; NDisconnected false]
  /\ reconnectingObservable lost_plain = None
  /\ wire (chat_run [DoInvoke "chatHub" "sendMessage" [JStr "a"; JStr "b"] 7] lost_plain)
     = wire lost_plain ++ [WInvoke 1 "chatHub" "sendMessage" [JStr "a"; JStr "b"]]
  /\ wire (chat_run [DoInvoke "chatHub" "sendMessage" [JStr "a"; JStr "b"] 7] lost_plain)
     <> wire lost_plain.
Proof. split_and!; try (vm_compute; reflexivity). vm_compute. discriminate. Qed.

(** Counterexample to C10: [errorConnecting] is true after the failed
    attempts and false again once the fourth attempt has succeeded. *)
Lemma errorConnecting_cleared_by_reconnect :
  _errorConnecting reconnecting_4 = true
  /\ since attempt_4_connected reconnected
     = [Emit (NConnected true); Emit (NReconnected true); Emit (NConnected true)]
  /\ _errorConnecting reconnected = false
  /\ _errorConnecting reconnected <> true.
Proof. split_and!; try (vm_compute; reflexivity). vm_compute. discriminate. Qed.

(** C3, at the failing input.  The call of observer 7 is parked on the gate
    of the first attempt.  Each later attempt makes a new gate, and only the
    gate of the attempt that succeeds is resolved: after the reconnect the
    call is still parked on gate 1, nothing was sent for it and observer 7
    has received nothing. *)
Lemma waiting_call_is_orphaned :
  Sub (OGatedCall 1 "chatHub" "sendMessage" [JStr "a"; JStr "b"]) (Caller 7)
    ∈ subscribers call_during_attempt_1
  /\ reconnectingObservable reconnecting_4 = Some 7
  /\ connected reconnected = true
  /\ reconnectingObservable reconnected = None
  /\ since connected_retrying reconnected
     = [ Emit (NDisconnected false); Wire (WStart 2);
         Emit (NDisconnected false); Wire (WStart 4);
         Emit (NDisconnected false); Wire (WStart 6);
         Emit (NDisconnected false); Wire (WStart 8);
         Emit (NConnected true); Emit (NReconnected true); Emit (NConnected true) ]
  /\ delivered 7 reconnected = []
  /\ subscribers reconnected
     = [Sub (OGatedCall 1 "chatHub" "sendMessage" [JStr "a"; JStr "b"]) (Caller 7)].
Proof.
  split_and!; try (vm_compute; reflexivity).
  vm_compute. apply list_elem_of_here || (right; left).
Qed.

(** The listeners of the chat sample ask nothing of the service. *)
Lemma chat_listeners_ask_nothing k : unused_by_listeners chat_apply k.
Proof. intros f i args st Hst. by apply elem_of_nil in Hst. Qed.

(** Witness of C3: the call of observer 7 is parked on gate 1 when the
    fourth attempt (gate 7) succeeds. *)
Lemma parked_call_is_orphaned_witness :
  reconnectingObservable reconnecting_4 = Some 7
  /\ Sub (OGatedCall 1 "chatHub" "sendMessage" [JStr "a"; JStr "b"]) (Caller 7)
       ∈ subscribers reconnected
  /\ delivered 7 reconnected = [].
Proof.
  split; [reflexivity|].
  destruct (parked_call_is_orphaned [chatHub] chat_metadata chat_method_of chat_string
              chat_apply chat_stack chat_loop) as [_ H].
  destruct (H reconnecting_4 1 "chatHub" "sendMessage" [JStr "a"; JStr "b"] 7
              (attempt_succeeds 8)) as (Hx & Hd & _).
  - vm_compute. left.
  - vm_compute. lia.
  - vm_compute. discriminate.
  - assert (subscribers reconnecting_4
            = [ Sub (OGatedCall 1 "chatHub" "sendMessage" [JStr "a"; JStr "b"]) (Caller 7);
                Sub (OStart 8) Reconnector ]) as -> by (vm_compute; reflexivity).
    intros y Hy Hobs.
    apply elem_of_cons in Hy as [->|Hy]; [reflexivity|].
    apply elem_of_cons in Hy as [->|Hy]; [discriminate|by apply elem_of_nil in Hy].
  - repeat constructor; discriminate.
  - apply chat_listeners_ask_nothing.
  - assert (reconnected
            = run [chatHub] chat_metadata chat_method_of chat_string chat_apply chat_stack
                chat_loop (attempt_succeeds 8) reconnecting_4) as ->
      by (vm_compute; reflexivity).
    assert (delivered 7 reconnecting_4 = []) as Hd0 by (vm_compute; reflexivity).
    rewrite Hd0 in Hd. split; [exact Hx|exact Hd].
Defined.

(** Witness of C2: the call made during the first attempt, the disconnect
    that opened the gate, the gate across the failing attempts, the
    disconnect without [attemptReconnects] and the call made after it. *)
Lemma no_call_on_wire_while_gate_open_witness :
  wire call_during_attempt_1 = wire reconnecting_1
  /\ reconnectingObservable reconnecting_1 <> None
  /\ (reconnectingObservable reconnecting_4 <> None \/
      count_reconnected (trace reconnecting_1) < count_reconnected (trace reconnecting_4))
  /\ reconnectingObservable lost_plain = None
  /\ wire (exec (chat_perform (DoInvoke "chatHub" "sendMessage" [JStr "a"; JStr "b"] 7))
             lost_plain)
     = wire lost_plain ++ [WInvoke 1 "chatHub" "sendMessage" [JStr "a"; JStr "b"]].
Proof.
  destruct (no_call_on_wire_while_gate_open [chatHub] chat_metadata chat_method_of
              chat_string chat_apply chat_stack chat_loop)
    as (Hwire & Hopen & Hstay & Hshut & Hdirect).
  assert (reconnectingObservable reconnecting_1 <> None) as Hgate
    by (vm_compute; discriminate).
  assert (reconnectingObservable lost_plain = None) as Hnone.
  { assert (lost_plain
            = exec (fire [chatHub] chat_metadata chat_method_of chat_string chat_apply
                      chat_stack chat_loop Disconnected)
                (chat_run [Env (StateChanged connectionState.disconnected)]
                   connected_plain)) as -> by (vm_compute; reflexivity).
    rewrite Hshut; [vm_compute; reflexivity|].
    assert (options (chat_run [Env (StateChanged connectionState.disconnected)]
                       connected_plain)
            = Some (merge_options HubServiceOptions.empty)) as ->
      by (vm_compute; reflexivity).
    intros o Ho. injection Ho as <-. discriminate. }
  split_and!.
  - assert (call_during_attempt_1
            = exec (perform [chatHub] chat_metadata chat_method_of chat_string chat_apply
                      chat_stack chat_loop
                      (DoInvoke "chatHub" "sendMessage" [JStr "a"; JStr "b"] 7))
                reconnecting_1) as -> by (vm_compute; reflexivity).
    apply Hwire, Hgate.
  - assert (reconnecting_1
            = exec (fire [chatHub] chat_metadata chat_method_of chat_string chat_apply
                      chat_stack chat_loop Disconnected)
                (chat_run [Env (StateChanged connectionState.disconnected)]
                   connected_retrying)) as -> by (vm_compute; reflexivity).
    eapply Hopen; vm_compute; reflexivity.
  - assert (reconnecting_4
            = run [chatHub] chat_metadata chat_method_of chat_string chat_apply chat_stack
                chat_loop
                (DoInvoke "chatHub" "sendMessage" [JStr "a"; JStr "b"] 7
                 :: attempt_fails 2 ++ attempt_fails 4 ++ attempt_fails 6)
                reconnecting_1) as -> by (vm_compute; reflexivity).
    apply Hstay, Hgate.
  - exact Hnone.
  - unfold chat_perform.
    rewrite (Hdirect lost_plain "chatHub" "sendMessage" [JStr "a"; JStr "b"] 7 chat_proxies
               {| hubProxy := "chatHub";
                  events := {[ "messageReceived" :=
                                 [ {| thisObj := 1; callback_of := 11 |};
                                   {| thisObj := 2; callback_of := 12 |} ] ]} |});
      [|exact Hnone|vm_compute; reflexivity|vm_compute; reflexivity].
    vm_compute. reflexivity.
Defined.

(** Witness of C10: a call on the connected session, and a promise that is
    not the [start()] of a connect attempt. *)
Lemma errorConnecting_follows_start_outcome_witness :
  _errorConnecting call_in_flight = _errorConnecting connected_retrying
  /\ _errorConnecting call_rejected = _errorConnecting lost_in_flight.
Proof.
  destruct (errorConnecting_follows_start_outcome [chatHub] chat_metadata chat_method_of
              chat_string chat_apply chat_stack chat_loop)
    as (_ & _ & _ & Hstep & Hsettle).
  split.
  - assert (call_in_flight
            = exec (perform [chatHub] chat_metadata chat_method_of chat_string chat_apply
                      chat_stack chat_loop
                      (DoInvoke "chatHub" "sendMessage" [JStr "a"; JStr "b"] 7))
                connected_retrying) as -> by (vm_compute; reflexivity).
    apply Hstep. intros p out. discriminate.
  - assert (call_rejected
            = exec (perform [chatHub] chat_metadata chat_method_of chat_string chat_apply
                      chat_stack chat_loop
                      (Env (Settle 1 (Rejected disconnected_error))))
                lost_in_flight) as -> by (vm_compute; reflexivity).
    apply Hsettle.
    assert (subscribers lost_in_flight
            = [ Sub (ODirectCall 1 "chatHub" "sendMessage" [JStr "a"; JStr "b"]) (Caller 7);
                Sub (OStart 3) Reconnector ]) as -> by (vm_compute; reflexivity).
    intros k Hin.
    apply elem_of_cons in Hin as [?|Hin]; [discriminate|].
    apply elem_of_cons in Hin as [?|Hin]; [discriminate|by apply elem_of_nil in Hin].
Defined.

(** * The sample program: witnesses of the further properties *)

Lemma matchesGroup_spec_witness :
  result (matchesGroup (GMany ["us"; "eu"])) grouped = inr true
  /\ result (matchesGroup (GMany [])) grouped = inr false.
Proof.
  split.
  - edestruct (matchesGroup_spec grouped _ (GMany ["us"; "eu"]) eq_refl)
      as (b & Hrun & Hb).
    unfold result. rewrite Hrun. simpl. f_equal. apply Hb. right.
    split_and!; [done|done|]. exists "eu". split; [right; left|left].
  - edestruct (matchesGroup_spec grouped _ (GMany []) eq_refl) as (b & Hrun & Hb).
    unfold result. rewrite Hrun. simpl. f_equal. destruct b; [|reflexivity].
    destruct Hb as [Hb _]. destruct (Hb eq_refl) as [[? _]|(_ & _ & x & Hx & _)];
      [discriminate|]. by apply elem_of_nil in Hx.
Defined.

Lemma register_binds_witness :
  listeners (exec (register chat_metadata chat_method_of chat_string 1) connecting)
    "chatHub" "messageReceived"
  = [ {| thisObj := 2; callback_of := 12 |}; {| thisObj := 1; callback_of := 11 |} ].
Proof.
  edestruct (register_binds chat_metadata chat_method_of chat_string chat_apply
               connecting 1 chatHub) as [Hall _].
  - reflexivity.
  - discriminate.
  - reflexivity.
  - reflexivity.
  - destruct Hall as (_ & _ & Hl).
    + intros sub Hin _. apply list_elem_of_singleton in Hin as ->. by eexists.
    + rewrite Hl. vm_compute. reflexivity.
Defined.

Lemma register_unregister_round_trip_witness :
  listeners (exec (unregister chat_metadata chat_string 1)
               (exec (register chat_metadata chat_method_of chat_string 1) connecting))
    "chatHub" "messageReceived"
  = [ {| thisObj := 2; callback_of := 12 |} ].
Proof.
  edestruct (register_unregister_round_trip chat_metadata chat_method_of chat_string
               chat_apply connecting 1 chatHub) as (_ & Hl).
  - reflexivity.
  - discriminate.
  - reflexivity.
  - reflexivity.
  - intros sub Hin _. apply list_elem_of_singleton in Hin as ->. by eexists.
  - intros sub n Hin Hnone. apply list_elem_of_singleton in Hin as ->.
    exfalso. revert Hnone. vm_compute. discriminate.
  - intros hub' event l.
    assert (forall h e, listeners connecting h e
                        = if decide (h = "chatHub" /\ e = "messageReceived")
                          then [ {| thisObj := 2; callback_of := 12 |} ] else []) as ->.
    { intros h e. unfold listeners.
      assert (hubProxies connecting
              = Some {[ "chatHub" := {| hubProxy := "chatHub";
                          events := {[ "messageReceived" :=
                                         [ {| thisObj := 2; callback_of := 12 |} ] ]} |} ]})
        as -> by (vm_compute; reflexivity).
      destruct (decide (h = "chatHub")) as [->|Hh].
      - rewrite lookup_singleton_eq. simpl.
        destruct (decide (e = "messageReceived")) as [->|He].
        + rewrite lookup_singleton_eq. by rewrite decide_True.
        + rewrite lookup_singleton_ne by done. by rewrite decide_False by naive_solver.
      - rewrite lookup_singleton_ne by done. by rewrite decide_False by naive_solver. }
    case_decide; [|by intros ?%elem_of_nil].
    intros ->%list_elem_of_singleton. discriminate.
  - rewrite Hl. vm_compute. reflexivity.
Defined.


Lemma connection_is_built_once_witness :
  exists c', _connection (chat_run (connection_lost ++ [DoConnect elsewhere 3])
                            connected_plain) = Some c'
             /\ conn_url c' = Some "/signalr" /\ conn_qs c' = None.
Proof.
  edestruct (connection_is_built_once [chatHub] chat_metadata chat_method_of chat_string
               chat_apply chat_stack chat_loop connected_plain
               {| conn_url := Some "/signalr"; conn_qs := None;
                  conn_state := connectionState.connected |}
               (connection_lost ++ [DoConnect elsewhere 3]))
    as [(c' & Hc' & Hu & Hq) _].
  - vm_compute. reflexivity.
  - exists c'. split; [exact Hc'|]. by rewrite Hu, Hq.
Defined.

Lemma hub_proxies_are_fixed_witness :
  exists proxies',
    hubProxies (chat_run [DoUnregister 1; DoConnect elsewhere 3] connected_plain)
    = Some proxies'
    /\ is_Some (proxies' !! "chatHub").
Proof.
  edestruct (hub_proxies_are_fixed [chatHub] chat_metadata chat_method_of chat_string
               chat_apply chat_stack chat_loop connected_plain chat_proxies
               [DoUnregister 1; DoConnect elsewhere 3]) as (proxies' & Hp & Hsame).
  - assert (_connection connected_plain
            = Some {| conn_url := Some "/signalr"; conn_qs := None;
                      conn_state := connectionState.connected |}) as ->
      by (vm_compute; reflexivity).
    discriminate.
  - vm_compute. reflexivity.
  - exists proxies'. split; [exact Hp|]. specialize (Hsame "chatHub").
    assert (exists w, chat_proxies !! "chatHub" = Some w) as [w Hw]
      by (eexists; vm_compute; reflexivity).
    rewrite Hw in Hsame. by destruct (proxies' !! "chatHub").
Defined.

(** The decorators of the sample give the table that [chat_run] is run with. *)
Lemma decorators_keep_hub_names_unique_witness :
  exists w, Decorators.decorate_all no_ancestors chat_decorations Decorators.unloaded = inr w
            /\ Decorators.allHubProperties w = [chatHub].
Proof.
  destruct (DecoratorFacts.decorators_keep_hub_names_unique no_ancestors chat_decorations)
    as (w & Hrun & _ & _).
  - repeat constructor.
  - exists w. split; [exact Hrun|].
    assert (Decorators.decorate_all no_ancestors chat_decorations Decorators.unloaded
            = inr chat_world) as Heq by (vm_compute; reflexivity).
    rewrite Heq in Hrun. injection Hrun as <-. vm_compute. reflexivity.
Defined.

(** A second class on the hub of the sample: the table keeps its one
    object, which gets the subscription of the second class as well. *)
Lemma class_decoration_witness :
  exists w r,
    Decorators.decorate_all no_ancestors
      (map (fun em => Decorators.DHubSubscription em.1 1 em.2) typing_methods
         ++ [Decorators.DHub typing_hub 1]) chat_world = inr w
    /\ Decorators.getMetadata no_ancestors w 1 = Some r
    /\ Decorators.o_subscriptions (Decorators.obj w r)
       = Some [ {| eventName := "typing"; functionName := "onTyping" |} ]
    /\ Decorators.table w = Decorators.table chat_world
    /\ map hubName (Decorators.allHubProperties w) = ["chatHub"]
    /\ map subscriptions (Decorators.allHubProperties w)
       = [ [ messageReceived; {| eventName := "typing"; functionName := "onTyping" |} ] ].
Proof.
  destruct (DecoratorFacts.decorate_all_well_formed no_ancestors chat_decorations
              Decorators.unloaded DecoratorFacts.well_formed_empty)
    as (w0 & Hrun0 & Hwf); [repeat constructor|].
  assert (Decorators.decorate_all no_ancestors chat_decorations Decorators.unloaded
          = inr chat_world) as Heq by (vm_compute; reflexivity).
  rewrite Heq in Hrun0. injection Hrun0 as <-.
  destruct (DecoratorFacts.class_decoration no_ancestors chat_world 1 typing_hub
              typing_methods Hwf) as (w & r & Hrun & Hget & _ & _ & Hsubs & Htable).
  - vm_compute. reflexivity.
  - exists w, r.
    assert (exists w', Decorators.decorate_all no_ancestors
              (map (fun em => Decorators.DHubSubscription em.1 1 em.2) typing_methods
                 ++ [Decorators.DHub typing_hub 1]) chat_world = inr w'
            /\ Decorators.table w' = Decorators.table chat_world
            /\ map hubName (Decorators.allHubProperties w') = ["chatHub"]
            /\ map subscriptions (Decorators.allHubProperties w')
               = [ [ messageReceived;
                     {| eventName := "typing"; functionName := "onTyping" |} ] ])
      as (w' & Hrun' & Ht' & Hn' & Hs').
    { eexists. split; [vm_compute; reflexivity|]. split_and!; vm_compute; reflexivity. }
    rewrite Hrun' in Hrun. injection Hrun as <-.
    split_and!; try done.
Defined.

(** An attempt with [attemptReconnects] set, one without, and a
    [disconnected] event during the first attempt of the sample. *)
Lemma reconnect_attempt_witness :
  wire (exec (tryReconnect [chatHub] chat_metadata chat_method_of chat_string chat_stack)
          connected_retrying)
  = wire connected_retrying ++ [WStart 2]
  /\ wire (exec (tryReconnect [chatHub] chat_metadata chat_method_of chat_string chat_stack)
            connected_plain)
     = wire connected_plain
  /\ exec (chat_perform (Env Disconnected)) reconnecting_1 = reconnecting_1.
Proof.
  pose (c := {| conn_url := Some "/signalr"; conn_qs := None;
                conn_state := connectionState.connected |}).
  split_and!.
  - destruct (reconnect_attempt [chatHub] chat_metadata chat_method_of chat_string
                chat_apply chat_stack chat_loop connected_retrying (merge_options with_reconnects) c)
      as (H & _ & _); [vm_compute; reflexivity..|].
    unfold exec. rewrite H by reflexivity. vm_compute. reflexivity.
  - destruct (reconnect_attempt [chatHub] chat_metadata chat_method_of chat_string
                chat_apply chat_stack chat_loop connected_plain (merge_options HubServiceOptions.empty) c)
      as (_ & H & _); [vm_compute; reflexivity..|].
    unfold exec. rewrite H by discriminate. vm_compute. reflexivity.
  - assert (exists o c', options reconnecting_1 = Some o /\ _connection reconnecting_1 = Some c')
      as (o & c' & Ho & Hc) by (eexists _, _; split; vm_compute; reflexivity).
    destruct (reconnect_attempt [chatHub] chat_metadata chat_method_of chat_string
                chat_apply chat_stack chat_loop reconnecting_1 o c' Ho Hc) as (_ & _ & H).
    unfold exec, chat_perform. cbn [perform].
    rewrite H; [reflexivity|]. vm_compute. reflexivity.
Defined.

Lemma hub_without_proxy_witness :
  invoke "newsHub" "send" [] connected_plain
  = (inl (JsError "Invalid hub name newsHub"), connected_plain)
  /\ hubMessageReceived [chatHub] news_metadata chat_method_of chat_string chat_apply
       chat_stack chat_loop "newsHub" messageReceived [] connected_plain
     = (inr tt, connected_plain)
  /\ result (register news_metadata chat_method_of chat_string 7) connected_plain
     = inl (JsError "Invalid hub name newsHub")
  /\ unregister news_metadata chat_string 7 connected_plain
     = (inl (TypeError "Cannot read properties of undefined (reading 'events')"),
        connected_plain)
  /\ invoke "toString" "send" [] connected_plain
     = (inl (TypeError "Cannot read properties of undefined (reading 'invoke')"),
        connected_plain)
  /\ hubMessageReceived [chatHub] news_metadata chat_method_of chat_string chat_apply
       chat_stack chat_loop "toString" messageReceived [] connected_plain
     = (inl (TypeError "Cannot read properties of undefined (reading 'messageReceived')"),
        connected_plain).
Proof.
  destruct (hub_without_proxy [chatHub] news_metadata chat_method_of chat_string chat_apply
              chat_stack chat_loop connected_plain chat_proxies "newsHub") as [Hplain _];
    [vm_compute; reflexivity..|].
  destruct Hplain as (Hi & Hm & Hr); [vm_compute; reflexivity|].
  destruct (Hr 7 newsHub) as (Hreg & _ & _ & Hu); [reflexivity|reflexivity|discriminate|].
  destruct (hub_without_proxy [chatHub] news_metadata chat_method_of chat_string chat_apply
              chat_stack chat_loop connected_plain chat_proxies "toString") as [_ Hforeign];
    [vm_compute; reflexivity..|].
  destruct Hforeign as (Hi' & Hm' & _); [vm_compute; reflexivity|].
  split_and!; [apply Hi|apply Hm| |exact Hu| |apply Hm'].
  - apply (Hreg true). vm_compute. reflexivity.
  - rewrite Hi'.
    assert (reconnectingObservable connected_plain = None) as -> by (vm_compute; reflexivity).
    reflexivity.
Defined.

Lemma dispatch_finds_its_listeners_witness :
  result (hubMessageReceived [chatHub] chat_metadata chat_method_of chat_string chat_apply
            chat_stack chat_loop "chatHub" messageReceived []) connected_plain
  = inr tt.
Proof.
  edestruct (dispatch_finds_its_listeners [chatHub] chat_metadata chat_method_of chat_string
               chat_apply chat_stack chat_loop (session HubServiceOptions.empty) "chatHub"
               messageReceived []) as (_ & _ & Hquiet).
  - apply NoDup_singleton.
  - apply (list_elem_of_lookup_2 _ 1). vm_compute. reflexivity.
  - apply Hquiet.
    + intros func _. split; [reflexivity|].
      intros err Herr. unfold chat_apply in Herr. simpl in Herr.
      case_decide; [|discriminate]. by injection Herr as <-.
    + assert (listeners (run [chatHub] chat_metadata chat_method_of chat_string chat_apply
                           chat_stack chat_loop (session HubServiceOptions.empty) initial)
                "chatHub" (eventName messageReceived)
              = [ {| thisObj := 1; callback_of := 11 |};
                  {| thisObj := 2; callback_of := 12 |} ]) as ->
        by (vm_compute; reflexivity).
      unfold chat_loop. simpl. lia.
Defined.
